(** * denzai: jailed virtual storage

    A shallow embedding of the path algebra ([src/utils/path.ts]), of the
    in-memory filesystem engine ([MemoryFs]), of the blob-persisted adapter
    ([webStore]) and of the host-filesystem adapter ([src/store/file_store.ts]),
    with the properties the specification states about them; and of the
    JSON helpers, of [memoryStore] and of the child stores of [Store], with
    the laws the code keeps.

    Conventions.
    - A JavaScript string is a [string]: a sequence of 8-bit characters,
      compared character by character ([String.ltb]), as [<] and the default
      [Array.prototype.sort] compare UTF-16 code units.
    - A [Date] is its time value in milliseconds, a [Z]; every reading of the
      clock ([new Date()]) is an explicit argument of the operation.
    - The node array [fs.nodes] is a [list (option FsNode)]: [None] is a hole,
      which is what [delete fs.nodes[i]] leaves. The object [fs.index] is a
      [gmap string nat].
    - An operation of the engine is a computation in the monad [M]: it threads
      the [Fs] value it mutates and either returns a value (a [StoreErr] is a
      value) or throws; the state reached when it throws is kept. *)

From Stdlib Require Import ZArith Ascii String.
From Stdlib Require OrdersEx.
From stdpp Require Import base strings list gmap sorting.



(** ** PathResolver: [src/utils/path.ts] *)

Module Path.

(** The character ["/"]. *)
Definition slash : ascii := "/"%char.

Definition is_slash (c : ascii) : bool := Ascii.eqb c slash.

(** [s.split("/")]. *)
Fixpoint split (s : string) : list string :=
  match s with
  | EmptyString => [""]
  | String c r =>
      if is_slash c then "" :: split r
      else match split r with
           | h :: t => String c h :: t
           | [] => [String c ""]
           end
  end.

(** [parts.join("/")]. *)
Fixpoint joinParts (parts : list string) : string :=
  match parts with
  | [] => ""
  | [p] => p
  | p :: rest => p +:+ "/" +:+ joinParts rest
  end.

(** [s.startsWith(p)]. *)
Definition startsWith (s p : string) : bool := String.prefix p s.

Definition nonEmpty (s : string) : bool := negb (String.eqb s "").

(** [s.replace(/\/+/g, "/")]; [s.replace(/\/\/+/g, "/")] is the same
    function: every maximal run of slashes becomes one slash. *)
Fixpoint collapseSlashes (s : string) : string :=
  match s with
  | EmptyString => ""
  | String c r =>
      if is_slash c then
        match r with
        | String c' _ => if is_slash c' then collapseSlashes r
                         else String c (collapseSlashes r)
        | EmptyString => String c ""
        end
      else String c (collapseSlashes r)
  end.

(** [s.replace(/\/$/, "")]. *)
Fixpoint stripTrailingSlash (s : string) : string :=
  match s with
  | EmptyString => ""
  | String c r =>
      match r with
      | EmptyString => if is_slash c then "" else s
      | _ => String c (stripTrailingSlash r)
      end
  end.

Definition isAbsolute (path : string) : bool := startsWith path "/".
Definition isRelative (path : string) : bool := negb (isAbsolute path).

(** The segments of every argument, without the empty ones and ["."]. *)
Definition joinSegment (part : string) : bool :=
  negb (String.eqb part "" || String.eqb part ".").

Definition join (segments : list string) : string :=
  let parts := concat (map (fun seg => filter (fun p => joinSegment p = true) (split seg)) segments) in
  match segments with
  | first :: _ =>
      if startsWith first "/" then "/" +:+ joinParts parts else joinParts parts
  | [] => joinParts parts
  end.

Definition cleanPath (path : string) : string :=
  let p := stripTrailingSlash (collapseSlashes path) in
  if String.eqb p "" then "/" else p.

(** [segments.pop()]: the list without its last element. *)
Definition pop {A} (l : list A) : list A := removelast l.

Definition dirname (path : string) : string :=
  let segments := pop (split path) in
  if (length segments =? 1)%nat && isAbsolute path then "/"
  else if (length segments =? 0)%nat then "."
  else cleanPath (joinParts segments).

(** One turn of the loop of [resolve] over the parts of the relative path:
    [".."] pops (nothing at an empty stack), ["."] and [""] are skipped,
    anything else is pushed. *)
Definition resolveStep (baseParts : list string) (part : string) : list string :=
  if String.eqb part ".." then
    (if (0 <? length baseParts)%nat then pop baseParts else baseParts)
  else if negb (String.eqb part ".") && negb (String.eqb part "") then
    baseParts ++ [part]
  else baseParts.

Definition resolve (basePath relativePath : string) : string :=
  if isAbsolute relativePath then cleanPath relativePath
  else
    let baseParts := filter (fun p => nonEmpty p = true) (split basePath) in
    let parts := split relativePath in
    cleanPath ("/" +:+ joinParts (foldl resolveStep baseParts parts)).

(** [fromParts]/[toParts] after the common leading components are shifted
    off. *)
Fixpoint dropCommon (fromParts toParts : list string) : list string * list string :=
  match fromParts, toParts with
  | f :: fs, t :: ts =>
      if String.eqb f t then dropCommon fs ts else (fromParts, toParts)
  | _, _ => (fromParts, toParts)
  end.

(** ["../".repeat(n)]. *)
Fixpoint repeatUp (n : nat) : string :=
  match n with
  | O => ""
  | S k => "../" +:+ repeatUp k
  end.

Definition relative (from to : string) : string :=
  let fromParts := filter (fun p => nonEmpty p = true) (split (cleanPath from)) in
  let toParts := filter (fun p => nonEmpty p = true) (split (cleanPath to)) in
  let '(fromRest, toRest) := dropCommon fromParts toParts in
  cleanPath (repeatUp (length fromRest) +:+ joinParts toRest).

Definition withinRoot (root resolvedPath : string) : bool :=
  startsWith resolvedPath root.

Definition withinJail (jail path : string) : bool :=
  if isRelative path then true else startsWith path jail.

Definition resolveWithinJail (jail basePath path : string) : string :=
  let resolvedPath := resolve basePath path in
  let finalPath :=
    if negb (withinJail jail resolvedPath)
    then collapseSlashes (jail +:+ "/" +:+ resolvedPath)
    else resolvedPath in
  if String.eqb finalPath "/" then finalPath
  else stripTrailingSlash finalPath.

End Path.


(** ** PathResolver, continued: [filename] and [ext] *)

Module PathNames.
Import Path.

(** [filename]: the last segment, which [split] always has. *)
Definition filename (path : string) : option string := last (split path).

(** [s.lastIndexOf(".")], from the index [i] of the first character of [s];
    [-1] when there is none. *)
Fixpoint lastIndexFrom (c : ascii) (i : Z) (s : string) : Z :=
  match s with
  | EmptyString => (-1)%Z
  | String d r =>
      let later := lastIndexFrom c (i + 1)%Z r in
      if (0 <=? later)%Z then later
      else if Ascii.eqb d c then i else (-1)%Z
  end.

Definition lastIndexOf (c : ascii) (s : string) : Z := lastIndexFrom c 0%Z s.

(** [s.substring(start)]. *)
Fixpoint substring (start : nat) (s : string) : string :=
  match start, s with
  | O, _ => s
  | S k, String _ r => substring k r
  | S _, EmptyString => ""
  end.

(** [ext]: the pipeline binds [filename] and [index], keeps an [index >= 0]
    and ends with the substring. *)
Definition ext (path : string) : option string :=
  filename ← filename path;
  index ← Some (lastIndexOf "." filename);
  if (0 <=? index)%Z then Some (substring (Z.to_nat index) filename) else None.

End PathNames.
(** ** StorageContract: the types of [src/store/store.ts] and [src/store/errors.ts] *)

Record StoreNodeTime := mkTime {
  mtime : option Z;
  atime : option Z;
  ctime : option Z;
  btime : option Z;
}.

Definition allTimes (t : Z) : StoreNodeTime :=
  {| mtime := Some t; atime := Some t; ctime := Some t; btime := Some t |}.

Definition setMtime (t : Z) (s : StoreNodeTime) : StoreNodeTime :=
  {| mtime := Some t; atime := atime s; ctime := ctime s; btime := btime s |}.

Definition setAtime (t : Z) (s : StoreNodeTime) : StoreNodeTime :=
  {| mtime := mtime s; atime := Some t; ctime := ctime s; btime := btime s |}.

(** [{ ...a, ...b }] on two [StoreNodeTime]s: a field of [b] that is present
    wins. ([None] is an absent field.) *)
Definition mergeTimes (a b : StoreNodeTime) : StoreNodeTime :=
  {| mtime := from_option Some (mtime a) (mtime b);
     atime := from_option Some (atime a) (atime b);
     ctime := from_option Some (ctime a) (ctime b);
     btime := from_option Some (btime a) (btime b) |}.

Record StoreNodeStats := mkStats {
  st_atime : Z;
  st_btime : Z;
  st_ctime : Z;
  st_mtime : Z;
  isFile : bool;
  isDirectory : bool;
}.

Record StoreContext := mkContext {
  uri : string;
  jail : string;
  pwd : string;
}.

Inductive StoreErrCode :=
  | SYNTAX | SCHEMA | UNKNOWN
  | FILE_NOT_FOUND | FILE_EXISTS | NOT_A_FILE
  | DIR_NOT_FOUND | DIR_EXISTS | NOT_A_DIR
  | PATH_NOT_FOUND | PATH_EXISTS | PATH_UNAVAILABLE
  | READ_ONLY | QUOTA_EXCEEDED.

(** A [StoreErr] value. Its [message] and [context] are diagnostics (the
    context holds a [Json.jsonify] copy of the tree); the embedding keeps the
    [code]. *)
Record StoreErr := mkErr { code : StoreErrCode }.

(** [Result<T, E>] of [src/utils/result.ts]. *)
Inductive Result (T E : Type) :=
  | Ok (value : T)
  | Err (error : E).
Arguments Ok {T E} value.
Arguments Err {T E} error.

Definition isOk {T E} (r : Result T E) : bool :=
  match r with Ok _ => true | Err _ => false end.

(** ** MemoryFilesystemEngine: [MemoryFs] *)

Inductive FsNode :=
  | FileNode (path : string) (content : string) (stats : StoreNodeTime)
  | DirNode (path : string) (children : list string) (stats : StoreNodeTime).

Definition nodePath (n : FsNode) : string :=
  match n with FileNode p _ _ => p | DirNode p _ _ => p end.

Definition nodeStats (n : FsNode) : StoreNodeTime :=
  match n with FileNode _ _ s => s | DirNode _ _ s => s end.

Definition withStats (f : StoreNodeTime -> StoreNodeTime) (n : FsNode) : FsNode :=
  match n with
  | FileNode p c s => FileNode p c (f s)
  | DirNode p ch s => DirNode p ch (f s)
  end.

Definition isDirNode (n : FsNode) : bool :=
  match n with DirNode _ _ _ => true | FileNode _ _ _ => false end.

Definition isFileNode (n : FsNode) : bool := negb (isDirNode n).

(** The [Fs] value an engine owns ([version] is the constant ["0.1"]). *)
Record Fs := mkFs {
  nodes : list (option FsNode);
  index : gmap string nat;
}.

(** What a thrown exception can be. [INVARIANT] is the [BaseErr] of
    [invariant]; [TYPE_ERROR] the runtime's [TypeError]; [STACK_OVERFLOW] the
    [RangeError] of a recursion deeper than the call stack. *)
Inductive Exn := INVARIANT | TYPE_ERROR | STACK_OVERFLOW.

Inductive Res (A : Type) :=
  | Val (a : A)
  | Throw (e : Exn).
Arguments Val {A} a.
Arguments Throw {A} e.

(** A method of the engine: it reads and mutates [this.fs], and returns or
    throws. The mutations made before a throw stay. *)
Definition M (A : Type) : Type := Fs -> Res A * Fs.

#[global] Instance M_ret : MRet M := fun A a fs => (Val a, fs).
#[global] Instance M_bind : MBind M := fun A B f m fs =>
  match m fs with
  | (Val a, fs') => f a fs'
  | (Throw e, fs') => (Throw e, fs')
  end.

Definition get : M Fs := fun fs => (Val fs, fs).
Definition put (fs : Fs) : M unit := fun _ => (Val tt, fs).
Definition modify (f : Fs -> Fs) : M unit := fun fs => (Val tt, f fs).
Definition throw {A} (e : Exn) : M A := fun fs => (Throw e, fs).

(** [invariant(condition)]. *)
Definition invariant (condition : bool) : M unit :=
  if condition then mret tt else throw INVARIANT.

(** [for (const x of l) body(x)]. *)
Fixpoint forEach {A} (l : list A) (body : A -> M unit) : M unit :=
  match l with
  | [] => mret tt
  | x :: rest => body x ;; forEach rest body
  end.

(** [Array.prototype.sort] with a comparator that is a strict order on the
    elements at hand: [lt a b] stands for a negative result. The sorted array
    is then unique, and insertion sort computes it. *)
Fixpoint insertSorted {A} (lt : A -> A -> bool) (x : A) (l : list A) : list A :=
  match l with
  | [] => [x]
  | y :: rest => if lt x y then x :: l else y :: insertSorted lt x rest
  end.

Definition sortBy {A} (lt : A -> A -> bool) (l : list A) : list A :=
  foldr (insertSorted lt) [] l.

(** [children.sort()]: the default order of strings. *)
Definition sortStrings (l : list string) : list string := sortBy String.ltb l.

(** [nodes.sort((a, b) => (a.path < b.path ? -1 : 1))] on the nodes that are
    not holes. *)
Definition sortNodes (l : list FsNode) : list FsNode :=
  sortBy (fun a b => String.ltb (nodePath a) (nodePath b)) l.

Module MemoryFs.

(** What [getNode] returns: [null] when the index has no entry, [undefined]
    when the entry points at a hole (or past the array), otherwise the node
    object, which is the slot [i] of [fs.nodes] and its current value. *)
Inductive Ref :=
  | RNull
  | RUndefined
  | RNode (i : nat) (n : FsNode).

Definition getNode (fs : Fs) (path : string) : Ref :=
  let resolvedPath := Path.resolve "/" path in
  match index fs !! resolvedPath with
  | None => RNull
  | Some i =>
      match nodes fs !! i with
      | Some (Some n) => RNode i n
      | _ => RUndefined
      end
  end.

Definition getParent (fs : Fs) (path : string) : Ref :=
  getNode fs (Path.dirname (Path.resolve "/" path)).

(** An assignment to a field of the node object in slot [i]. *)
Definition updateNode (i : nat) (f : FsNode -> FsNode) : M unit :=
  modify (fun fs => mkFs (alter (fmap f) i (nodes fs)) (index fs)).

Definition empty (root : string) (time : Z) : Fs :=
  {| nodes := [Some (DirNode "/" [] (allTimes time))];
     index := {["/" := 0%nat]} |}.

(** The index the loop of [rebuildIndex] builds over the sorted nodes. *)
Definition indexOf (sorted : list FsNode) : gmap string nat :=
  foldl (fun idx '(i, n) => <[nodePath n := i]> idx) ∅ (imap pair sorted).

(** [rebuildIndex]: the sort moves the holes behind the nodes and keeps the
    length; the loop then indexes every node and throws at the first hole. *)
Definition rebuildIndex : M unit :=
  fs ← get;
  let live := omap id (nodes fs) in
  let sorted := sortNodes live in
  let holes := (length (nodes fs) - length live)%nat in
  put {| nodes := (Some <$> sorted) ++ replicate holes None;
         index := indexOf sorted |};;
  invariant (holes =? 0)%nat.

(** [addNode({ node, timestamp, rebuildIndex })]; every caller passes the
    timestamp. *)
Definition addNode (node : FsNode) (ts : Z) (rebuild : bool) : M unit :=
  modify (fun fs =>
    {| nodes := nodes fs ++ [Some node];
       index := <[nodePath node := length (nodes fs)]> (index fs) |});;
  fs ← get;
  match getNode fs (Path.dirname (nodePath node)) with
  | RNode j (DirNode _ _ _) =>
      updateNode j (fun parent =>
        match parent with
        | DirNode p children st =>
            DirNode p (sortStrings (children ++ [nodePath node])) (setMtime ts st)
        | FileNode _ _ _ => parent
        end);;
      if rebuild then rebuildIndex else mret tt
  | _ => throw INVARIANT
  end.

Definition stats (context : StoreContext) (path : string) (now : Z)
  : M (Result StoreNodeStats StoreErr) :=
  let resolvedPath := Path.resolveWithinJail (jail context) (pwd context) path in
  fs ← get;
  match getNode fs resolvedPath with
  | RNode _ node =>
      mret (Ok {| st_atime := default now (atime (nodeStats node));
                  st_btime := default now (btime (nodeStats node));
                  st_ctime := default now (ctime (nodeStats node));
                  st_mtime := default now (mtime (nodeStats node));
                  isFile := isFileNode node;
                  isDirectory := isDirNode node |})
  | _ => mret (Err (mkErr PATH_NOT_FOUND))
  end.

(** [read]; [now1] and [now2] are its two readings of the clock.
    [Optional.unwrap] of a missing parent throws a [TypeError]: its message
    callback dereferences the missing value. *)
Definition read (context : StoreContext) (filename : string) (now1 now2 : Z)
  : M (Result string StoreErr) :=
  let resolvedPath := Path.resolveWithinJail (jail context) (pwd context) filename in
  fs ← get;
  match getNode fs resolvedPath with
  | RNode i (FileNode p content _) =>
      updateNode i (withStats (setAtime now1));;
      fs' ← get;
      match getNode fs' (Path.dirname p) with
      | RNode j _ =>
          updateNode j (withStats (setAtime now2));;
          mret (Ok content)
      | _ => throw TYPE_ERROR
      end
  | _ => mret (Err (mkErr FILE_NOT_FOUND))
  end.

(** [hasPathAvailable]: no cumulative prefix of [path] names a file. *)
Fixpoint hasPathAvailableFrom (fs : Fs) (cur : string) (parts : list string) : bool :=
  match parts with
  | [] => true
  | part :: rest =>
      let cur' := Path.join [cur; part] in
      match getNode fs cur' with
      | RNode _ (FileNode _ _ _) => false
      | _ => hasPathAvailableFrom fs cur' rest
      end
  end.

Definition hasPathAvailable (fs : Fs) (path : string) : bool :=
  hasPathAvailableFrom fs "/" (Path.split path).

Fixpoint getPathsFrom (cur : string) (parts : list string) : list string :=
  match parts with
  | [] => []
  | part :: rest =>
      let cur' := Path.join [cur; part] in
      cur' :: getPathsFrom cur' rest
  end.

Definition getPaths (path : string) : list string :=
  getPathsFrom "/" (Path.split (Path.resolve "/" path)).

Record MkdirOptions := {
  mk_recursive : option bool;
  mk_timestamp : option Z;
}.

Definition mkdir (context : StoreContext) (path : string)
    (options : MkdirOptions) (now : Z) : M (option StoreErr) :=
  let resolvedPath := Path.resolveWithinJail (jail context) (pwd context) path in
  let timestamp := default now (mk_timestamp options) in
  let recursive := default true (mk_recursive options) in
  fs ← get;
  match getNode fs resolvedPath with
  | RNode _ (FileNode _ _ _) => mret (Some (mkErr FILE_EXISTS))
  | RNode _ (DirNode _ _ _) => mret None
  | _ =>
      if negb recursive then
        match getNode fs (Path.dirname resolvedPath) with
        | RNode _ (DirNode _ _ _) =>
            addNode (DirNode resolvedPath [] (allTimes timestamp)) timestamp false;;
            mret None
        | _ => mret (Some (mkErr PATH_UNAVAILABLE))
        end
      else if negb (hasPathAvailable fs resolvedPath) then
        mret (Some (mkErr PATH_UNAVAILABLE))
      else
        forEach (getPaths resolvedPath) (fun p =>
          fs' ← get;
          match getNode fs' p with
          | RNull => addNode (DirNode p [] (allTimes timestamp)) timestamp false
          | _ => mret tt
          end);;
        rebuildIndex;;
        mret None
  end.

Record WriteOptions := {
  wr_recursive : option bool;
  wr_timestamp : option Z;
}.

Definition isDirRef (r : Ref) : bool :=
  match r with RNode _ (DirNode _ _ _) => true | _ => false end.

Definition write (context : StoreContext) (path content : string)
    (options : WriteOptions) (now : Z) : M (option StoreErr) :=
  let resolvedPath := Path.resolveWithinJail (jail context) (pwd context) path in
  let timestamp := default now (wr_timestamp options) in
  let recursive := default true (wr_recursive options) in
  fs ← get;
  match getNode fs resolvedPath with
  | RNode _ (DirNode _ _ _) => mret (Some (mkErr PATH_NOT_FOUND))
  | RNode i (FileNode _ _ _) =>
      updateNode i (fun node =>
        match node with
        | FileNode p _ st => FileNode p content (setMtime timestamp st)
        | DirNode _ _ _ => node
        end);;
      fs' ← get;
      match getParent fs' resolvedPath with
      | RNode j (DirNode _ _ _) =>
          updateNode j (withStats (setMtime timestamp));;
          mret None
      | _ => throw INVARIANT
      end
  | _ =>
      let addFile : M (option StoreErr) :=
        addNode (FileNode resolvedPath content (allTimes timestamp)) timestamp false;;
        mret None in
      match getParent fs resolvedPath with
      | RNull =>
          if recursive then
            res ← mkdir context (Path.dirname resolvedPath)
                    {| mk_recursive := Some recursive; mk_timestamp := Some timestamp |} now;
            match res with
            | Some err => mret (Some err)
            | None =>
                fs' ← get;
                invariant (isDirRef (getParent fs' resolvedPath));;
                addFile
            end
          else mret (Some (mkErr PATH_UNAVAILABLE))
      | RNode _ (DirNode _ _ _) => addFile
      | _ => mret (Some (mkErr PATH_UNAVAILABLE))
      end
  end.

Record RmOptions := {
  rm_recursive : option bool;
  rm_timestamp : option Z;
  rm_rebuildIndex : option bool;
}.

Definition noRmOptions : RmOptions :=
  {| rm_recursive := None; rm_timestamp := None; rm_rebuildIndex := None |}.

(** [const index = this.fs.index[node.path]; invariant(index !== undefined);
    delete this.fs.nodes[index]]: the slot becomes a hole. *)
Definition deleteNode (p : string) : M unit :=
  fs ← get;
  match index fs !! p with
  | None => throw INVARIANT
  | Some i => put {| nodes := <[i := None]> (nodes fs); index := index fs |}
  end.

(** [const parent = this.getParent(path); invariant(parent?.type === "d");
    parent.stats.mtime = ts]. *)
Definition touchParent (path : string) (ts : Z) : M unit :=
  fs ← get;
  match getParent fs path with
  | RNode j (DirNode _ _ _) => updateNode j (withStats (setMtime ts))
  | _ => throw INVARIANT
  end.

(** [rm]; [fuel] bounds the depth of its recursion, [now1] and [now2] are its
    two readings of the clock (neither is used when [options] carries a
    timestamp). The last branch of the source, for a node that is neither a
    file nor a directory, has no counterpart: [FsNode] has no such node. *)
Fixpoint rm (fuel : nat) (context : StoreContext) (path : string)
    (options : RmOptions) (now1 now2 : Z) : M (option StoreErr) :=
  match fuel with
  | O => throw STACK_OVERFLOW
  | S fuel' =>
      let resolvedPath := Path.resolveWithinJail (jail context) (pwd context) path in
      let recursive := default false (rm_recursive options) in
      let timestamp := default now1 (rm_timestamp options) in
      let rebuild := default true (rm_rebuildIndex options) in
      fs ← get;
      match getNode fs resolvedPath with
      | RNode _ (FileNode p _ _) =>
          deleteNode p;;
          touchParent path (default now2 (rm_timestamp options));;
          (if rebuild then rebuildIndex else mret tt);;
          mret None
      | RNode _ (DirNode p children _) =>
          if recursive then
            forEach children (fun n =>
              rm fuel' context n
                 {| rm_recursive := Some true;
                    rm_timestamp := Some timestamp;
                    rm_rebuildIndex := Some false |} now1 now2;;
              mret tt);;
            deleteNode p;;
            touchParent path (default now2 (rm_timestamp options));;
            (if rebuild then rebuildIndex else mret tt);;
            mret None
          else mret (Some (mkErr DIR_EXISTS))
      | _ => mret None
      end
  end.

Definition readdir (context : StoreContext) (path : string)
  : M (Result (list string) StoreErr) :=
  let resolvedPath := Path.resolveWithinJail (jail context) (pwd context) path in
  fs ← get;
  match getNode fs resolvedPath with
  | RNode _ (DirNode _ children _) =>
      mret (Ok (map (fun child => Path.relative resolvedPath child) children))
  | RNode _ (FileNode _ _ _) => mret (Err (mkErr NOT_A_DIR))
  | _ => mret (Err (mkErr PATH_NOT_FOUND))
  end.

(** [rmdir]: its [options] are never read. *)
Definition rmdir (fuel : nat) (context : StoreContext) (path : string)
    (options : RmOptions) (now1 now2 : Z) : M (option StoreErr) :=
  let resolvedPath := Path.resolveWithinJail (jail context) (pwd context) path in
  fs ← get;
  match getNode fs resolvedPath with
  | RNode _ (DirNode _ children _) =>
      if (length children =? 0)%nat then rm fuel context path noRmOptions now1 now2
      else rm fuel context path
             {| rm_recursive := Some true; rm_timestamp := None; rm_rebuildIndex := None |}
             now1 now2
  | RNode _ (FileNode _ _ _) => mret (Some (mkErr PATH_NOT_FOUND))
  | _ => mret None
  end.

Definition utimes (context : StoreContext) (path : string) (times : StoreNodeTime)
  : M (option StoreErr) :=
  let resolvedPath := Path.resolveWithinJail (jail context) (pwd context) path in
  fs ← get;
  match getNode fs resolvedPath with
  | RNode i _ =>
      updateNode i (withStats (fun st => mergeTimes st times));;
      mret None
  | _ => mret (Some (mkErr PATH_NOT_FOUND))
  end.

End MemoryFs.

(** ** Serialization: [MemoryFs.toJson] and [MemoryFs.parse] *)

(** A JSON value. *)
#[local] Unset Elimination Schemes.
Inductive Json :=
  | JNull
  | JBool (b : bool)
  | JNum (n : Z)
  | JStr (s : string)
  | JArr (items : list Json)
  | JObj (fields : list (string * Json)).
#[local] Set Elimination Schemes.

(** A string handed to [Json.parse]: either the text of a JSON value (what
    [JSON.stringify] writes, and what [StdJson.parse] reads back as that
    value), or a string that is no JSON text. *)
Inductive Text :=
  | Doc (j : Json)
  | Malformed (s : string).

(** [obj[key]]: the last binding of the key. *)
Fixpoint field (key : string) (fields : list (string * Json)) : option Json :=
  match fields with
  | [] => None
  | (k, v) :: rest =>
      match field key rest with
      | Some v' => Some v'
      | None => if String.eqb k key then Some v else None
      end
  end.

Section Serialization.

(** The runtime's [Date.prototype.toISOString], which [JSON.stringify] calls
    on a [Date], and [new Date(string)]. *)
Variable toISOString : Z -> string.
Variable dateParse : string -> Z.

Definition timeField (key : string) (t : option Z) : list (string * Json) :=
  match t with
  | Some v => [(key, JStr (toISOString v))]
  | None => []
  end.

Definition statsToJson (s : StoreNodeTime) : Json :=
  JObj (timeField "atime" (atime s) ++ timeField "mtime" (mtime s)
        ++ timeField "ctime" (ctime s) ++ timeField "btime" (btime s)).

(** A hole of the array is written as [null]. *)
Definition nodeToJson (n : option FsNode) : Json :=
  match n with
  | None => JNull
  | Some (FileNode p c s) =>
      JObj [("type", JStr "f"); ("path", JStr p); ("content", JStr c);
            ("stats", statsToJson s)]
  | Some (DirNode p ch s) =>
      JObj [("type", JStr "d"); ("path", JStr p); ("stats", statsToJson s);
            ("children", JArr (JStr <$> ch))]
  end.

(** The value [JSON.stringify(this.fs)] denotes. *)
Definition fsToJson (fs : Fs) : Json :=
  JObj [("version", JStr "0.1");
        ("nodes", JArr (nodeToJson <$> nodes fs));
        ("index", JObj ((fun '(k, i) => (k, JNum (Z.of_nat i))) <$> map_to_list (index fs)))].

Definition toJson (fs : Fs) : Text := Doc (fsToJson fs).

(** The loop of [parse] over [fs.value.nodes]: [invariant(isSome(node))]
    throws at a [null]; reading [node.stats.ctime] throws a [TypeError] when
    [node.stats] is missing. The dates are revived in [decodeTime]. *)
Fixpoint checkNodes (items : list Json) : Res unit :=
  match items with
  | [] => Val tt
  | JNull :: _ => Throw INVARIANT
  | JObj fields :: rest =>
      match field "stats" fields with
      | Some JNull | None => Throw TYPE_ERROR
      | Some _ => checkNodes rest
      end
  | _ :: _ => Throw TYPE_ERROR
  end.

(** [if (node.stats.ctime) node.stats.ctime = new Date(node.stats.ctime)];
    [None] when the field is no timestamp at all. *)
Definition decodeTime (v : option Json) : option (option Z) :=
  match v with
  | None | Some JNull => Some None
  | Some (JStr s) => if Path.nonEmpty s then Some (Some (dateParse s)) else None
  | Some _ => None
  end.

Definition decodeStats (v : Json) : option StoreNodeTime :=
  match v with
  | JObj fields =>
      m ← decodeTime (field "mtime" fields);
      a ← decodeTime (field "atime" fields);
      c ← decodeTime (field "ctime" fields);
      b ← decodeTime (field "btime" fields);
      Some {| mtime := m; atime := a; ctime := c; btime := b |}
  | _ => None
  end.

Definition decodeString (v : Json) : option string :=
  match v with JStr s => Some s | _ => None end.

Definition decodeNode (v : Json) : option (option FsNode) :=
  match v with
  | JObj fields =>
      ty ← field "type" fields ≫= decodeString;
      p ← field "path" fields ≫= decodeString;
      s ← field "stats" fields ≫= decodeStats;
      if String.eqb ty "f" then
        c ← field "content" fields ≫= decodeString;
        Some (Some (FileNode p c s))
      else if String.eqb ty "d" then
        match field "children" fields with
        | Some (JArr items) =>
            ch ← mapM decodeString items;
            Some (Some (DirNode p ch s))
        | _ => None
        end
      else None
  | _ => None
  end.

Definition decodeIndexEntry (kv : string * Json) : option (string * nat) :=
  match kv.2 with
  | JNum n => if (0 <=? n)%Z then Some (kv.1, Z.to_nat n) else None
  | _ => None
  end.

(** The envelope as a value of type [Fs]; the source casts without a check
    ([a as Fs]). *)
Definition decodeFs (fields : list (string * Json)) : option Fs :=
  match field "nodes" fields, field "index" fields with
  | Some (JArr items), Some (JObj entries) =>
      ns ← mapM decodeNode items;
      idx ← mapM decodeIndexEntry entries;
      Some {| nodes := ns; index := list_to_map (reverse idx) |}
  | _, _ => None
  end.

(** [MemoryFs.parse]. An envelope of version ["0.1"] that does not have the
    type [Fs] is outside the embedding, which stops there with a
    [TYPE_ERROR]. *)
Definition parse (content : Text) : Res (Result Fs StoreErr) :=
  match content with
  | Malformed _ => Val (Err (mkErr SYNTAX))
  | Doc JNull => Throw TYPE_ERROR
  | Doc (JObj fields) =>
      match field "version" fields with
      | Some (JStr v) =>
          if String.eqb v "0.1" then
            match field "nodes" fields with
            | Some (JArr items) =>
                match checkNodes items with
                | Throw e => Throw e
                | Val _ =>
                    match decodeFs fields with
                    | Some fs => Val (Ok fs)
                    | None => Throw TYPE_ERROR
                    end
                end
            | _ => Throw TYPE_ERROR
            end
          else Val (Err (mkErr SCHEMA))
      | _ => Val (Err (mkErr SCHEMA))
      end
  | Doc _ => Val (Err (mkErr SCHEMA))
  end.

(** ** BlobPersistedAdapter: [webStore] *)

Record WebStoreOptions := {
  web_pwd : option string;
  web_uri : option string;
  web_jail : option string;
  web_prefix : option string;
}.

(** The [Storage] object: the slots that hold a string. [setItem] is taken
    to succeed (no quota). *)
Abbreviation Storage := (gmap string Text).

(** What the closure of [webStore] holds: the context of the store, the key
    [prefix] that [save] writes, and the engine [memory]. *)
Record WebStore := {
  web_context : StoreContext;
  web_key : string;
  web_memory : Fs;
}.

(** The body of [webStore] up to the [Store] it returns; [now] is the clock
    [MemoryFs.empty] reads. A [Text] is truthy unless it is the empty
    string. *)
Definition webStore (storage : Storage) (options : WebStoreOptions) (now : Z)
  : Res WebStore :=
  let jail := default "/" (web_jail options) in
  let pwd := Path.resolveWithinJail jail jail (default "/" (web_pwd options)) in
  let uri := default ("web://" +:+ pwd) (web_uri options) in
  let prefix := default "" (web_prefix options) in
  let content := storage !! "prefix" in
  let memory : Res Fs :=
    match content with
    | Some (Malformed "") | None => Val (MemoryFs.empty pwd now)
    | Some text =>
        match parse text with
        | Val (Ok fs) => Val fs
        | Val (Err _) => Val (MemoryFs.empty pwd now)
        | Throw e => Throw e
        end
    end in
  match memory with
  | Val fs => Val {| web_context := mkContext uri jail pwd; web_key := prefix; web_memory := fs |}
  | Throw e => Throw e
  end.

(** A method of the web store runs a method of the engine on [memory] and
    may [save]: the state is the engine and the storage. *)
Definition save (w : WebStore) (storage : Storage) : Storage :=
  <[web_key w := toJson (web_memory w)]> storage.

Definition withMemory (w : WebStore) (fs : Fs) : WebStore :=
  {| web_context := web_context w; web_key := web_key w; web_memory := fs |}.

(** [const err = memory.op(...); if (err === null) save(); return err]. *)
Definition saving (w : WebStore) (storage : Storage) (op : M (option StoreErr))
  : Res (option StoreErr) * (WebStore * Storage) :=
  match op (web_memory w) with
  | (Val None, fs) => (Val None, (withMemory w fs, save (withMemory w fs) storage))
  | (r, fs) => (r, (withMemory w fs, storage))
  end.


Definition web_write (w : WebStore) (storage : Storage) (context : StoreContext)
    (path content : string) (recurive : option bool) (now : Z) :=
  saving w storage
    (MemoryFs.write context path content
       {| MemoryFs.wr_recursive := recurive; MemoryFs.wr_timestamp := None |} now).







End Serialization.

(** ** JSON values: [isJson], [isJsonObject], [isJsonArray] and [jsonify] *)

Module JsonLib.

(** The values the predicates and [jsonify] are given: the primitives, a
    [Date], an array, and an object with its own enumerable properties in
    their order. Functions, symbols and sparse arrays are outside the
    embedding. *)
#[local] Unset Elimination Schemes.
Inductive JsValue :=
  | VUndefined
  | VNull
  | VBool (b : bool)
  | VNum (n : Z)
  | VStr (s : string)
  | VDate (time : Z)
  | VArr (items : list JsValue)
  | VObj (fields : list (string * JsValue)).
#[local] Set Elimination Schemes.

Definition isBoolean (json : JsValue) : bool :=
  match json with VBool _ => true | _ => false end.


Definition isJsonNumber (json : JsValue) : bool :=
  match json with VNum _ => true | _ => false end.

Definition isJsonString (json : JsValue) : bool :=
  match json with VStr _ => true | _ => false end.







End JsonLib.

(** ** HostFilesystemAdapter: [src/store/file_store.ts] *)

Module FileStore.

(** A call of a primitive of [node:fs/promises], with the arguments the
    adapter passes. *)
Inductive HostCall :=
  | FS_readFile (path : string)
  | FS_readdir (path : string) (recursive : option bool)
  | FS_rm (path : string) (recursive : option bool)
  | FS_rmdir (path : string) (recursive : option bool)
  | FS_mkdir (path : string) (recursive : bool)
  | FS_writeFile (path content : string)
  | FS_stat (path : string)
  | FS_utimes (path : string) (atime mtime : Z).

(** The path argument of a call. *)
Definition callPath (c : HostCall) : string :=
  match c with
  | FS_readFile p | FS_readdir p _ | FS_rm p _ | FS_rmdir p _ | FS_mkdir p _
  | FS_writeFile p _ | FS_stat p | FS_utimes p _ _ => p
  end.

Inductive HostValue :=
  | HUnit
  | HText (content : string)
  | HNames (names : list string)
  | HStats (s : StoreNodeStats).

(** A primitive resolves with a value or rejects with an error, of which the
    adapter reads the [code]. *)
Inductive HostResult :=
  | Resolved (v : HostValue)
  | Rejected (errorCode : string).

(** [/^[0-9]+$/.test(value)]. *)
Definition isDigit (c : ascii) : bool :=
  (48 <=? nat_of_ascii c)%nat && (nat_of_ascii c <=? 57)%nat.

Fixpoint allDigits (s : string) : bool :=
  match s with
  | EmptyString => true
  | String c r => isDigit c && allDigits r
  end.

Definition isNumberic (value : string) : bool :=
  Path.nonEmpty value && allDigits value.

(** [parseInt] of a string of digits (as an exact integer). *)
Fixpoint parseDigits (acc : N) (s : string) : N :=
  match s with
  | EmptyString => acc
  | String c r => parseDigits (acc * 10 + (N_of_ascii c - 48))%N r
  end.

Definition parseInt (s : string) : N := parseDigits 0%N s.

(** The comparator of [readdir] returns a negative number. *)
Definition childBefore (a b : string) : bool :=
  if isNumberic a && isNumberic b then (parseInt a <? parseInt b)%N
  else String.ltb a b.

Definition sortChildren (children : list string) : list string :=
  sortBy childBefore children.

Section Host.

(** [homedir()] of [node:os], and the host filesystem: a state and what a
    call does to it. *)
Variable home : string.
Variable HostState : Type.
Variable host : HostState -> HostCall -> HostResult * HostState.

(** [s.slice(1)]. *)
Definition slice1 (s : string) : string :=
  match s with
  | EmptyString => ""
  | String _ r => r
  end.

Definition resolve (context : StoreContext) (path : string) : string :=
  let fixedPwd :=
    if Path.startsWith (pwd context) "~" then Path.join [home; slice1 (pwd context)]
    else pwd context in
  let fixedPath :=
    if Path.startsWith path "~" then home +:+ "/" +:+ slice1 path else path in
  Path.resolveWithinJail (jail context) fixedPwd fixedPath.

(** [Future.tryCatch(() => FS.call, onErr)]. *)
Definition tryCatch (h : HostState) (call : HostCall) (onErr : string -> StoreErrCode)
  : Result HostValue StoreErr * HostState :=
  match host h call with
  | (Resolved v, h') => (Ok v, h')
  | (Rejected c, h') => (Err (mkErr (onErr c)), h')
  end.

(** [Result.match(res, { onOk() { return null }, onErr(err) { return err } })]. *)
Definition toNullable (r : Result HostValue StoreErr * HostState)
  : option StoreErr * HostState :=
  match r with
  | (Ok _, h) => (None, h)
  | (Err e, h) => (Some e, h)
  end.

Definition enoent (found other : StoreErrCode) (c : string) : StoreErrCode :=
  if String.eqb c "ENOENT" then found else other.

Definition read (context : StoreContext) (path : string) (h : HostState) :=
  let jailedPath := resolve context path in
  tryCatch h (FS_readFile jailedPath) (enoent FILE_NOT_FOUND UNKNOWN).

Definition readdir (context : StoreContext) (path : string)
    (recursive : option bool) (h : HostState) :=
  let jailedPath := resolve context path in
  tryCatch h (FS_readdir jailedPath recursive) (enoent FILE_NOT_FOUND UNKNOWN).

(** [rm] and [rmdir] compute [jailedPath] and pass [path] to the host. *)
Definition rm (context : StoreContext) (path : string)
    (recursive : option bool) (h : HostState) :=
  let jailedPath := resolve context path in
  toNullable (tryCatch h (FS_rm path recursive) (fun _ => UNKNOWN)).

Definition rmdir (context : StoreContext) (path : string)
    (recursive : option bool) (h : HostState) :=
  let jailedPath := resolve context path in
  toNullable (tryCatch h (FS_rmdir path recursive) (fun _ => UNKNOWN)).

Definition mkdir (context : StoreContext) (path : string)
    (recursive : option bool) (h : HostState) :=
  let jailedPath := resolve context path in
  toNullable (tryCatch h (FS_mkdir jailedPath (default true recursive)) (fun _ => UNKNOWN)).

Definition writeFile (context : StoreContext) (path content : string) (h : HostState) :=
  let jailedPath := resolve context path in
  toNullable (tryCatch h (FS_writeFile jailedPath content) (fun _ => UNKNOWN)).

Definition stats (context : StoreContext) (path : string) (h : HostState) :=
  let jailedPath := resolve context path in
  tryCatch h (FS_stat jailedPath) (fun _ => UNKNOWN).

(** [now] is the clock [utimes] reads before the call. *)
Definition utimes (context : StoreContext) (path : string)
    (times : StoreNodeTime) (now : Z) (h : HostState) :=
  let jailedPath := resolve context path in
  toNullable (tryCatch h
    (FS_utimes jailedPath (default now (atime times)) (default now (mtime times)))
    (fun _ => PATH_NOT_FOUND)).

(** The methods of [makeFileStoreApi(readonly)]. *)
Definition api_write (readonly : bool) (context : StoreContext) (path content : string)
    (recurive : option bool) (h : HostState) : option StoreErr * HostState :=
  if readonly then (Some (mkErr READ_ONLY), h)
  else if default true recurive then
    match mkdir context (Path.dirname path) None h with
    | (Some err, h') => (Some err, h')
    | (None, h') => writeFile context path content h'
    end
  else writeFile context path content h.

Definition api_rm (readonly : bool) (context : StoreContext) (path : string)
    (recursive : option bool) (h : HostState) : option StoreErr * HostState :=
  if readonly then (Some (mkErr READ_ONLY), h) else rm context path recursive h.

Definition api_rmdir (readonly : bool) (context : StoreContext) (path : string)
    (recursive : option bool) (h : HostState) : option StoreErr * HostState :=
  if readonly then (Some (mkErr READ_ONLY), h) else rmdir context path recursive h.

Definition api_mkdir (readonly : bool) (context : StoreContext) (path : string)
    (recursive : option bool) (h : HostState) : option StoreErr * HostState :=
  if readonly then (Some (mkErr READ_ONLY), h) else mkdir context path recursive h.

Definition api_utimes (readonly : bool) (context : StoreContext) (path : string)
    (times : StoreNodeTime) (now : Z) (h : HostState) : option StoreErr * HostState :=
  if readonly then (Some (mkErr READ_ONLY), h) else utimes context path times now h.

(** The listing of [api.readdir]: sorted, then made absolute unless
    [options.relative]. (A value that is no list of names is left as it
    is.) *)
Definition api_readdir (context : StoreContext) (path : string)
    (relative : bool) (recursive : option bool) (h : HostState)
  : Result HostValue StoreErr * HostState :=
  match readdir context path recursive h with
  | (Ok (HNames children), h') =>
      let sorted := sortChildren children in
      if relative then (Ok (HNames sorted), h')
      else
        let jailedPath := resolve context (Path.dirname path) in
        (Ok (HNames (map (fun child => Path.resolve jailedPath child) sorted)), h')
  | r => r
  end.

End Host.

(** The host, instrumented: it also records the calls it receives, in
    order. *)
Definition logging {HostState : Type}
    (host : HostState -> HostCall -> HostResult * HostState)
  : HostState * list HostCall -> HostCall -> HostResult * (HostState * list HostCall) :=
  fun '(h, log) call =>
    match host h call with
    | (r, h') => (r, (h', log ++ [call]))
    end.

(** The calls an operation made to an instrumented host that had received
    none. *)
Definition callsOf {HostState A : Type}
    (run : HostState * list HostCall -> A * (HostState * list HostCall))
    (h : HostState) : list HostCall :=
  (run (h, [])).2.2.

Arguments resolve home context path : assert.
Arguments read home {HostState} host context path h : assert.
Arguments readdir home {HostState} host context path recursive h : assert.
Arguments rm home {HostState} host context path recursive h : assert.
Arguments rmdir home {HostState} host context path recursive h : assert.
Arguments mkdir home {HostState} host context path recursive h : assert.
Arguments writeFile home {HostState} host context path content h : assert.
Arguments stats home {HostState} host context path h : assert.
Arguments utimes home {HostState} host context path times now h : assert.
Arguments api_write home {HostState} host readonly context path content recurive h : assert.
Arguments api_rm home {HostState} host readonly context path recursive h : assert.
Arguments api_rmdir home {HostState} host readonly context path recursive h : assert.
Arguments api_mkdir home {HostState} host readonly context path recursive h : assert.
Arguments api_utimes home {HostState} host readonly context path times now h : assert.
Arguments api_readdir home {HostState} host context path relative recursive h : assert.

End FileStore.

(** ** The [Store] facade and [memoryStore] *)

Module StoreFacade.

(** [store.child(path)]: the context of the child store; the API is the
    same. *)
Definition child (context : StoreContext) (path : string) : StoreContext :=
  {| uri := uri context;
     jail := jail context;
     pwd := Path.resolveWithinJail (jail context) (pwd context) path |}.

(** [store.basename()]. *)
Definition basename (context : StoreContext) : string :=
  if String.eqb (pwd context) "/" then "/"
  else Path.relative (Path.dirname (pwd context)) (pwd context).

Record MemoryStoreOptions := {
  mem_pwd : option string;
  mem_uri : option string;
  mem_content : option Text;
}.

(** [memoryStore(options)]: the context of the store and the engine it
    closes over; [now] is the clock [MemoryFs.empty] reads. A [content]
    that is the empty string is falsy. *)
Definition memoryStore (dateParse : string -> Z) (options : MemoryStoreOptions) (now : Z)
  : Res (StoreContext * Fs) :=
  let jail := "/" in
  let pwd := Path.resolveWithinJail jail jail (default "/" (mem_pwd options)) in
  let uri := default ("memory://" +:+ pwd) (mem_uri options) in
  let memory : Res Fs :=
    match mem_content options with
    | Some (Malformed "") | None => Val (MemoryFs.empty pwd now)
    | Some text =>
        match parse dateParse text with
        | Val (Ok fs) => Val fs
        | Val (Err _) => Val (MemoryFs.empty pwd now)
        | Throw e => Throw e
        end
    end in
  match memory with
  | Val fs => Val (mkContext uri jail pwd, fs)
  | Throw e => Throw e
  end.

End StoreFacade.
(** ** Vocabulary of the statements about paths *)

Module PathSpec.
Import Path.

(** A component of a path: a non-empty string without a slash. *)
Fixpoint slashFree (s : string) : bool :=
  match s with
  | EmptyString => true
  | String c r => negb (is_slash c) && slashFree r
  end.

Definition isPart (p : string) : bool := nonEmpty p && slashFree p.

(** The absolute path with the given components; ["/"] when there is none. *)
Definition absPath (parts : list string) : string := String "/" (joinParts parts).

(** [k] segments [".."], joined by slashes. *)
Definition dots (k : nat) : string := joinParts (replicate k "..").

(** The components of a jail, as a boolean check. *)
Definition validParts (js : list string) : bool := forallb isPart js.

(** [collapseSlashes] on a slash followed by slash-free segments: the empty
    segments go, and a slash stays at the end when the last segment is empty
    and another one is not. *)
Definition trailing (segs : list string) : string :=
  match filter (fun p => nonEmpty p = true) segs, last segs with
  | _ :: _, Some "" => "/"
  | _, _ => ""
  end.

(** A name: a component that [join] keeps, so not ["."]. *)
Definition isName (p : string) : bool := isPart p && negb (String.eqb p ".").

(** No segment of the path is ["."]. *)
Definition noDot (path : string) : bool :=
  forallb (fun p => negb (String.eqb p ".")) (split path).

(** The paths from [absPath (pre ++ [q])] down to [absPath (pre ++ ps)]. *)
Fixpoint chain (pre ps : list string) : list string :=
  match ps with
  | [] => []
  | q :: rest => absPath (pre ++ [q]) :: chain (pre ++ [q]) rest
  end.
End PathSpec.

(** ** Vocabulary of the statements about the engine *)

(** The [Fs] an operation leaves, and what it returns or throws. *)
Definition exec {A} (m : M A) (fs : Fs) : Fs := (m fs).2.
Definition outcome {A} (m : M A) (fs : Fs) : Res A := (m fs).1.

(** The context of [memoryStore()]: the jail and the working directory are
    the root. *)
Definition rootContext : StoreContext :=
  {| uri := "memory:///"; jail := "/"; pwd := "/" |}.

Definition noWriteOptions : MemoryFs.WriteOptions :=
  {| MemoryFs.wr_recursive := None; MemoryFs.wr_timestamp := None |}.

Definition noMkdirOptions : MemoryFs.MkdirOptions :=
  {| MemoryFs.mk_recursive := None; MemoryFs.mk_timestamp := None |}.

Definition nonRecursive : MemoryFs.RmOptions :=
  {| MemoryFs.rm_recursive := Some false; MemoryFs.rm_timestamp := None;
     MemoryFs.rm_rebuildIndex := None |}.

Definition recursiveRm : MemoryFs.RmOptions :=
  {| MemoryFs.rm_recursive := Some true; MemoryFs.rm_timestamp := None;
     MemoryFs.rm_rebuildIndex := None |}.

Definition noRebuild : MemoryFs.RmOptions :=
  {| MemoryFs.rm_recursive := None; MemoryFs.rm_timestamp := None;
     MemoryFs.rm_rebuildIndex := Some false |}.

(** A computation that returns no value satisfying [bad]. *)
Definition never {A} (bad : A -> Prop) (m : M A) : Prop :=
  forall fs a fs', m fs = (Val a, fs') -> ~ bad a.

(** A computation that, from [fs], leaves [fs] as it was whenever it returns
    a value satisfying [bad]. *)
Definition keeps {A} (bad : A -> Prop) (m : M A) (fs : Fs) : Prop :=
  forall a fs', m fs = (Val a, fs') -> bad a -> fs' = fs.

(** The returned value is a [StoreErr]. *)
Definition isSomeErr (r : option StoreErr) : Prop := is_Some r.
Definition isErr {T} (r : Result T StoreErr) : Prop := isOk r = false.

Module EngineSpec.
Import MemoryFs Path.

(** Whether [getNode] found a node (neither [null] nor [undefined]). *)
Definition isNode (r : Ref) : bool :=
  match r with RNode _ _ => true | _ => false end.

(** The state after the two assignments that open [addNode]. *)
Definition appended (fs : Fs) (node : FsNode) : Fs :=
  {| nodes := nodes fs ++ [Some node];
     index := <[nodePath node := length (nodes fs)]> (index fs) |}.

(** The state after an assignment to a field of the node in slot [i]. *)
Definition updated (fs : Fs) (i : nat) (f : FsNode -> FsNode) : Fs :=
  {| nodes := alter (fmap f) i (nodes fs); index := index fs |}.

(** The nodes of the array, without the holes. *)
Definition live (fs : Fs) : list FsNode := omap id (nodes fs).

(** Every slot holds a node, and the index has it at that slot. *)
Definition slotsIndexed (fs : Fs) : bool :=
  forallb (fun '(i, slot) =>
             match slot with
             | Some n => bool_decide (index fs !! nodePath n = Some i)
             | None => false
             end)
          (imap pair (nodes fs)).

(** Every entry of the index points at a node of that path. *)
Definition indexSound (fs : Fs) : bool :=
  forallb (fun '(p, i) =>
             match nodes fs !! i with
             | Some (Some n) => String.eqb (nodePath n) p
             | _ => false
             end)
          (map_to_list (index fs)).

(** The index is the table of the nodes, and the array has no hole. *)
Definition consistent (fs : Fs) : bool := slotsIndexed fs && indexSound fs.

(** The root is a directory. *)
Definition rooted (fs : Fs) : bool := isDirRef (getNode fs "/").

(** The parent of every node is there. *)
Definition parentClosed (fs : Fs) : bool :=
  forallb (fun slot =>
             match slot with
             | Some n => isNode (getNode fs (dirname (nodePath n)))
             | None => true
             end)
          (nodes fs).

Definition wellFormed (fs : Fs) : bool :=
  consistent fs && rooted fs && parentClosed fs.

(** [consistent], as a proposition. *)
Record Consistent (fs : Fs) : Prop := {
  slot_indexed : forall i slot, nodes fs !! i = Some slot ->
                   exists n, slot = Some n /\ index fs !! nodePath n = Some i;
  index_sound : forall p i, index fs !! p = Some i ->
                   exists n, nodes fs !! i = Some (Some n) /\ nodePath n = p;
}.

(** [wellFormed], as a proposition. *)
Record WellFormed (fs : Fs) : Prop := {
  wf_consistent : Consistent fs;
  wf_rooted : isDirRef (getNode fs "/") = true;
  wf_parents : forall i n, nodes fs !! i = Some (Some n) ->
                 isNode (getNode fs (dirname (nodePath n))) = true;
}.

Definition isFileRef (r : Ref) : bool :=
  match r with RNode _ (FileNode _ _ _) => true | _ => false end.

(** The state [rebuildIndex] leaves when the array has no hole. *)
Definition rebuilt (fs : Fs) : Fs :=
  {| nodes := Some <$> sortNodes (live fs); index := indexOf (sortNodes (live fs)) |}.

End EngineSpec.

(** Whether [stats] succeeds on a path, from the root context. *)
Definition exists_at (fs : Fs) (path : string) : bool :=
  match outcome (MemoryFs.stats rootContext path 0) fs with
  | Val (Ok _) => true
  | _ => false
  end.

(** The timestamps [stats] reports on a path, from the root context. *)
Definition times_at (fs : Fs) (path : string) : option (Z * Z * Z) :=
  match outcome (MemoryFs.stats rootContext path 0) fs with
  | Val (Ok s) => Some (st_mtime s, st_atime s, st_ctime s)
  | _ => None
  end.

Module Scenario.
Import MemoryFs.

(** An engine created at time 0. *)
Definition fresh : Fs := empty "/" 0.

(** The file ["/f"] written at time 1. *)
Definition oneFile : Fs := exec (write rootContext "/f" "x" noWriteOptions 1) fresh.

(** The children ["10"], ["2"], ["1"] of the root, written in that order;
    and ["b"], ["a"], ["c"]. *)
Definition numbered : Fs :=
  exec (write rootContext "/1" "" noWriteOptions 3)
    (exec (write rootContext "/2" "" noWriteOptions 2)
      (exec (write rootContext "/10" "" noWriteOptions 1) fresh)).

Definition lettered : Fs :=
  exec (write rootContext "/c" "" noWriteOptions 3)
    (exec (write rootContext "/a" "" noWriteOptions 2)
      (exec (write rootContext "/b" "" noWriteOptions 1) fresh)).

(** The directory ["/d"] with the file ["/d/f"], written at time 1. *)
Definition oneDir : Fs := exec (write rootContext "/d/f" "x" noWriteOptions 1) fresh.

(** ["/f"] removed from [oneFile] by [rm(context, "/f", { rebuildIndex: false })]. *)
Definition removed : Fs := exec (rm 1 rootContext "/f" noRebuild 2 3) oneFile.

(** The directories ["/a"], ["/a/b"], ["/a/b/c"], made at time 1. *)
Definition nested : Fs := exec (mkdir rootContext "/a/b/c" noMkdirOptions 1) fresh.


End Scenario.

(** ** Vocabulary of the laws of the path algebra and of the engine *)

Module PathVocab.
Import Path PathSpec.

(** A component that [resolve] pushes: a name other than [".."]. *)
Definition isPlain (p : string) : bool := isName p && negb (String.eqb p "..").

(** Whether the character occurs in the string. *)
Fixpoint hasChar (c : ascii) (s : string) : bool :=
  match s with
  | EmptyString => false
  | String d r => Ascii.eqb d c || hasChar c r
  end.

End PathVocab.

Module EngineTerms.
Import MemoryFs EngineSpec.

(** The state after [delete this.fs.nodes[i]]. *)
Definition deleted (fs : Fs) (i : nat) : Fs :=
  {| nodes := <[i := None]> (nodes fs); index := index fs |}.

(** The state [rebuildIndex] leaves, holes included. *)
Definition reindexed (fs : Fs) : Fs :=
  {| nodes := (Some <$> sortNodes (live fs))
              ++ replicate (length (nodes fs) - length (live fs)) None;
     index := indexOf (sortNodes (live fs)) |}.

(** The children of a directory; a file has none. *)
Definition nodeChildren (n : FsNode) : list string :=
  match n with DirNode _ ch _ => ch | FileNode _ _ _ => [] end.

(** What [addNode] does to the parent of the node it adds. *)
Definition adopt (child : string) (ts : Z) (parent : FsNode) : FsNode :=
  match parent with
  | DirNode p children st => DirNode p (sortStrings (children ++ [child])) (setMtime ts st)
  | FileNode _ _ _ => parent
  end.

(** A property of the tree that a computation keeps, whether it returns or
    throws. *)
Definition preserved {A} (I : Fs -> Prop) (m : M A) : Prop :=
  forall fs, I fs -> I (exec m fs).

(** What [write] assigns to the file it overwrites. *)
Definition overwrite (content : string) (ts : Z) (node : FsNode) : FsNode :=
  match node with
  | FileNode p _ st => FileNode p content (setMtime ts st)
  | DirNode _ _ _ => node
  end.

(** A property of the tree that the assignments of the engine keep: an
    update of the stats of a node, the overwriting of a file, the two
    assignments that open [addNode], the adoption of the new node by its
    parent, and the index rebuild. [okPath] is what is known of the path of
    an added node, which names no node unless it is [okTarget]; [okTarget]
    is what is known of the path [write] is given. *)
Record Closed (okPath okTarget : string -> Prop) (I : Fs -> Prop) : Prop := {
  closed_paths : forall q p, p ∈ getPaths q -> okPath p;
  closed_stats : forall fs i g, I fs -> I (updated fs i (withStats g));
  closed_content : forall fs q i p c st content ts,
    getNode fs q = RNode i (FileNode p c st) -> okTarget q ->
    I fs -> I (updated fs i (overwrite content ts));
  closed_append : forall fs node,
    okPath (nodePath node) -> nodeChildren node = [] ->
    isNode (getNode fs (nodePath node)) = false \/ okTarget (nodePath node) ->
    I fs -> I (appended fs node);
  closed_adopt : forall fs node j ts,
    okPath (nodePath node) -> nodeChildren node = [] ->
    isNode (getNode fs (nodePath node)) = false \/ okTarget (nodePath node) ->
    I fs -> I (updated (appended fs node) j (adopt (nodePath node) ts));
  closed_reindex : forall fs, I fs -> I (reindexed fs);
}.

(** The paths a context resolves to are [okPath]. *)
Definition okContext (okPath : string -> Prop) (context : StoreContext) : Prop :=
  forall path, okPath (Path.resolveWithinJail (jail context) (pwd context) path).

(** [a] is not after [b] in the order of [<] on strings. *)
Definition strLe (a b : string) : Prop := String.ltb b a = false.

(** The children of every directory are in ascending order. *)
Definition childrenSorted (fs : Fs) : Prop :=
  forall i p ch st, nodes fs !! i = Some (Some (DirNode p ch st)) -> StronglySorted strLe ch.

(** A call of a method of the engine, with the readings of the clock. *)
Inductive Call :=
  | CallRead (context : StoreContext) (path : string) (now1 now2 : Z)
  | CallWrite (context : StoreContext) (path content : string) (options : WriteOptions) (now : Z)
  | CallMkdir (context : StoreContext) (path : string) (options : MkdirOptions) (now : Z)
  | CallRm (fuel : nat) (context : StoreContext) (path : string) (options : RmOptions)
      (now1 now2 : Z)
  | CallRmdir (fuel : nat) (context : StoreContext) (path : string) (options : RmOptions)
      (now1 now2 : Z)
  | CallUtimes (context : StoreContext) (path : string) (times : StoreNodeTime)
  | CallStats (context : StoreContext) (path : string) (now : Z)
  | CallReaddir (context : StoreContext) (path : string).

(** The tree a call leaves, whether it returns or throws. *)
Definition call (c : Call) (fs : Fs) : Fs :=
  match c with
  | CallRead context path now1 now2 => exec (read context path now1 now2) fs
  | CallWrite context path content options now =>
      exec (write context path content options now) fs
  | CallMkdir context path options now => exec (mkdir context path options now) fs
  | CallRm fuel context path options now1 now2 =>
      exec (rm fuel context path options now1 now2) fs
  | CallRmdir fuel context path options now1 now2 =>
      exec (rmdir fuel context path options now1 now2) fs
  | CallUtimes context path times => exec (utimes context path times) fs
  | CallStats context path now => exec (stats context path now) fs
  | CallReaddir context path => exec (readdir context path) fs
  end.

(** The tree a sequence of calls leaves. *)
Definition after (calls : list Call) (fs : Fs) : Fs :=
  foldl (fun fs c => call c fs) fs calls.

Definition callContext (c : Call) : StoreContext :=
  match c with
  | CallRead context _ _ _ | CallWrite context _ _ _ _ | CallMkdir context _ _ _
  | CallRm _ context _ _ _ _ | CallRmdir _ context _ _ _ _ | CallUtimes context _ _
  | CallStats context _ _ | CallReaddir context _ => context
  end.

(** A call that removes nothing. *)
Definition keepsNodes (c : Call) : bool :=
  match c with CallRm _ _ _ _ _ _ | CallRmdir _ _ _ _ _ _ => false | _ => true end.

(** A path that [getNode] looks up as it is. *)
Definition normal (p : string) : Prop := Path.resolve "/" p = p.

(** Every entry of the index points at a node of that path. *)
Definition indexed (fs : Fs) : Prop :=
  forall p i, index fs !! p = Some i ->
    exists n, nodes fs !! i = Some (Some n) /\ nodePath n = p.

(** Every path listed among the children of a directory is looked up as it
    is, and names a node. *)
Definition listed (fs : Fs) : Prop :=
  forall i p ch st x, nodes fs !! i = Some (Some (DirNode p ch st)) -> x ∈ ch ->
    normal x /\ isNode (getNode fs x) = true.

(** A call that removes nothing, in a context whose jail is absolute. *)
Definition gentle (c : Call) : Prop :=
  keepsNodes c = true /\ Path.isAbsolute (jail (callContext c)) = true.

(** The index and the number of slots of [fs0]. *)
Definition sameSlots (fs0 fs : Fs) : Prop :=
  index fs = index fs0 /\ length (nodes fs) = length (nodes fs0).

(** The content of the file a path names. *)
Definition contentAt (fs : Fs) (k : string) : option string :=
  match getNode fs k with
  | RNode _ (FileNode _ c _) => Some c
  | _ => None
  end.

(** The node array has no hole. *)
Definition noHoles (fs : Fs) : bool :=
  forallb (fun slot => match slot with Some _ => true | None => false end) (nodes fs).

(** The timestamps a node carries, and all those of a tree. *)
Definition statsTimes (s : StoreNodeTime) : list Z :=
  omap id [mtime s; atime s; ctime s; btime s].

Definition timesOf (fs : Fs) : list Z :=
  flat_map (fun slot => match slot with
                        | Some n => statsTimes (nodeStats n)
                        | None => []
                        end) (nodes fs).

(** The runtime reads the date back from the text it wrote for it, which is
    not empty. *)
Definition readsBack (toISOString : Z -> string) (dateParse : string -> Z) (t : Z) : bool :=
  Path.nonEmpty (toISOString t) && (dateParse (toISOString t) =? t)%Z.

End EngineTerms.

Module WebSpec.
Import MemoryFs EngineSpec EngineTerms.


End WebSpec.

(** ** Sample runtimes and stores *)

Module Samples.
Import MemoryFs.

(** A sample runtime: [Date.prototype.toISOString] writes the epoch and
    [new Date(text)] reads it, as the runtime does for the one date of the
    tree [Scenario.fresh]. *)
Definition epochText (t : Z) : string := "1970-01-01T00:00:00.000Z".
Definition epochTime (text : string) : Z := 0.



End Samples.

Module FileStoreSpec.
Import FileStore.

(** The numbers [parseInt] returns exactly: those below [2^53]. *)
Definition exact (name : string) : bool := (parseInt name <? 2 ^ 53)%N.

(** A host whose every directory lists ["10"], ["9"] and ["b"], and the
    context of a store jailed in ["/jail"]. *)
Definition listingHost (h : unit) (c : HostCall) : HostResult * unit :=
  match c with
  | FS_readdir _ _ => (Resolved (HNames ["10"; "9"; "b"]), h)
  | _ => (Resolved HUnit, h)
  end.

Definition jailed : StoreContext :=
  {| uri := "file:///jail"; jail := "/jail"; pwd := "/jail" |}.

End FileStoreSpec.
(** * Properties

    ** The path algebra *)

(** The assertions of [src/utils/path_test.ts], replayed on the embedding. *)
Module PathTests.
Import Path.

Example join_cases :
  join ["/"; "/"] = "/" /\
  join ["/a/b"; "c"; "d"] = "/a/b/c/d" /\
  join ["/a/b"; "c/////d"] = "/a/b/c/d" /\
  join ["/a/b"; ".."; "c"; "d"] = "/a/b/../c/d" /\
  join ["some"; "path"] = "some/path" /\
  join ["../"; "a/b/c"] = "../a/b/c".
Proof. repeat split; reflexivity. Qed.

Example resolve_cases :
  resolve "/jail" "/a/b/c" = "/a/b/c" /\
  resolve "/jail" "./a/b/c" = "/jail/a/b/c" /\
  resolve "/jail" "" = "/jail" /\
  resolve "/jail" "a/b/../c" = "/jail/a/c" /\
  resolve "/jail" "../../../../../abc" = "/abc" /\
  resolve "a" "b" = "/a/b" /\
  resolve "../ok" "../../example" = "/example".
Proof. repeat split; reflexivity. Qed.

Example relative_cases :
  relative "/home/user/.config/knut" "/home/user/kegs/sample1" = "../../kegs/sample1" /\
  relative "/" "/home/user/kegs" = "home/user/kegs" /\
  relative "/home/user" "/home/user/kegs" = "kegs" /\
  relative "/some/jail" "/some" = ".." /\
  relative "/some/jail" "/" = "../..".
Proof. repeat split; reflexivity. Qed.

Example resolveWithinJail_cases :
  let root := "/path/to/jail" in
  resolveWithinJail root root "/" = root /\
  resolveWithinJail root root "." = root /\
  resolveWithinJail root "/a" "/" = root /\
  resolveWithinJail root "a" "." = "/path/to/jail/a" /\
  resolveWithinJail root root "/a/b/c" = "/path/to/jail/a/b/c" /\
  resolveWithinJail root "/path/to/jail/w/x/y/z" "a/b/c" = "/path/to/jail/w/x/y/z/a/b/c" /\
  resolveWithinJail root root "../../../../a/b/c" = "/path/to/jail/a/b/c" /\
  resolveWithinJail root "/path/to/jail/w/x/y/z" "../../../a/b/c" = "/path/to/jail/w/a/b/c" /\
  resolveWithinJail "/" "/" "/" = "/".
Proof. repeat split; reflexivity. Qed.

Example dirname_cases :
  dirname "/some/path/to/file" = "/some/path/to" /\
  dirname "/rawr" = "/" /\
  dirname "rawr" = "." /\
  dirname "/" = "/" /\
  dirname "" = ".".
Proof. repeat split; reflexivity. Qed.

End PathTests.


Module PathFacts.
Import Path PathSpec.
#[local] Arguments String.append !s1 s2 : simpl nomatch.

Lemma sapp_nil_r s : s +:+ "" = s.
Proof. induction s; simpl; congruence. Qed.

Lemma sapp_assoc (a b c : string) : (a +:+ b) +:+ c = a +:+ (b +:+ c).
Proof. induction a; simpl; congruence. Qed.

Lemma joinParts_cons p q rest :
  joinParts (p :: q :: rest) = p +:+ String "/" (joinParts (q :: rest)).
Proof. reflexivity. Qed.

Lemma prefix_app a b : String.prefix a (a +:+ b) = true.
Proof.
  induction a as [|c a IH]; simpl.
  - by destruct b.
  - destruct (ascii_dec c c); [done | congruence].
Qed.

Lemma prefix_split a s : String.prefix a s = true -> exists t, s = a +:+ t.
Proof.
  revert s. induction a as [|c a IH]; intros s H.
  - by exists s.
  - destruct s as [|d s]; simpl in H; [done|].
    destruct (ascii_dec c d) as [->|]; [|done].
    destruct (IH _ H) as [t ->]. by exists t.
Qed.


Lemma slashFree_cons c p :
  slashFree (String c p) = true -> is_slash c = false /\ slashFree p = true.
Proof.
  simpl. intros [Hc Hp]%andb_prop. by rewrite (negb_true_iff _) in Hc.
Qed.

Lemma nonEmpty_ne p : nonEmpty p = true -> p <> "".
Proof. by intros H ->. Qed.

Lemma split_part p : slashFree p = true -> split p = [p].
Proof.
  induction p as [|c p IH]; [done|].
  intros [Hc Hp]%slashFree_cons. simpl. rewrite Hc. by rewrite IH.
Qed.

Lemma split_part_app p s :
  slashFree p = true -> split (p +:+ String "/" s) = p :: split s.
Proof.
  induction p as [|c p IH]; [done|].
  intros [Hc Hp]%slashFree_cons. simpl. rewrite Hc. by rewrite IH.
Qed.

Lemma split_joinParts parts :
  Forall (fun p => slashFree p = true) parts -> parts <> [] ->
  split (joinParts parts) = parts.
Proof.
  induction 1 as [|p rest Hp Hrest IH]; [done|]. intros _.
  destruct rest as [|q rest].
  - by apply split_part.
  - rewrite joinParts_cons, split_part_app by done. f_equal. by apply IH.
Qed.

Lemma collapse_part_app p s :
  slashFree p = true -> collapseSlashes (p +:+ s) = p +:+ collapseSlashes s.
Proof.
  induction p as [|c p IH]; [done|].
  intros [Hc Hp]%slashFree_cons. simpl. rewrite Hc. by rewrite IH.
Qed.

Lemma collapse_slash_part p s :
  isPart p = true ->
  collapseSlashes (String "/" (p +:+ s)) = String "/" (p +:+ collapseSlashes s).
Proof.
  intros [Hne Hp]%andb_prop.
  destruct p as [|c p]; [done|].
  destruct (slashFree_cons _ _ Hp) as [Hc _].
  rewrite <- (collapse_part_app (String c p)) by done.
  simpl. by rewrite Hc.
Qed.

Lemma collapse_slash_head s : exists t, collapseSlashes (String "/" s) = String "/" t.
Proof.
  induction s as [|c s IH].
  - by exists "".
  - simpl. destruct (is_slash c) eqn:Hc.
    + apply Ascii.eqb_eq in Hc as ->. exact IH.
    + eexists. reflexivity.
Qed.

Lemma collapse_joinParts_app parts s :
  Forall (fun p => isPart p = true) parts -> parts <> [] ->
  collapseSlashes (String "/" (joinParts parts +:+ s))
  = String "/" (joinParts parts +:+ collapseSlashes s).
Proof.
  induction 1 as [|p rest Hp Hrest IH]; [done|]. intros _.
  destruct rest as [|q rest].
  - cbn [joinParts]. by apply collapse_slash_part.
  - rewrite joinParts_cons, !sapp_assoc.
    rewrite collapse_slash_part by done.
    change (String "/" (joinParts (q :: rest)) +:+ s)
      with (String "/" (joinParts (q :: rest) +:+ s)).
    rewrite IH by done. done.
Qed.

Lemma collapse_absPath parts :
  Forall (fun p => isPart p = true) parts ->
  collapseSlashes (absPath parts) = absPath parts.
Proof.
  intros H. destruct parts as [|p rest]; [done|].
  unfold absPath. rewrite <- (sapp_nil_r (joinParts (p :: rest))) at 1.
  rewrite collapse_joinParts_app by done. simpl collapseSlashes. by rewrite sapp_nil_r.
Qed.

Lemma strip_app a b : b <> "" -> stripTrailingSlash (a +:+ b) = a +:+ stripTrailingSlash b.
Proof.
  intros Hb. induction a as [|c a IH]; [done|].
  simpl. rewrite IH.
  destruct (a +:+ b) eqn:E; [|done].
  destruct a; simpl in E; [congruence | done].
Qed.

Lemma strip_part p : slashFree p = true -> stripTrailingSlash p = p.
Proof.
  induction p as [|c p IH]; [done|].
  intros [Hc Hp]%slashFree_cons.
  simpl. rewrite IH by done. rewrite Hc. by destruct p.
Qed.

Lemma strip_joinParts parts :
  Forall (fun p => isPart p = true) parts -> parts <> [] ->
  stripTrailingSlash (String "/" (joinParts parts)) = String "/" (joinParts parts).
Proof.
  intros H Hne.
  assert (G : stripTrailingSlash (joinParts parts) = joinParts parts /\ joinParts parts <> "").
  { induction H as [|p rest Hp Hrest IH]; [done|]. clear Hne.
    apply andb_prop in Hp as [Hnon Hp].
    destruct rest as [|q rest].
    - cbn [joinParts]. split; [by apply strip_part | by apply nonEmpty_ne].
    - rewrite joinParts_cons. destruct IH as [IH1 IH2]; [done|]. split.
      + rewrite strip_app by done. f_equal.
        change (String "/" (joinParts (q :: rest))) with ("/" +:+ joinParts (q :: rest)).
        rewrite strip_app by done. by rewrite IH1.
      + apply nonEmpty_ne in Hnon. by destruct p. }
  destruct G as [G1 G2].
  change (String "/" (joinParts parts)) with ("/" +:+ joinParts parts).
  rewrite strip_app by done. by rewrite G1.
Qed.

Lemma cleanPath_absPath parts :
  Forall (fun p => isPart p = true) parts -> cleanPath (absPath parts) = absPath parts.
Proof.
  intros H. unfold cleanPath. rewrite collapse_absPath by done.
  destruct parts as [|p rest]; [done|].
  unfold absPath. rewrite strip_joinParts by done. done.
Qed.

Lemma finish_absPath parts :
  Forall (fun p => isPart p = true) parts ->
  (if String.eqb (absPath parts) "/" then absPath parts
   else stripTrailingSlash (absPath parts)) = absPath parts.
Proof.
  intros H. destruct (String.eqb (absPath parts) "/") eqn:E; [done|].
  destruct parts as [|p rest]; [done|].
  by apply strip_joinParts.
Qed.

Lemma joinParts_app l1 l2 :
  l1 <> [] -> l2 <> [] ->
  joinParts (l1 ++ l2)%list = joinParts l1 +:+ String "/" (joinParts l2).
Proof.
  intros H1 H2. induction l1 as [|p [|q l1] IH]; [done| |].
  - destruct l2; [done|]. reflexivity.
  - change ((p :: q :: l1) ++ l2)%list with (p :: q :: (l1 ++ l2))%list.
    rewrite !joinParts_cons, sapp_assoc. f_equal.
    change (String "/" (joinParts (q :: l1)) +:+ String "/" (joinParts l2))
      with (String "/" (joinParts (q :: l1) +:+ String "/" (joinParts l2))).
    f_equal. by apply IH.
Qed.

Lemma joinParts_nonempty p rest :
  nonEmpty p = true -> joinParts (p :: rest) <> "".
Proof.
  intros H%nonEmpty_ne. destruct rest; [done|].
  rewrite joinParts_cons. by destruct p.
Qed.

(** A path is a string prefix of every path below it ... *)
Lemma startsWith_absPath_app js xs :
  startsWith (absPath (js ++ xs)%list) (absPath js) = true.
Proof.
  unfold startsWith, absPath.
  destruct js as [|j js].
  - simpl. by destruct (joinParts xs).
  - destruct xs as [|x xs].
    + rewrite List.app_nil_r. rewrite <- (sapp_nil_r (String "/" (joinParts (j :: js)))) at 2.
      apply prefix_app.
    + rewrite joinParts_app by done.
      change (String "/" (joinParts (j :: js) +:+ String "/" (joinParts (x :: xs))))
        with (String "/" (joinParts (j :: js)) +:+ String "/" (joinParts (x :: xs))).
      apply prefix_app.
Qed.


Lemma split_slashFree s : Forall (fun p => slashFree p = true) (split s).
Proof.
  induction s as [|c s IH]; simpl; [by repeat constructor|].
  destruct (is_slash c) eqn:Hc; [by constructor|].
  destruct (split s) as [|h t]; simpl.
  - repeat constructor. simpl. by rewrite Hc.
  - apply Forall_cons in IH as [Hh Ht]. constructor; [|done].
    simpl. by rewrite Hc.
Qed.

Lemma baseParts_isPart s :
  Forall (fun p => isPart p = true) (filter (fun p => nonEmpty p = true) (split s)).
Proof.
  apply Forall_forall. intros p [Hne Hin]%list_elem_of_filter.
  unfold isPart. rewrite Hne. simpl.
  pose proof (split_slashFree s) as H. rewrite Forall_forall in H. by apply H.
Qed.

Lemma isAbsolute_inv p : isAbsolute p = true -> exists r, p = String "/" r.
Proof.
  unfold isAbsolute, startsWith. destruct p as [|c p]; [done|].
  change (String.prefix "/" (String c p))
    with (if ascii_dec "/" c then String.prefix "" p else false).
  destruct (ascii_dec "/" c) as [<-|]; [|done]. intros _. by eexists.
Qed.

Lemma cleanPath_slash_absolute s : isAbsolute (cleanPath (String "/" s)) = true.
Proof.
  unfold cleanPath. destruct (collapse_slash_head s) as [t ->].
  destruct t as [|c t]; [reflexivity|].
  change (String "/" (String c t)) with ("/" +:+ String c t).
  rewrite strip_app by done. by destruct (stripTrailingSlash (String c t)).
Qed.

Lemma resolve_absolute base p : isAbsolute (resolve base p) = true.
Proof.
  unfold resolve. destruct (isAbsolute p) eqn:E.
  - apply isAbsolute_inv in E as [r ->]. apply cleanPath_slash_absolute.
  - apply cleanPath_slash_absolute.
Qed.

Lemma pop_take {A} (l : list A) : pop l = take (length l - 1) l.
Proof. unfold pop. rewrite removelast_firstn_len. f_equal. lia. Qed.

Lemma resolveStep_dots st k :
  foldl resolveStep st (replicate k "..") = take (length st - k) st.
Proof.
  revert st. induction k as [|k IH]; intros st.
  - simpl. rewrite Nat.sub_0_r. by rewrite firstn_all.
  - simpl. rewrite IH. unfold resolveStep. simpl.
    destruct st as [|x st']; [done|].
    change (0 <? length (x :: st'))%nat with true. cbn match.
    rewrite pop_take, length_take, take_take. f_equal. simpl. lia.
Qed.




(** The jail is prepended to a path that does not start with it. *)
Lemma prepend_jail j js R :
  Forall (fun p => isPart p = true) (j :: js) ->
  collapseSlashes (absPath (j :: js) +:+ "/" +:+ R)
  = absPath (j :: js) +:+ collapseSlashes (String "/" R).
Proof.
  intros H. unfold absPath.
  change (String "/" (joinParts (j :: js)) +:+ "/" +:+ R)
    with (String "/" (joinParts (j :: js) +:+ String "/" R)).
  by rewrite collapse_joinParts_app.
Qed.

Lemma absPath_app_not_root j js t :
  nonEmpty j = true -> String.eqb (absPath (j :: js) +:+ t) "/" = false.
Proof.
  intros H. pose proof (joinParts_nonempty j js H) as Hne. unfold absPath.
  destruct (joinParts (j :: js)); [done|]. reflexivity.
Qed.

Lemma validParts_Forall js :
  validParts js = true -> Forall (fun p => isPart p = true) js.
Proof.
  unfold validParts. intros H. apply Forall_forall. intros p Hp.
  rewrite forallb_forall in H. apply H. by apply list_elem_of_In.
Qed.

Lemma withinJail_absolute J R :
  isAbsolute R = true -> withinJail J R = startsWith R J.
Proof. unfold withinJail, isRelative. by intros ->. Qed.

Lemma absPath_absolute parts : isAbsolute (absPath parts) = true.
Proof. unfold isAbsolute, startsWith, absPath. by destruct (joinParts parts). Qed.

(** Whatever [resolve] returned, the last step of [resolveWithinJail] returns
    a string that starts with the jail. *)
Lemma jailed_startsWith js R :
  Forall (fun p => isPart p = true) js -> isAbsolute R = true ->
  let J := absPath js in
  let finalPath :=
    if negb (withinJail J R) then collapseSlashes (J +:+ "/" +:+ R) else R in
  startsWith (if String.eqb finalPath "/" then finalPath else stripTrailingSlash finalPath) J = true.
Proof.
  intros Hjs HR J finalPath.
  assert (Hfin : startsWith finalPath J = true /\
                 (finalPath = J \/ exists t, t <> "" /\ finalPath = J +:+ t)).
  { subst finalPath. rewrite withinJail_absolute by done.
    destruct (startsWith R J) eqn:E; cbn [negb].
    - split; [done|]. destruct (prefix_split _ _ E) as [t ->].
      destruct t; [left; apply sapp_nil_r | right; eexists; split; [|reflexivity]; done].
    - destruct js as [|j js].
      { apply isAbsolute_inv in HR as [r ->]. subst J. unfold absPath in E.
        simpl in E. by destruct r. }
      subst J. rewrite prepend_jail by done.
      destruct (collapse_slash_head R) as [t ->].
      split; [apply prefix_app|]. right. eexists; split; [|reflexivity]; done. }
  destruct Hfin as [Hpre Hshape].
  destruct (String.eqb finalPath "/") eqn:E; [done|].
  destruct Hshape as [-> | (t & Ht & ->)].
  - destruct js as [|j js]; [done|]. subst J. unfold absPath.
    by rewrite strip_joinParts.
  - rewrite strip_app by done. apply prefix_app.
Qed.



(** Containment is a string prefix: a sibling of the jail whose name
    starts with the name of the jail passes. *)
Lemma string_prefix_admits_sibling :
  resolveWithinJail "/a/b" "/a/b/c" "../../bc" = "/a/bc" /\
  withinJail "/a/b" "/a/bc" = true.
Proof. split; reflexivity. Qed.

End PathFacts.

(** *** Normal forms *)

Module PathNormal.
Import Path PathSpec PathFacts.
#[local] Arguments String.append !s1 s2 : simpl nomatch.

Lemma split_nonempty s : split s <> [].
Proof. destruct s as [|c s]; [done|]. simpl. by destruct (is_slash c), (split s). Qed.

Lemma joinParts_split s : joinParts (split s) = s.
Proof.
  induction s as [|c s IH]; [done|]. simpl.
  pose proof (split_nonempty s) as Hne.
  destruct (split s) as [|h t]; [done|]. clear Hne.
  destruct (is_slash c) eqn:Hc.
  - apply Ascii.eqb_eq in Hc as ->. rewrite joinParts_cons. by rewrite IH.
  - destruct t as [|q t].
    + simpl in *. by rewrite IH.
    + rewrite joinParts_cons in IH. rewrite joinParts_cons.
      change (String c h +:+ ?x) with (String c (h +:+ x)). by rewrite IH.
Qed.

Lemma trailing_cons_empty s' rest : trailing ("" :: s' :: rest) = trailing (s' :: rest).
Proof. reflexivity. Qed.

Lemma trailing_cons_part c s s' rest :
  trailing (String c s :: s' :: rest)
  = match last (s' :: rest) with Some "" => "/" | _ => "" end.
Proof. reflexivity. Qed.

Lemma last_all_empty (l : list string) :
  filter (fun p => nonEmpty p = true) l = [] -> l <> [] -> last l = Some "".
Proof.
  induction l as [|x l IH]; [done|]. intros E _.
  destruct x as [|c x]; [|by rewrite filter_cons_True in E].
  rewrite filter_cons_False in E by done.
  destruct l as [|y l]; [done|]. rewrite last_cons. by rewrite IH.
Qed.

Lemma collapse_segments segs :
  Forall (fun p => slashFree p = true) segs -> segs <> [] ->
  collapseSlashes (String "/" (joinParts segs))
  = String "/" (joinParts (filter (fun p => nonEmpty p = true) segs) +:+ trailing segs).
Proof.
  induction 1 as [|s rest Hs Hrest IH]; [done|]. intros _.
  destruct rest as [|s' rest].
  - cbn [joinParts]. destruct s as [|c s]; [reflexivity|].
    rewrite filter_cons_True by done. rewrite filter_nil. cbn [joinParts].
    unfold trailing. rewrite filter_cons_True by done. cbn [last filter_nil].
    rewrite <- (sapp_nil_r (String c s)) at 1.
    rewrite collapse_slash_part; [done|]. unfold isPart. by rewrite Hs.
  - rewrite joinParts_cons. specialize (IH ltac:(done)).
    destruct s as [|c s].
    + rewrite filter_cons_False by done.
      change ("" +:+ String "/" (joinParts (s' :: rest))) with (String "/" (joinParts (s' :: rest))).
      change (collapseSlashes (String "/" (String "/" (joinParts (s' :: rest)))))
        with (collapseSlashes (String "/" (joinParts (s' :: rest)))).
      rewrite IH. by rewrite trailing_cons_empty.
    + rewrite filter_cons_True by done.
      rewrite collapse_slash_part by (unfold isPart; by rewrite Hs).
      rewrite IH. rewrite trailing_cons_part. unfold trailing.
      destruct (filter (fun p => nonEmpty p = true) (s' :: rest)) as [|q qs] eqn:E.
      * rewrite (last_all_empty _ E) by done. reflexivity.
      * rewrite joinParts_cons. rewrite sapp_assoc. done.
Qed.

Lemma strip_segments segs :
  Forall (fun p => slashFree p = true) segs ->
  filter (fun p => nonEmpty p = true) segs <> [] ->
  stripTrailingSlash
    (String "/" (joinParts (filter (fun p => nonEmpty p = true) segs) +:+ trailing segs))
  = String "/" (joinParts (filter (fun p => nonEmpty p = true) segs)).
Proof.
  intros Hs Hne.
  assert (Hparts : Forall (fun p => isPart p = true) (filter (fun p => nonEmpty p = true) segs)).
  { apply Forall_forall. intros p [Hp Hin]%list_elem_of_filter. unfold isPart. rewrite Hp.
    rewrite Forall_forall in Hs. by apply Hs. }
  unfold trailing. destruct (filter _ segs) as [|q qs] eqn:E; [done|].
  destruct (last segs) as [[|]|].
  - change (String "/" (joinParts (q :: qs) +:+ "/")) with (String "/" (joinParts (q :: qs)) +:+ "/").
    rewrite strip_app by done. apply sapp_nil_r.
  - rewrite sapp_nil_r. by apply strip_joinParts.
  - rewrite sapp_nil_r. by apply strip_joinParts.
Qed.

(** [cleanPath] of an absolute path is the path of its non-empty segments. *)
Lemma cleanPath_absolute r :
  cleanPath (String "/" r) = absPath (filter (fun p => nonEmpty p = true) (split r)).
Proof.
  assert (E : collapseSlashes (String "/" r)
              = String "/" (joinParts (filter (fun p => nonEmpty p = true) (split r))
                            +:+ trailing (split r))).
  { rewrite <- (joinParts_split r) at 1.
    apply collapse_segments; [apply split_slashFree | apply split_nonempty]. }
  unfold cleanPath. rewrite E.
  destruct (filter (fun p => nonEmpty p = true) (split r)) as [|q qs] eqn:F.
  - unfold trailing. rewrite F. reflexivity.
  - rewrite <- F. rewrite strip_segments by (apply split_slashFree || by rewrite F).
    reflexivity.
Qed.

Lemma resolveStep_isPart st part :
  Forall (fun p => isPart p = true) st -> slashFree part = true ->
  Forall (fun p => isPart p = true) (resolveStep st part).
Proof.
  intros Hst Hp. unfold resolveStep.
  destruct (String.eqb part "..").
  - destruct (0 <? length st)%nat; [|done].
    rewrite pop_take. by apply Forall_take.
  - destruct (negb (String.eqb part ".") && negb (String.eqb part "")) eqn:E; [|done].
    apply Forall_app. split; [done|]. constructor; [|done].
    apply andb_prop in E as [_ E]. unfold isPart, nonEmpty. by rewrite E, Hp.
Qed.

Lemma foldl_resolveStep_isPart parts st :
  Forall (fun p => isPart p = true) st ->
  Forall (fun p => slashFree p = true) parts ->
  Forall (fun p => isPart p = true) (foldl resolveStep st parts).
Proof.
  revert st. induction parts as [|part parts IH]; intros st Hst Hparts; [done|].
  apply Forall_cons in Hparts as [? ?]. simpl. apply IH; [|done].
  by apply resolveStep_isPart.
Qed.

(** [resolve] returns the absolute path of a list of components. *)
Lemma resolve_normal base p :
  exists parts, Forall (fun q => isPart q = true) parts /\ resolve base p = absPath parts.
Proof.
  unfold resolve. destruct (isAbsolute p) eqn:E.
  - apply isAbsolute_inv in E as [r ->]. rewrite cleanPath_absolute.
    eexists. split; [apply baseParts_isPart | done].
  - eexists. split; [|apply cleanPath_absPath].
    all: apply foldl_resolveStep_isPart; [apply baseParts_isPart | apply split_slashFree].
Qed.

Lemma absPath_app js parts :
  js <> [] -> parts <> [] -> absPath js +:+ absPath parts = absPath (js ++ parts).
Proof.
  intros H1 H2. unfold absPath. rewrite joinParts_app by done. reflexivity.
Qed.

(** [resolveWithinJail] in a clean jail returns the absolute path of a list
    of components. *)
Lemma resolveWithinJail_normal js base p :
  validParts js = true ->
  exists parts, Forall (fun q => isPart q = true) parts /\
                resolveWithinJail (absPath js) base p = absPath parts.
Proof.
  intros Hjs%validParts_Forall.
  destruct (resolve_normal base p) as (parts & Hparts & E).
  unfold resolveWithinJail. rewrite E.
  rewrite withinJail_absolute by apply absPath_absolute.
  destruct (startsWith (absPath parts) (absPath js)) eqn:Hw; cbn [negb].
  - exists parts. split; [done|]. by apply finish_absPath.
  - destruct js as [|j js].
    { unfold startsWith, absPath in Hw. simpl in Hw. by destruct (joinParts parts). }
    rewrite prepend_jail by done.
    change (collapseSlashes (String "/" (absPath parts))) with (collapseSlashes (absPath parts)).
    rewrite collapse_absPath by done.
    rewrite absPath_app_not_root by (apply Forall_cons in Hjs as [[? _]%andb_prop _]; done).
    rewrite strip_app by done.
    destruct parts as [|q qs].
    + exists (j :: js). split; [done|]. apply sapp_nil_r.
    + exists ((j :: js) ++ q :: qs). split; [by apply Forall_app|].
      unfold absPath at 2. rewrite strip_joinParts by done. by apply absPath_app.
Qed.

Lemma resolve_root_absPath parts :
  Forall (fun q => isPart q = true) parts -> resolve "/" (absPath parts) = absPath parts.
Proof.
  intros H. unfold resolve. rewrite absPath_absolute. by apply cleanPath_absPath.
Qed.

End PathNormal.

(** *** The paths above a path *)

Module PathChain.
Import Path PathSpec PathFacts PathNormal.
#[local] Arguments String.append !s1 s2 : simpl nomatch.

Lemma isPart_slashFree p : isPart p = true -> slashFree p = true.
Proof. by intros [_ ?]%andb_prop. Qed.

Lemma isName_isPart p : isName p = true -> isPart p = true.
Proof. by intros [? _]%andb_prop. Qed.

Lemma Forall_isName_isPart ps :
  Forall (fun p => isName p = true) ps -> Forall (fun p => isPart p = true) ps.
Proof. intros H. eapply Forall_impl; [exact H|]. intros p. apply isName_isPart. Qed.

Lemma Forall_isPart_slashFree ps :
  Forall (fun p => isPart p = true) ps -> Forall (fun p => slashFree p = true) ps.
Proof. intros H. eapply Forall_impl; [exact H|]. intros p. apply isPart_slashFree. Qed.

Lemma split_absPath ps :
  Forall (fun p => isPart p = true) ps -> ps <> [] -> split (absPath ps) = "" :: ps.
Proof.
  intros H Hne. unfold absPath.
  change (String "/" (joinParts ps)) with ("" +:+ String "/" (joinParts ps)).
  rewrite split_part_app by done. f_equal.
  apply split_joinParts; [by apply Forall_isPart_slashFree | done].
Qed.

Lemma removelast_snoc {A} (l : list A) x : removelast (l ++ [x]) = l.
Proof. by rewrite removelast_app, List.app_nil_r. Qed.

Lemma dirname_absPath qs q :
  Forall (fun p => isPart p = true) (qs ++ [q]) ->
  dirname (absPath (qs ++ [q])) = absPath qs.
Proof.
  intros H. unfold dirname. rewrite split_absPath by (done || by destruct qs).
  unfold pop. change ("" :: qs ++ [q]) with (("" :: qs) ++ [q]). rewrite removelast_snoc.
  rewrite absPath_absolute.
  destruct qs as [|q' qs]; [reflexivity|].
  cbn [length Nat.eqb andb]. rewrite joinParts_cons.
  change ("" +:+ String "/" (joinParts (q' :: qs))) with (absPath (q' :: qs)).
  apply cleanPath_absPath. by apply Forall_app in H as [? _].
Qed.

Lemma filter_joinSegment_names ps :
  Forall (fun p => isName p = true) ps ->
  filter (fun p => joinSegment p = true) ps = ps.
Proof.
  induction 1 as [|p ps Hp _ IH]; [done|].
  rewrite filter_cons_True, IH; [done|].
  apply andb_prop in Hp as [[Hne _]%andb_prop Hdot]. unfold joinSegment.
  unfold nonEmpty in Hne. rewrite negb_true_iff in Hne, Hdot. by rewrite Hne, Hdot.
Qed.

Lemma join_absPath qs q :
  Forall (fun p => isName p = true) (qs ++ [q]) ->
  join [absPath qs; q] = absPath (qs ++ [q]).
Proof.
  intros H. pose proof H as [Hqs Hq]%Forall_app.
  apply Forall_cons in Hq as [Hq _].
  unfold join. cbn [map concat]. rewrite List.app_nil_r.
  rewrite (split_part q) by by apply isPart_slashFree, isName_isPart.
  unfold startsWith. change (String.prefix "/" (absPath qs)) with (isAbsolute (absPath qs)).
  rewrite absPath_absolute.
  destruct qs as [|q' qs].
  - change (split (absPath [])) with ["";""].
    rewrite (filter_joinSegment_names [q]) by by constructor. reflexivity.
  - rewrite split_absPath by (by apply Forall_isName_isPart || done).
    rewrite filter_cons_False by done.
    rewrite filter_joinSegment_names by done.
    rewrite (filter_joinSegment_names [q]) by by constructor. reflexivity.
Qed.

Lemma getPathsFrom_chain pre ps :
  Forall (fun p => isName p = true) (pre ++ ps) ->
  MemoryFs.getPathsFrom (absPath pre) ps = chain pre ps.
Proof.
  revert pre. induction ps as [|q ps IH]; intros pre H; [done|].
  cbn [MemoryFs.getPathsFrom chain].
  assert (Hq : Forall (fun p => isName p = true) (pre ++ [q])).
  { apply Forall_app in H as [? [? _]%Forall_cons]. apply Forall_app. by repeat constructor. }
  rewrite join_absPath by done. f_equal. apply IH. by rewrite <- app_assoc.
Qed.

Lemma getPaths_absPath ps :
  Forall (fun p => isName p = true) ps -> ps <> [] ->
  MemoryFs.getPaths (absPath ps) = "/" :: chain [] ps.
Proof.
  intros H Hne. unfold MemoryFs.getPaths.
  rewrite resolve_root_absPath by by apply Forall_isName_isPart.
  rewrite split_absPath by (by apply Forall_isName_isPart || done).
  cbn [MemoryFs.getPathsFrom]. change (join ["/"; ""]) with (absPath []).
  f_equal. by apply getPathsFrom_chain.
Qed.

Lemma chain_snoc pre ps q :
  chain pre (ps ++ [q]) = chain pre ps ++ [absPath (pre ++ ps ++ [q])].
Proof.
  revert pre. induction ps as [|p ps IH]; intros pre; [done|].
  cbn [chain app]. rewrite IH. by rewrite <- !app_assoc.
Qed.


Lemma absPath_inj l1 l2 :
  Forall (fun p => isPart p = true) l1 -> Forall (fun p => isPart p = true) l2 ->
  absPath l1 = absPath l2 -> l1 = l2.
Proof.
  intros H1 H2 E. apply (f_equal split) in E.
  destruct l1 as [|a l1], l2 as [|b l2]; [done| | |].
  - rewrite (split_absPath (b :: l2)) in E by done.
    change (split (absPath [])) with ["";""] in E. injection E as <- _.
    by apply Forall_cons in H2 as [? _].
  - rewrite (split_absPath (a :: l1)) in E by done.
    change (split (absPath [])) with ["";""] in E. injection E as -> _.
    by apply Forall_cons in H1 as [? _].
  - rewrite !split_absPath in E by done. by simplify_eq.
Qed.

Lemma chain_elem pre ps c :
  c ∈ chain pre ps -> exists qs rest, c = absPath (pre ++ qs) /\ ps = qs ++ rest.
Proof.
  revert pre. induction ps as [|q ps IH]; intros pre; [by intros ?%not_elem_of_nil|].
  cbn [chain]. intros [->|Hin]%elem_of_cons.
  - by exists [q], ps.
  - destruct (IH _ Hin) as (qs & rest & -> & ->). exists (q :: qs), rest.
    split; [by rewrite <- app_assoc | done].
Qed.

(** The path of a file is none of the paths above it. *)
Lemma chain_not_below ps x :
  Forall (fun p => isPart p = true) (ps ++ [x]) ->
  absPath (ps ++ [x]) ∉ "/" :: chain [] ps.
Proof.
  intros H [E|Hin]%elem_of_cons.
  - apply (absPath_inj _ []) in E; [|done..]. by destruct ps.
  - destruct (chain_elem _ _ _ Hin) as (qs & rest & E & ->). cbn [app] in E.
    apply absPath_inj in E; [| done |].
    + apply (f_equal length) in E. rewrite !length_app in E. simpl in E. lia.
    + by apply Forall_app in H as [[? _]%Forall_app _].
Qed.

End PathChain.

(** ** The engine on concrete trees *)

(** Assertions of [src/store/memory_store_test.ts], replayed. *)
Module MemoryStoreTests.
Import MemoryFs Scenario.

Example reads_back_what_was_written :
  outcome (read rootContext "example" 2 3)
    (exec (write rootContext "example" "an example message" noWriteOptions 1) fresh)
  = Val (Ok "an example message").
Proof. reflexivity. Qed.

Example handles_pathing :
  let fs := exec (write rootContext "/a/b/c" "content" noWriteOptions 1) fresh in
  outcome (read rootContext "/a/b/c" 2 3) fs = Val (Ok "content") /\
  outcome (read (mkContext "memory:///" "/" "/a/b") "c" 2 3) fs = Val (Ok "content").
Proof. split; reflexivity. Qed.

Example lists_the_expected_directories :
  let fs :=
    exec (write rootContext "/path/d/d" "file d" noWriteOptions 4)
      (exec (write rootContext "/path/c/c" "file c" noWriteOptions 3)
        (exec (write rootContext "/path/b/b" "file b" noWriteOptions 2)
          (exec (write rootContext "/path/a/a" "file a" noWriteOptions 1) fresh))) in
  let child := mkContext "memory:///" "/" "/path" in
  outcome (readdir rootContext "/path") fs = Val (Ok ["a"; "b"; "c"; "d"]) /\
  outcome (readdir child "path") fs = Val (Err (mkErr PATH_NOT_FOUND)) /\
  outcome (readdir child "a") fs = Val (Ok ["a"]) /\
  outcome (readdir child "") fs = Val (Ok ["a"; "b"; "c"; "d"]).
Proof. repeat split; reflexivity. Qed.

Example parent_mtime_only :
  let fs := exec (write rootContext "/path/to/some/dir/example" "m" noWriteOptions 1000)
              (exec (mkdir rootContext "/path/to/some/dir" noMkdirOptions 0) fresh) in
  times_at fs "/" = Some (0, 0, 0)%Z /\
  times_at fs "/path" = Some (0, 0, 0)%Z /\
  times_at fs "/path/to/some" = Some (0, 0, 0)%Z /\
  times_at fs "/path/to/some/dir" = Some (1000, 0, 0)%Z.
Proof. repeat split; reflexivity. Qed.

Example read_touches_file_and_parent :
  let fs := exec (read rootContext "/path/to/some/example" 60000 60000)
              (exec (write rootContext "/path/to/some/example" "t" noWriteOptions 0) fresh) in
  times_at fs "/" = Some (0, 0, 0)%Z /\
  times_at fs "/path/to" = Some (0, 0, 0)%Z /\
  times_at fs "/path/to/some" = Some (0, 60000, 0)%Z /\
  times_at fs "/path/to/some/example" = Some (0, 60000, 0)%Z.
Proof. repeat split; reflexivity. Qed.

End MemoryStoreTests.

Module EngineDefects.
Import MemoryFs Scenario.

(** [delete this.fs.nodes[index]] leaves a hole, and the loop of
    [rebuildIndex] asserts that every slot holds a node: once a node is
    removed, every [rebuildIndex] throws, after it has indexed the nodes. *)
Lemma rebuildIndex_throws_after_delete :
  outcome (rm 1 rootContext "/f" noRmOptions 2 3) oneFile = Throw INVARIANT /\
  nodes (exec (rm 1 rootContext "/f" noRmOptions 2 3) oneFile)
  = [Some (DirNode "/" ["/f"] (setMtime 3 (setMtime 1 (allTimes 0)))); None].
Proof. split; reflexivity. Qed.

(** C3, at its failing input. [rm] deletes the node of ["/f"] and leaves
    ["/f"] in the [children] of the root: [readdir] of the root still lists
    ["f"], and [stats] of ["/f"] fails. This holds after the [rm] that
    returns [null] (no index rebuild) and after the [rm] with the default
    options, which throws in [rebuildIndex]. *)
Theorem readdir_lists_removed_file :
  outcome (rm 1 rootContext "/f" noRebuild 2 3) oneFile = Val None /\
  outcome (readdir rootContext "/") removed = Val (Ok ["f"]) /\
  outcome (stats rootContext "/f" 4) removed = Val (Err (mkErr PATH_NOT_FOUND)) /\
  (let thrown := exec (rm 1 rootContext "/f" noRmOptions 2 3) oneFile in
   outcome (readdir rootContext "/") thrown = Val (Ok ["f"]) /\
   outcome (stats rootContext "/f" 4) thrown = Val (Err (mkErr PATH_NOT_FOUND))).
Proof. repeat split; reflexivity. Qed.

(** C4, at its failing input. [rmdir] never reads [options.recursive]: on
    the non-empty directory ["/d"] with [{ recursive: false }] it removes
    ["/d"] and ["/d/f"], and throws in [rebuildIndex] instead of returning;
    with [{ recursive: true }] it does the same, so it does not succeed
    either. On a file it returns [PATH_NOT_FOUND]. *)
Theorem rmdir_ignores_recursive :
  exists_at oneDir "/d" = true /\ exists_at oneDir "/d/f" = true /\
  (let after := exec (rmdir 2 rootContext "/d" nonRecursive 2 3) oneDir in
   outcome (rmdir 2 rootContext "/d" nonRecursive 2 3) oneDir = Throw INVARIANT /\
   exists_at after "/d" = false /\ exists_at after "/d/f" = false) /\
  outcome (rmdir 2 rootContext "/d" recursiveRm 2 3) oneDir = Throw INVARIANT /\
  outcome (rmdir 2 rootContext "/f" nonRecursive 2 3) oneFile
  = Val (Some (mkErr PATH_NOT_FOUND)).
Proof. repeat split; reflexivity. Qed.

(** C5, at its failing input. [addNode] sorts the children with the default
    [sort()], which compares strings: the children written as ["10"], ["2"],
    ["1"] are listed as ["1"], ["10"], ["2"]. The listing of the host
    adapter sorts the same names as ["1"], ["2"], ["10"]. *)
Theorem readdir_order_is_lexicographic :
  outcome (readdir rootContext "/") numbered = Val (Ok ["1"; "10"; "2"]) /\
  outcome (readdir rootContext "/") lettered = Val (Ok ["a"; "b"; "c"]) /\
  FileStore.sortChildren ["10"; "2"; "1"] = ["1"; "2"; "10"] /\
  FileStore.sortChildren ["b"; "a"; "c"] = ["a"; "b"; "c"].
Proof. repeat split; reflexivity. Qed.

(** C7, at its failing input. The hole a removal leaves is serialized as
    [null], and [parse] asserts that no node is [null]: the engine that
    [removed] a file cannot be parsed back. *)
Theorem parse_toJson_throws_after_rm (toISOString : Z -> string) (dateParse : string -> Z) :
  parse dateParse (toJson toISOString removed) = Throw INVARIANT /\
  parse dateParse (toJson toISOString (exec (rm 1 rootContext "/f" noRmOptions 2 3) oneFile))
  = Throw INVARIANT.
Proof. split; reflexivity. Qed.

(** C8, at its failing input. [webStore] loads the slot named ["prefix"],
    whatever [options.prefix] is, and [save] writes the slot [options.prefix]:
    the tree a store with the prefix ["notes"] saved is not the tree a second
    store with the same prefix starts from. *)
Theorem webStore_loads_the_slot_named_prefix (toISOString : Z -> string) (dateParse : string -> Z) :
  let options := {| web_pwd := None; web_uri := None; web_jail := None;
                    web_prefix := Some "notes" |} in
  exists first saved second,
    webStore dateParse ∅ options 0 = Val first /\
    web_write toISOString first ∅ (web_context first) "/f" "x" None 1
    = (Val None, saved) /\
    saved.2 !! "notes" = Some (toJson toISOString (web_memory saved.1)) /\
    saved.2 !! "prefix" = None /\
    outcome (read rootContext "/f" 2 3) (web_memory saved.1) = Val (Ok "x") /\
    webStore dateParse saved.2 options 5 = Val second /\
    web_memory second = empty "/" 5 /\
    outcome (read rootContext "/f" 6 7) (web_memory second)
    = Val (Err (mkErr FILE_NOT_FOUND)).
Proof.
  intros options. eexists _, _, _.
  split; [reflexivity|]. split; [reflexivity|].
  repeat split; reflexivity.
Qed.

End EngineDefects.

(** ** The host adapter *)

Module FileStoreFacts.
Import FileStore.

Section Host.
Variable home : string.
Variable HostState : Type.
Variable host : HostState -> HostCall -> HostResult * HostState.

(** [read], [readdir], [mkdir], [writeFile], [stats] and [utimes] call the
    host on the path [resolve] returned. *)
Lemma jailed_calls context path h :
  callsOf (read home (logging host) context path) h
    = [FS_readFile (resolve home context path)] /\
  (forall recursive,
   callsOf (readdir home (logging host) context path recursive) h
    = [FS_readdir (resolve home context path) recursive]) /\
  (forall recursive,
   callsOf (mkdir home (logging host) context path recursive) h
    = [FS_mkdir (resolve home context path) (default true recursive)]) /\
  (forall content,
   callsOf (writeFile home (logging host) context path content) h
    = [FS_writeFile (resolve home context path) content]) /\
  callsOf (stats home (logging host) context path) h
    = [FS_stat (resolve home context path)] /\
  (forall times now,
   callsOf (utimes home (logging host) context path times now) h
    = [FS_utimes (resolve home context path)
         (default now (atime times)) (default now (mtime times))]).
Proof.
  unfold callsOf, read, readdir, mkdir, writeFile, stats, utimes, toNullable, tryCatch, logging.
  repeat split; intros;
    match goal with |- context [host h ?c] => destruct (host h c) as [[?|?] ?] end;
    reflexivity.
Qed.

(** [rm] and [rmdir] call the host on the path argument itself. *)
Lemma raw_calls context path recursive h :
  callsOf (api_rm home (logging host) false context path recursive) h
    = [FS_rm path recursive] /\
  callsOf (api_rmdir home (logging host) false context path recursive) h
    = [FS_rmdir path recursive].
Proof.
  unfold callsOf, api_rm, api_rmdir, rm, rmdir, toNullable, tryCatch, logging.
  split;
    match goal with |- context [host h ?c] => destruct (host h c) as [[?|?] ?] end;
    reflexivity.
Qed.

(** C2, at its failing input. In the jail ["/jail"], [rm] and [rmdir] of
    ["/etc/passwd"] call the host on ["/etc/passwd"]; the jailed path is
    ["/jail/etc/passwd"]. *)
Theorem rm_bypasses_the_jail (recursive : option bool) (h : HostState) :
  let context := {| uri := "file:///jail"; jail := "/jail"; pwd := "/jail" |} in
  resolve home context "/etc/passwd" = "/jail/etc/passwd" /\
  callsOf (api_rm home (logging host) false context "/etc/passwd" recursive) h
    = [FS_rm "/etc/passwd" recursive] /\
  callsOf (api_rmdir home (logging host) false context "/etc/passwd" recursive) h
    = [FS_rmdir "/etc/passwd" recursive].
Proof.
  intros context. split; [reflexivity|]. apply raw_calls.
Qed.

End Host.
End FileStoreFacts.

(** ** The monad of the engine *)

Module MonadFacts.

Lemma bind_unfold {A B} (m : M A) (k : A -> M B) fs :
  (m ≫= k) fs = match m fs with
                | (Val a, fs') => k a fs'
                | (Throw e, fs') => (Throw e, fs')
                end.
Proof. reflexivity. Qed.

Lemma bind_get {B} (k : Fs -> M B) fs : (get ≫= k) fs = k fs fs.
Proof. reflexivity. Qed.

Lemma bind_put {B} (k : unit -> M B) fs0 fs : (put fs ≫= k) fs0 = k tt fs.
Proof. reflexivity. Qed.

Lemma bind_modify {B} (k : unit -> M B) f fs : (modify f ≫= k) fs = k tt (f fs).
Proof. reflexivity. Qed.

Lemma bind_ret {A B} (a : A) (k : A -> M B) fs : (mret a ≫= k) fs = k a fs.
Proof. reflexivity. Qed.

Lemma bind_throw {A B} e (k : A -> M B) fs : (throw e ≫= k) fs = (Throw e, fs).
Proof. reflexivity. Qed.

Lemma never_ret {A} (bad : A -> Prop) a : ~ bad a -> never bad (mret a).
Proof. intros H fs a' fs' [= <- <-]. done. Qed.

Lemma never_throw {A} (bad : A -> Prop) e : never bad (throw e).
Proof. intros fs a fs' [=]. Qed.

Lemma never_bind {A B} (bad : B -> Prop) (m : M A) (k : A -> M B) :
  (forall a, never bad (k a)) -> never bad (m ≫= k).
Proof.
  intros H fs b fs'. rewrite bind_unfold.
  destruct (m fs) as [[a|e] fs1]; [apply H | done].
Qed.

Lemma never_keeps {A} (bad : A -> Prop) (m : M A) fs : never bad m -> keeps bad m fs.
Proof. intros H a fs' E Hbad. by destruct (H _ _ _ E). Qed.

Lemma keeps_ret {A} (bad : A -> Prop) a fs : keeps bad (mret a) fs.
Proof. by intros a' fs' [= <- <-]. Qed.

Lemma keeps_get {A} (bad : A -> Prop) (k : Fs -> M A) fs :
  keeps bad (k fs) fs -> keeps bad (get ≫= k) fs.
Proof. done. Qed.

End MonadFacts.


(** ** Errors leave the tree alone *)

Module EngineErrors.
Import MemoryFs MonadFacts.

Lemma stats_keeps context path now fs : keeps isErr (stats context path now) fs.
Proof.
  unfold stats. apply keeps_get. destruct (getNode fs _); apply keeps_ret.
Qed.

Lemma readdir_keeps context path fs : keeps isErr (readdir context path) fs.
Proof.
  unfold readdir. apply keeps_get. destruct (getNode fs _) as [| |i [| ]]; apply keeps_ret.
Qed.

Lemma read_keeps context path now1 now2 fs : keeps isErr (read context path now1 now2) fs.
Proof.
  unfold read. apply keeps_get.
  destruct (getNode fs _) as [| |i [p c st|]]; try apply keeps_ret.
  apply never_keeps. apply never_bind; intros _. apply never_bind; intros fs'.
  destruct (getNode fs' _); try apply never_throw.
  apply never_bind; intros _. by apply never_ret.
Qed.

Lemma utimes_keeps context path times fs : keeps isSomeErr (utimes context path times) fs.
Proof.
  unfold utimes. apply keeps_get.
  destruct (getNode fs _); try apply keeps_ret.
  apply never_keeps, never_bind; intros _. apply never_ret. by intros [? ?].
Qed.

Lemma never_None : never isSomeErr (mret None).
Proof. apply never_ret. by intros [? ?]. Qed.

Lemma never_then_None (m : M unit) : never isSomeErr (m ;; mret None).
Proof. apply never_bind; intros _. apply never_None. Qed.

Lemma mkdir_keeps context path options now fs :
  keeps isSomeErr (mkdir context path options now) fs.
Proof.
  unfold mkdir. apply keeps_get.
  destruct (getNode fs _) as [| |i [|]]; try apply keeps_ret.
  all: destruct (negb (default true _)).
  all: try (destruct (getNode fs _) as [| |j [|]]; try apply keeps_ret;
            apply never_keeps, never_then_None).
  all: destruct (negb (hasPathAvailable _ _)); try apply keeps_ret.
  all: apply never_keeps, never_bind; intros _; apply never_then_None.
Qed.

Lemma rm_keeps fuel context path options now1 now2 fs :
  keeps isSomeErr (rm fuel context path options now1 now2) fs.
Proof.
  destruct fuel as [|fuel]; [by intros a fs' [=]|].
  cbn [rm]. apply keeps_get.
  destruct (getNode fs _) as [| |i [p c st|p ch st]]; try apply keeps_ret.
  - apply never_keeps. do 3 (apply never_bind; intros _). apply never_None.
  - destruct (default false _); [|apply keeps_ret].
    apply never_keeps. do 4 (apply never_bind; intros _). apply never_None.
Qed.

Lemma rmdir_keeps fuel context path options now1 now2 fs :
  keeps isSomeErr (rmdir fuel context path options now1 now2) fs.
Proof.
  unfold rmdir. apply keeps_get.
  destruct (getNode fs _) as [| |i [p c st|p ch st]]; try apply keeps_ret.
  destruct (_ =? _)%nat; apply rm_keeps.
Qed.

Lemma write_keeps context path content options now fs :
  keeps isSomeErr (write context path content options now) fs.
Proof.
  unfold write. apply keeps_get.
  destruct (getNode fs _) as [| |i [p c st|p ch st]]; try apply keeps_ret.
  3: { apply never_keeps. apply never_bind; intros _. apply never_bind; intros fs'.
       destruct (getParent fs' _) as [| |j [|]]; try apply never_throw.
       apply never_then_None. }
  all: destruct (getParent fs _) as [| |j [|]]; try apply keeps_ret;
       try (apply never_keeps, never_then_None).
  all: destruct (default true _); try apply keeps_ret.
  all: intros a fs'; rewrite bind_unfold;
       destruct (mkdir _ _ _ _ fs) as [[[err|]|e] fs1] eqn:E; try done.
  all: try (intros [= <- <-] _; eapply mkdir_keeps; [exact E | by eexists]).
  all: intros E2 Hbad; exfalso; revert E2 Hbad; apply never_bind; intros fs2;
       apply never_bind; intros _; apply never_then_None.
Qed.


(** C10. An operation of the engine that returns a [StoreErr] leaves the
    tree as it was: the [Fs] after the call (nodes, with their content,
    children and timestamps, and index) is the [Fs] before it. *)
Theorem storeErr_leaves_tree_unchanged (fs : Fs) (context : StoreContext) (path : string) :
  (forall now1 now2 e fs',
      read context path now1 now2 fs = (Val (Err e), fs') -> fs' = fs) /\
  (forall content options now e fs',
      write context path content options now fs = (Val (Some e), fs') -> fs' = fs) /\
  (forall options now e fs',
      mkdir context path options now fs = (Val (Some e), fs') -> fs' = fs) /\
  (forall fuel options now1 now2 e fs',
      rm fuel context path options now1 now2 fs = (Val (Some e), fs') -> fs' = fs) /\
  (forall fuel options now1 now2 e fs',
      rmdir fuel context path options now1 now2 fs = (Val (Some e), fs') -> fs' = fs) /\
  (forall times e fs',
      utimes context path times fs = (Val (Some e), fs') -> fs' = fs) /\
  (forall now e fs',
      stats context path now fs = (Val (Err e), fs') -> fs' = fs).
Proof.
  repeat split; intros.
  - by eapply read_keeps.
  - eapply write_keeps; [done | by eexists].
  - eapply mkdir_keeps; [done | by eexists].
  - eapply rm_keeps; [done | by eexists].
  - eapply rmdir_keeps; [done | by eexists].
  - eapply utimes_keeps; [done | by eexists].
  - by eapply stats_keeps.
Qed.

(** Each operation does return a [StoreErr] on some tree, which it leaves
    as it was. *)
Lemma storeErr_leaves_tree_unchanged_witness :
  exec (read rootContext "/nope" 1 2) Scenario.fresh = Scenario.fresh /\
  exec (write rootContext "/" "x" noWriteOptions 1) Scenario.fresh = Scenario.fresh /\
  exec (mkdir rootContext "/f" noMkdirOptions 2) Scenario.oneFile = Scenario.oneFile /\
  exec (rm 1 rootContext "/d" nonRecursive 2 3) Scenario.oneDir = Scenario.oneDir /\
  exec (rmdir 1 rootContext "/f" nonRecursive 2 3) Scenario.oneFile = Scenario.oneFile /\
  exec (utimes rootContext "/nope" (allTimes 5)) Scenario.fresh = Scenario.fresh /\
  exec (stats rootContext "/nope" 1) Scenario.fresh = Scenario.fresh.
Proof.
  pose proof (storeErr_leaves_tree_unchanged Scenario.fresh rootContext "/nope")
    as (Hread & _ & _ & _ & _ & Hutimes & Hstats).
  pose proof (storeErr_leaves_tree_unchanged Scenario.fresh rootContext "/")
    as (_ & Hwrite & _).
  pose proof (storeErr_leaves_tree_unchanged Scenario.oneFile rootContext "/f")
    as (_ & _ & Hmkdir & _ & Hrmdir & _).
  pose proof (storeErr_leaves_tree_unchanged Scenario.oneDir rootContext "/d")
    as (_ & _ & _ & Hrm & _).
  split; [apply (Hread 1%Z 2%Z (mkErr FILE_NOT_FOUND)); reflexivity|].
  split; [apply (Hwrite "x" noWriteOptions 1%Z (mkErr PATH_NOT_FOUND)); reflexivity|].
  split; [apply (Hmkdir noMkdirOptions 2%Z (mkErr FILE_EXISTS)); reflexivity|].
  split; [apply (Hrm 1%nat nonRecursive 2%Z 3%Z (mkErr DIR_EXISTS)); reflexivity|].
  split; [apply (Hrmdir 1%nat nonRecursive 2%Z 3%Z (mkErr PATH_NOT_FOUND)); reflexivity|].
  split; [apply (Hutimes (allTimes 5) (mkErr PATH_NOT_FOUND)); reflexivity|].
  apply (Hstats 1%Z (mkErr PATH_NOT_FOUND)); reflexivity.
Defined.

End EngineErrors.

(** ** What a write and a read touch *)

Module EngineFacts.
Import MemoryFs EngineSpec MonadFacts Path PathSpec PathFacts PathNormal.

Lemma getNode_RNode fs q i n :
  getNode fs q = RNode i n <->
  index fs !! resolve "/" q = Some i /\ nodes fs !! i = Some (Some n).
Proof.
  unfold getNode. destruct (index fs !! resolve "/" q) as [k|]; [|by split; [|intros [? _]]].
  destruct (nodes fs !! k) as [[m|]|] eqn:E; split; try done.
  - by intros [= <- <-].
  - intros [[= <-] Hn]. rewrite E in Hn. by injection Hn as ->.
  - intros [[= <-] Hn]. by rewrite E in Hn.
  - intros [[= <-] Hn]. by rewrite E in Hn.
Qed.

Lemma getNode_same_key fs q1 q2 :
  resolve "/" q1 = resolve "/" q2 -> getNode fs q1 = getNode fs q2.
Proof. unfold getNode. by intros ->. Qed.


Lemma getNode_appended_other fs node q j n :
  resolve "/" q <> nodePath node ->
  getNode fs q = RNode j n -> getNode (appended fs node) q = RNode j n.
Proof.
  intros Hne [Hi Hn]%getNode_RNode. apply getNode_RNode. simpl.
  rewrite lookup_insert_ne by done. split; [done|].
  rewrite lookup_app_l; [done|]. by eapply lookup_lt_Some.
Qed.

Lemma getNode_appended_self fs node q :
  resolve "/" q = nodePath node ->
  getNode (appended fs node) q = RNode (length (nodes fs)) node.
Proof.
  intros E. apply getNode_RNode. simpl. rewrite E, lookup_insert_eq. split; [done|].
  by rewrite lookup_app_r, Nat.sub_diag.
Qed.


Lemma updateNode_run i f fs : updateNode i f fs = (Val tt, updated fs i f).
Proof. reflexivity. Qed.

Lemma getNode_updated fs i f q j n :
  getNode fs q = RNode j n ->
  getNode (updated fs i f) q = RNode j (if decide (i = j) then f n else n).
Proof.
  intros [Hi Hn]%getNode_RNode. apply getNode_RNode. simpl. split; [done|].
  destruct (decide (i = j)) as [->|Hne].
  - by rewrite list_lookup_alter_eq, Hn.
  - by rewrite list_lookup_alter_ne.
Qed.

(** [addNode] without a rebuild, under a parent directory that is there. *)
Lemma addNode_run node ts fs j p children st :
  getNode (appended fs node) (dirname (nodePath node)) = RNode j (DirNode p children st) ->
  addNode node ts false fs
  = (Val tt,
     updated (appended fs node) j (fun _ =>
       DirNode p (sortStrings (children ++ [nodePath node])) (setMtime ts st))).
Proof.
  intros H. unfold addNode. rewrite bind_modify, bind_get.
  fold (appended fs node). rewrite H.
  rewrite bind_unfold, updateNode_run. cbn [mret M_ret].
  f_equal. unfold updated. f_equal.
  apply getNode_RNode in H as [_ H].
  apply list_eq. intros k. destruct (decide (j = k)) as [<-|Hne].
  - by rewrite !list_lookup_alter_eq, H.
  - by rewrite !list_lookup_alter_ne.
Qed.


(** Whether [getNode] found a node. *)
Lemma getNode_key_differs fs q1 q2 j n :
  isNode (getNode fs q1) = false -> getNode fs q2 = RNode j n ->
  resolve "/" q2 <> resolve "/" q1.
Proof.
  intros H1 H2 E. rewrite (getNode_same_key fs q2 q1 E) in H2. by rewrite H2 in H1.
Qed.


(** [read] of a file whose parent is there. *)
Lemma read_run fs context path now1 now2 i p content st j parent :
  let rp := resolveWithinJail (jail context) (pwd context) path in
  getNode fs rp = RNode i (FileNode p content st) ->
  getNode fs (dirname p) = RNode j parent ->
  read context path now1 now2 fs
  = (Val (Ok content),
     updated (updated fs i (withStats (setAtime now1))) j (withStats (setAtime now2))).
Proof.
  intros rp Hnode Hparent. unfold read. fold rp. rewrite bind_get, Hnode.
  rewrite bind_unfold, updateNode_run, bind_get.
  rewrite (getNode_updated _ _ _ _ _ _ Hparent).
  by rewrite bind_unfold, updateNode_run.
Qed.




End EngineFacts.

(** ** Trees with a consistent index *)

Module Consistency.
Import MemoryFs EngineSpec MonadFacts Path PathSpec PathFacts PathNormal EngineFacts.

Lemma consistent_spec fs : consistent fs = true -> Consistent fs.
Proof.
  intros [Hs Hi]%andb_prop. split.
  - intros i slot Hslot. unfold slotsIndexed in Hs. rewrite forallb_forall in Hs.
    assert (Hin : In (i, slot) (imap pair (nodes fs))).
    { apply list_elem_of_In, list_elem_of_lookup. exists i.
      by rewrite list_lookup_imap, Hslot. }
    specialize (Hs (i, slot) Hin). cbv beta iota in Hs.
    destruct slot as [n|]; [|done].
    exists n. split; [done|]. by apply bool_decide_eq_true in Hs.
  - intros p i Hp. unfold indexSound in Hi. rewrite forallb_forall in Hi.
    specialize (Hi (p, i)). cbv beta iota in Hi.
    assert (Hin : In (p, i) (map_to_list (index fs))).
    { by apply list_elem_of_In, elem_of_map_to_list. }
    specialize (Hi Hin). destruct (nodes fs !! i) as [[n|]|]; try done.
    exists n. split; [done|]. by apply String.eqb_eq.
Qed.

Section Consistent.
Context (fs : Fs) (Hfs : Consistent fs).

Lemma consistent_not_undefined q : getNode fs q <> RUndefined.
Proof.
  unfold getNode. destruct (index fs !! resolve "/" q) as [i|] eqn:E; [|done].
  destruct (index_sound fs Hfs _ _ E) as (n & -> & _). done.
Qed.

Lemma consistent_node_path q i n : getNode fs q = RNode i n -> nodePath n = resolve "/" q.
Proof.
  intros [Hi Hn]%getNode_RNode.
  destruct (index_sound fs Hfs _ _ Hi) as (m & Hm & <-). congruence.
Qed.

Lemma consistent_null q : getNode fs q = RNull <-> index fs !! resolve "/" q = None.
Proof.
  unfold getNode. destruct (index fs !! resolve "/" q) as [i|] eqn:E; [|done].
  destruct (index_sound fs Hfs _ _ E) as (n & -> & _). done.
Qed.

Lemma consistent_lookup i n :
  nodes fs !! i = Some (Some n) -> index fs !! nodePath n = Some i.
Proof.
  intros H. destruct (slot_indexed fs Hfs _ _ H) as (m & [= <-] & ?). done.
Qed.

Lemma consistent_no_hole i : nodes fs !! i <> Some None.
Proof. intros H. by destruct (slot_indexed fs Hfs _ _ H) as (m & [=] & _). Qed.

Lemma consistent_nodes_live : nodes fs = Some <$> live fs.
Proof.
  unfold live. pose proof consistent_no_hole as H.
  induction (nodes fs) as [|[n|] l IH]; [done| |].
  - cbn. f_equal. apply IH. intros i. apply (H (S i)).
  - by destruct (H 0%nat).
Qed.

Lemma consistent_live_lookup i n :
  live fs !! i = Some n <-> nodes fs !! i = Some (Some n).
Proof.
  rewrite consistent_nodes_live, list_lookup_fmap.
  destruct (live fs !! i); simpl; split; congruence.
Qed.

Lemma consistent_paths_NoDup : NoDup (nodePath <$> live fs).
Proof.
  apply NoDup_alt. intros i j p Hi Hj.
  rewrite list_lookup_fmap in Hi, Hj.
  destruct (live fs !! i) as [n|] eqn:Ei; [|done].
  destruct (live fs !! j) as [m|] eqn:Ej; [|done].
  simpl in Hi, Hj. injection Hi as <-. injection Hj as Hj.
  apply consistent_live_lookup, consistent_lookup in Ei, Ej.
  rewrite Hj in Ej. congruence.
Qed.

End Consistent.


Lemma appended_consistent fs node :
  Consistent fs -> index fs !! nodePath node = None -> Consistent (appended fs node).
Proof.
  intros Hfs Hnew. split; cbn [appended nodes index].
  - intros i slot Hslot. apply lookup_app_Some in Hslot as [Hslot|[Hlen Hslot]].
    + destruct (slot_indexed fs Hfs _ _ Hslot) as (n & -> & Hn).
      exists n. split; [done|]. rewrite lookup_insert_ne; [done|]. congruence.
    + apply list_lookup_singleton_Some in Hslot as [Hi <-].
      exists node. split; [done|]. rewrite lookup_insert_eq. f_equal. lia.
  - intros p i Hp. apply lookup_insert_Some in Hp as [[<- <-]|[Hne Hp]].
    + exists node. by rewrite lookup_app_r, Nat.sub_diag.
    + destruct (index_sound fs Hfs _ _ Hp) as (n & Hn & <-).
      exists n. split; [|done]. rewrite lookup_app_l; [done|]. by eapply lookup_lt_Some.
Qed.

Lemma updated_consistent fs i f :
  Consistent fs ->
  (forall n, nodes fs !! i = Some (Some n) -> nodePath (f n) = nodePath n) ->
  Consistent (updated fs i f).
Proof.
  intros Hfs Hf. split; cbn [updated nodes index].
  - intros k slot Hslot. destruct (decide (i = k)) as [->|Hne].
    + rewrite list_lookup_alter_eq in Hslot.
      destruct (nodes fs !! k) as [old|] eqn:E; [|done]. simpl in Hslot. injection Hslot as <-.
      destruct (slot_indexed fs Hfs _ _ E) as (n & -> & Hn).
      exists (f n). by rewrite Hf.
    + rewrite list_lookup_alter_ne in Hslot by done. by apply (slot_indexed fs Hfs).
  - intros p k Hp. destruct (index_sound fs Hfs _ _ Hp) as (n & Hn & <-).
    destruct (decide (i = k)) as [->|Hne].
    + exists (f n). by rewrite list_lookup_alter_eq, Hn, Hf.
    + exists n. by rewrite list_lookup_alter_ne.
Qed.

(** Insertion sort permutes. *)
Lemma insertSorted_Permutation {A} (lt : A -> A -> bool) x l :
  insertSorted lt x l ≡ₚ x :: l.
Proof.
  induction l as [|y l IH]; [done|]. simpl. destruct (lt x y); [done|].
  rewrite IH. apply Permutation_swap.
Qed.

Lemma sortBy_Permutation {A} (lt : A -> A -> bool) l : sortBy lt l ≡ₚ l.
Proof.
  induction l as [|x l IH]; [done|]. unfold sortBy. simpl.
  rewrite insertSorted_Permutation. by constructor.
Qed.

(** The index [rebuildIndex] builds. *)
Lemma indexOf_snoc l x : indexOf (l ++ [x]) = <[nodePath x := length l]> (indexOf l).
Proof.
  unfold indexOf. rewrite imap_app, foldl_app. simpl. by rewrite Nat.add_0_r.
Qed.

Lemma indexOf_sound l p i :
  indexOf l !! p = Some i -> exists n, l !! i = Some n /\ nodePath n = p.
Proof.
  induction l as [|x l IH] using rev_ind; [done|].
  rewrite indexOf_snoc. intros [[<- <-]|[Hne Hp]]%lookup_insert_Some.
  - exists x. by rewrite lookup_app_r, Nat.sub_diag.
  - destruct (IH Hp) as (n & Hn & <-). exists n. split; [|done].
    rewrite lookup_app_l; [done|]. by eapply lookup_lt_Some.
Qed.

Lemma indexOf_complete l i n :
  NoDup (nodePath <$> l) -> l !! i = Some n -> indexOf l !! nodePath n = Some i.
Proof.
  induction l as [|x l IH] using rev_ind; [done|].
  rewrite fmap_app, indexOf_snoc. intros [Hl [Hx _]]%NoDup_app.
  intros [Hn|[Hlen Hn]]%lookup_app_Some.
  - rewrite lookup_insert_ne; [by apply IH|].
    intros E. apply (Hx (nodePath x)); [|simpl; left].
    rewrite E. apply list_elem_of_fmap. exists n. split; [done|].
    by eapply list_elem_of_lookup_2.
  - apply list_lookup_singleton_Some in Hn as [Hi <-].
    rewrite lookup_insert_eq. f_equal. lia.
Qed.

Section Rebuild.
Context (fs : Fs) (Hfs : Consistent fs).

Lemma rebuildIndex_run : rebuildIndex fs = (Val tt, rebuilt fs).
Proof.
  unfold rebuildIndex. rewrite bind_get, bind_put.
  fold (live fs).
  assert (length (nodes fs) - length (live fs) = 0)%nat as ->.
  { rewrite (consistent_nodes_live fs Hfs) at 1. rewrite length_fmap. lia. }
  cbn [replicate]. by rewrite List.app_nil_r.
Qed.

Lemma sorted_paths_NoDup : NoDup (nodePath <$> sortNodes (live fs)).
Proof.
  unfold sortNodes. rewrite sortBy_Permutation. by apply consistent_paths_NoDup.
Qed.

Lemma rebuilt_consistent : Consistent (rebuilt fs).
Proof.
  split; cbn [rebuilt nodes index].
  - intros i slot Hslot. rewrite list_lookup_fmap in Hslot.
    destruct (sortNodes (live fs) !! i) as [n|] eqn:E; [|done].
    injection Hslot as <-. exists n. split; [done|].
    apply indexOf_complete; [apply sorted_paths_NoDup | done].
  - intros p i Hp. destruct (indexOf_sound _ _ _ Hp) as (n & Hn & <-).
    exists n. by rewrite list_lookup_fmap, Hn.
Qed.

(** A rebuild moves the nodes and keeps what is found at a path. *)
Lemma rebuilt_getNode q i n :
  getNode fs q = RNode i n -> exists i', getNode (rebuilt fs) q = RNode i' n.
Proof.
  intros H. pose proof (consistent_node_path fs Hfs _ _ _ H) as Hpath.
  apply getNode_RNode in H as [_ Hn].
  apply (consistent_live_lookup fs Hfs) in Hn.
  assert (Hin : n ∈ sortNodes (live fs)).
  { unfold sortNodes. rewrite sortBy_Permutation. by eapply list_elem_of_lookup_2. }
  apply list_elem_of_lookup in Hin as [i' Hi']. exists i'.
  apply getNode_RNode. cbn [rebuilt nodes index]. rewrite <- Hpath. split.
  - apply indexOf_complete; [apply sorted_paths_NoDup | done].
  - by rewrite list_lookup_fmap, Hi'.
Qed.

(** A rebuild indexes no path that was not. *)
Lemma rebuilt_index_None r : index fs !! r = None -> index (rebuilt fs) !! r = None.
Proof.
  intros Hr. cbn [rebuilt index].
  destruct (indexOf (sortNodes (live fs)) !! r) as [i|] eqn:E; [|done].
  destruct (indexOf_sound _ _ _ E) as (n & Hn & <-).
  assert (Hin : n ∈ live fs).
  { apply list_elem_of_lookup_2 in Hn. unfold sortNodes in Hn.
    by rewrite sortBy_Permutation in Hn. }
  apply list_elem_of_lookup in Hin as [k Hk].
  apply consistent_live_lookup, consistent_lookup in Hk; [congruence | done..].
Qed.

End Rebuild.


Lemma Consistent_consistent fs : Consistent fs -> consistent fs = true.
Proof.
  intros Hfs. apply andb_true_intro. split; apply forallb_forall.
  - intros [i slot] Hin. apply list_elem_of_In, list_elem_of_lookup in Hin as [k Hk].
    rewrite list_lookup_imap in Hk.
    destruct (nodes fs !! k) as [slot'|] eqn:E; [|done]. simpl in Hk. injection Hk as <- <-.
    destruct (slot_indexed fs Hfs _ _ E) as (n & -> & Hn). by apply bool_decide_eq_true.
  - intros [p i] Hin. apply list_elem_of_In, elem_of_map_to_list in Hin.
    destruct (index_sound fs Hfs _ _ Hin) as (n & -> & <-). by apply String.eqb_eq.
Qed.

Lemma wellFormed_spec fs : wellFormed fs = true <-> WellFormed fs.
Proof.
  split.
  - intros [[Hc Hr]%andb_prop Hp]%andb_prop. split; [by apply consistent_spec | done |].
    intros i n Hn. unfold parentClosed in Hp. rewrite forallb_forall in Hp.
    apply (Hp (Some n)). by eapply list_elem_of_In, list_elem_of_lookup_2.
  - intros [Hc Hr Hp]. unfold wellFormed. rewrite (Consistent_consistent fs Hc).
    unfold rooted. rewrite Hr. apply forallb_forall. intros [n|] Hin; [|done].
    apply list_elem_of_In, list_elem_of_lookup in Hin as [i Hi]. by eapply Hp.
Qed.

Lemma isNode_inv r : isNode r = true -> exists j n, r = RNode j n.
Proof. destruct r; try done. intros _. by eexists _, _. Qed.

(** An assignment that keeps the path and the kind of the node keeps the
    tree well formed. *)
Lemma updated_wellFormed fs i f :
  WellFormed fs ->
  (forall n, nodes fs !! i = Some (Some n) ->
             nodePath (f n) = nodePath n /\ isDirNode (f n) = isDirNode n) ->
  WellFormed (updated fs i f).
Proof.
  intros [Hc Hr Hp] Hf. split.
  - apply updated_consistent; [done|]. intros n Hn. by apply Hf.
  - destruct (getNode fs "/") as [| |j n] eqn:E; try done.
    erewrite getNode_updated by done.
    destruct (decide (i = j)) as [->|]; [|done].
    apply getNode_RNode in E as [_ E]. destruct (Hf n E) as [_ Hk].
    destruct n, (f _); done.
  - intros k n Hn. cbn [updated nodes] in Hn.
    assert (exists m, nodes fs !! k = Some (Some m) /\ nodePath n = nodePath m) as (m & Hm & ->).
    { destruct (decide (i = k)) as [->|Hne].
      - rewrite list_lookup_alter_eq in Hn.
        destruct (nodes fs !! k) as [[m|]|] eqn:E; try done.
        simpl in Hn. injection Hn as <-. exists m. split; [done|]. by apply Hf.
      - rewrite list_lookup_alter_ne in Hn by done. by exists n. }
    destruct (isNode_inv _ (Hp _ _ Hm)) as (j & pn & Hj).
    by erewrite getNode_updated.
Qed.

(** A new node at a path the index does not have, under a parent that is
    there, keeps the tree well formed. *)
Lemma appended_wellFormed fs node :
  WellFormed fs ->
  index fs !! nodePath node = None ->
  isNode (getNode fs (dirname (nodePath node))) = true ->
  WellFormed (appended fs node).
Proof.
  intros [Hc Hr Hp] Hnew Hparent.
  assert (Hother : forall q, isNode (getNode fs q) = true ->
                             isNode (getNode (appended fs node) q) = true).
  { intros q (j & n & Hq)%isNode_inv.
    erewrite getNode_appended_other; [done| |exact Hq].
    intros E. apply getNode_RNode in Hq as [Hq _]. congruence. }
  split.
  - by apply appended_consistent.
  - destruct (getNode fs "/") as [| |j n] eqn:E; try done.
    erewrite getNode_appended_other; [done| |exact E].
    intros E'. apply getNode_RNode in E as [E _]. congruence.
  - intros k n Hn. cbn [appended nodes] in Hn.
    apply lookup_app_Some in Hn as [Hn|[_ Hn]].
    + apply Hother. by eapply Hp.
    + apply list_lookup_singleton_Some in Hn as [_ [= <-]]. by apply Hother.
Qed.

Lemma rebuilt_wellFormed fs : WellFormed fs -> WellFormed (rebuilt fs).
Proof.
  intros [Hc Hr Hp]. split.
  - by apply rebuilt_consistent.
  - destruct (getNode fs "/") as [| |j n] eqn:E; try done.
    destruct (rebuilt_getNode fs Hc _ _ _ E) as [i' ->]. done.
  - intros k n Hn. cbn [rebuilt nodes] in Hn. rewrite list_lookup_fmap in Hn.
    destruct (sortNodes (live fs) !! k) as [m|] eqn:E; [|done].
    simpl in Hn. injection Hn as ->.
    assert (Hin : n ∈ live fs).
    { apply list_elem_of_lookup_2 in E. unfold sortNodes in E.
      by rewrite sortBy_Permutation in E. }
    apply list_elem_of_lookup in Hin as [i Hi].
    apply (consistent_live_lookup fs Hc) in Hi.
    destruct (isNode_inv _ (Hp _ _ Hi)) as (j & pn & Hj).
    destruct (rebuilt_getNode fs Hc _ _ _ Hj) as [i' ->]. done.
Qed.

Lemma fresh_wellFormed time : WellFormed (empty "/" time).
Proof. by apply wellFormed_spec. Qed.

End Consistency.

(** ** Writing, then reading *)

Module RoundTrip.
Import MemoryFs EngineSpec MonadFacts Path PathSpec PathFacts PathNormal
       PathChain EngineFacts Consistency.

Lemma isDirRef_inv r : isDirRef r = true -> exists j p ch st, r = RNode j (DirNode p ch st).
Proof. destruct r as [| |j [|p ch st]]; try done. intros _. by eexists _, _, _, _. Qed.

Lemma hasPathAvailableFrom_chain fs pre ps :
  Forall (fun p => isName p = true) (pre ++ ps) ->
  hasPathAvailableFrom fs (absPath pre) ps
  = forallb (fun c => negb (isFileRef (getNode fs c))) (chain pre ps).
Proof.
  revert pre. induction ps as [|q ps IH]; intros pre H; [done|].
  cbn [hasPathAvailableFrom chain forallb].
  assert (Hq : Forall (fun p => isName p = true) (pre ++ [q])).
  { apply Forall_app in H as [? [? _]%Forall_cons]. apply Forall_app. by repeat constructor. }
  rewrite join_absPath by done.
  rewrite IH by by rewrite <- app_assoc.
  by destruct (getNode fs (absPath (pre ++ [q]))) as [| |i [|]].
Qed.

Lemma hasPathAvailable_absPath fs ps :
  Forall (fun p => isName p = true) ps -> ps <> [] ->
  hasPathAvailable fs (absPath ps)
  = negb (isFileRef (getNode fs "/"))
    && forallb (fun c => negb (isFileRef (getNode fs c))) (chain [] ps).
Proof.
  intros H Hne. unfold hasPathAvailable.
  rewrite split_absPath by (by apply Forall_isName_isPart || done).
  cbn [hasPathAvailableFrom]. change (join ["/"; ""]) with (absPath []).
  rewrite hasPathAvailableFrom_chain by done.
  change (absPath []) with "/".
  by destruct (getNode fs "/") as [| |i [|]].
Qed.

(** When no prefix of a path names a file, the path does not. *)
Lemma available_not_file fs ps :
  Forall (fun p => isName p = true) ps ->
  hasPathAvailable fs (absPath ps) = true -> isFileRef (getNode fs (absPath ps)) = false.
Proof.
  intros H Hav. destruct ps as [|q ps _] using rev_ind.
  - unfold hasPathAvailable in Hav. change (split (absPath [])) with ["";""] in Hav.
    cbn [hasPathAvailableFrom] in Hav. change (join ["/"; ""]) with "/" in Hav.
    change (absPath []) with "/". by destruct (getNode fs "/") as [| |i [|]].
  - rewrite hasPathAvailable_absPath in Hav by (done || by destruct ps).
    apply andb_prop in Hav as [_ Hav]. rewrite chain_snoc, forallb_app in Hav.
    apply andb_prop in Hav as [_ Hav]. simpl in Hav.
    by destruct (isFileRef _).
Qed.

(** A step of the loop of [mkdir] adds directories only. *)
Lemma added_dir_files fs p ts j F q :
  (forall n, isDirNode (F n) = true) ->
  isFileRef (getNode (updated (appended fs (DirNode p [] (allTimes ts))) j F) q) = true ->
  isFileRef (getNode fs q) = true.
Proof.
  intros HF H.
  destruct (getNode (updated _ _ _) q) as [| |k n] eqn:E; try done.
  apply getNode_RNode in E as [Hk Hn]. cbn [updated appended nodes index nodePath] in Hk, Hn.
  destruct (decide (j = k)) as [->|Hjk].
  { rewrite list_lookup_alter_eq in Hn.
    destruct ((nodes fs ++ _) !! k) as [[m|]|]; try done.
    simpl in Hn. injection Hn as <-. specialize (HF m). by destruct (F m). }
  rewrite list_lookup_alter_ne in Hn by done.
  apply lookup_app_Some in Hn as [Hn|[_ Hn]].
  - apply lookup_insert_Some in Hk as [[_ <-]|[_ Hk]].
    + apply lookup_lt_Some in Hn. lia.
    + assert (getNode fs q = RNode k n) as -> by by apply getNode_RNode. done.
  - apply list_lookup_singleton_Some in Hn as [_ [= <-]]. done.
Qed.

(** The loop of [mkdir] over the paths below a directory that is there. *)
Lemma mkdir_chain ts ps : forall pre fs,
  Forall (fun p => isName p = true) (pre ++ ps) ->
  WellFormed fs ->
  isDirRef (getNode fs (absPath pre)) = true ->
  forallb (fun c => negb (isFileRef (getNode fs c))) (chain pre ps) = true ->
  exists fs',
    forEach (chain pre ps) (fun p =>
      fs' ← get;
      match getNode fs' p with
      | RNull => addNode (DirNode p [] (allTimes ts)) ts false
      | _ => mret tt
      end) fs = (Val tt, fs') /\
    WellFormed fs' /\
    isDirRef (getNode fs' (absPath (pre ++ ps))) = true /\
    (forall r, index fs !! r = None -> r ∉ chain pre ps -> index fs' !! r = None).
Proof.
  induction ps as [|q ps IH]; intros pre fs Hnames Hfs Hpre Hav.
  { exists fs. by rewrite List.app_nil_r. }
  cbn [chain forallb] in Hav |- *. apply andb_prop in Hav as [Hq Hav].
  assert (Hpq : Forall (fun p => isName p = true) (pre ++ [q])).
  { apply Forall_app in Hnames as [? [? _]%Forall_cons]. apply Forall_app. by repeat constructor. }
  assert (Hnames' : Forall (fun p => isName p = true) ((pre ++ [q]) ++ ps))
    by by rewrite <- app_assoc.
  set (c := absPath (pre ++ [q])) in *.
  assert (Hc : resolve "/" c = c) by by apply resolve_root_absPath, Forall_isName_isPart.
  cbn [forEach]. rewrite bind_unfold, bind_get.
  destruct (getNode fs c) as [| |i [pf cf sf|pd chd sd]] eqn:E.
  - (* the directory is made *)
    apply isDirRef_inv in Hpre as (j & p & ch & st & Hparent).
    assert (Hadd : addNode (DirNode c [] (allTimes ts)) ts false fs
                   = (Val tt, updated (appended fs (DirNode c [] (allTimes ts))) j (fun _ =>
                        DirNode p (sortStrings (ch ++ [c])) (setMtime ts st)))).
    { apply addNode_run. cbn [nodePath]. subst c.
      rewrite dirname_absPath by by apply Forall_isName_isPart.
      apply getNode_appended_other; [|done]. cbn [nodePath].
      rewrite <- Hc. eapply getNode_key_differs; [|done]. by rewrite E. }
    rewrite Hadd.
    set (fs1 := updated _ j _).
    assert (Hfs1 : WellFormed fs1).
    { apply updated_wellFormed.
      - apply appended_wellFormed; [done| |]; cbn [nodePath].
        + rewrite <- Hc. by apply consistent_null; [apply Hfs|].
        + subst c. rewrite dirname_absPath by by apply Forall_isName_isPart.
          by rewrite Hparent.
      - intros n Hn. cbn [appended nodes] in Hn.
        apply getNode_RNode in Hparent as [_ Hj].
        rewrite lookup_app_l in Hn by by eapply lookup_lt_Some.
        rewrite Hj in Hn. by injection Hn as <-. }
    destruct (IH (pre ++ [q]) fs1) as (fs' & Hrun & Hfs' & Hdir & Hframe); try done.
    + fold c. subst fs1.
      erewrite getNode_updated; [|by apply getNode_appended_self].
      by destruct (decide _).
    + apply forallb_forall. intros c' Hc'. rewrite forallb_forall in Hav.
      specialize (Hav c' Hc'). apply negb_true_iff in Hav. apply negb_true_iff.
      apply not_true_is_false. intros Hfile. subst fs1.
      apply added_dir_files in Hfile; [congruence | done].
    + exists fs'. rewrite <- app_assoc in Hdir. split; [done|split; [done|split; [done|]]].
      intros r Hr [Hrc Hrest]%not_elem_of_cons. apply Hframe; [|done].
      subst fs1. cbn [updated appended index nodePath]. by rewrite lookup_insert_ne.
  - by destruct (consistent_not_undefined fs (wf_consistent fs Hfs) c).
  - done.
  - (* the directory is there *)
    destruct (IH (pre ++ [q]) fs) as (fs' & Hrun & Hfs' & Hdir & Hframe); try done.
    + fold c. by rewrite E.
    + exists fs'. rewrite <- app_assoc in Hdir. split; [done|split; [done|split; [done|]]].
      intros r Hr [_ Hrest]%not_elem_of_cons. by apply Hframe.
Qed.

(** A path inside the jail resolves to itself. *)
Lemma resolveWithinJail_inside J base ps :
  Forall (fun p => isPart p = true) ps ->
  withinJail J (absPath ps) = true ->
  resolveWithinJail J base (absPath ps) = absPath ps.
Proof.
  intros H Hw. unfold resolveWithinJail, resolve. rewrite absPath_absolute.
  rewrite cleanPath_absPath by done. rewrite Hw. cbn [negb].
  by apply finish_absPath.
Qed.

(** [mkdir], recursive, of a path that names nothing and has no file above
    it. *)
Lemma mkdir_recursive_run fs context ps ts now :
  WellFormed fs ->
  Forall (fun p => isName p = true) ps ->
  withinJail (jail context) (absPath ps) = true ->
  getNode fs (absPath ps) = RNull ->
  hasPathAvailable fs (absPath ps) = true ->
  exists fs',
    mkdir context (absPath ps) {| mk_recursive := Some true; mk_timestamp := Some ts |} now fs
    = (Val None, fs') /\
    WellFormed fs' /\
    isDirRef (getNode fs' (absPath ps)) = true /\
    (forall r, index fs !! r = None -> r ∉ chain [] ps -> index fs' !! r = None).
Proof.
  intros Hfs Hnames Hjail Hnull Hav.
  pose proof (wf_rooted fs Hfs) as Hroot.
  assert (Hne : ps <> []).
  { intros ->. change (absPath []) with "/" in Hnull.
    by rewrite Hnull in Hroot. }
  unfold mkdir. rewrite resolveWithinJail_inside by (by apply Forall_isName_isPart || done).
  rewrite bind_get, Hnull. cbn [default negb mk_recursive mk_timestamp from_option id].
  rewrite Hav. cbn [negb].
  rewrite getPaths_absPath by done.
  rewrite hasPathAvailable_absPath in Hav by done.
  apply andb_prop in Hav as [_ Hav].
  destruct (mkdir_chain ts ps [] fs) as (fs2 & Hrun & Hfs2 & Hdir & Hframe); try done.
  exists (rebuilt fs2). split; [|split; [by apply rebuilt_wellFormed|split]].
  - rewrite bind_unfold. cbn [forEach]. rewrite bind_unfold, bind_get.
    apply isDirRef_inv in Hroot as (j & p & ch & st & Hroot). rewrite Hroot.
    cbn [mret M_ret]. rewrite Hrun.
    by rewrite bind_unfold, (rebuildIndex_run fs2 (wf_consistent fs2 Hfs2)).
  - change ([] ++ ps) with ps in Hdir.
    apply isDirRef_inv in Hdir as (j2 & p2 & ch2 & st2 & Hdir).
    destruct (rebuilt_getNode fs2 (wf_consistent fs2 Hfs2) _ _ _ Hdir) as [i' ->]. done.
  - intros r Hr Hnot. apply rebuilt_index_None; [apply Hfs2|]. by apply Hframe.
Qed.


(** [write] on a file that is there, under a parent directory. *)
Lemma write_overwrite_run fs context path content options now i p c st j pp ch pst :
  let rp := resolveWithinJail (jail context) (pwd context) path in
  let ts := default now (wr_timestamp options) in
  getNode fs rp = RNode i (FileNode p c st) ->
  getParent fs rp = RNode j (DirNode pp ch pst) ->
  write context path content options now fs
  = (Val None,
     updated (updated fs i (fun node =>
                match node with
                | FileNode p' _ st' => FileNode p' content (setMtime ts st')
                | DirNode _ _ _ => node
                end)) j (withStats (setMtime ts))).
Proof.
  intros rp ts Hnode Hparent. unfold write. fold rp. fold ts.
  rewrite bind_get, Hnode, bind_unfold, updateNode_run, bind_get.
  unfold getParent in *. erewrite getNode_updated by done.
  destruct (decide (i = j)); by rewrite bind_unfold, updateNode_run.
Qed.

(** After [addNode] put a file under its parent, [read] returns its
    content. *)
Lemma read_after_add fs context path content ts j p ch st F now1 now2 :
  let rp := resolveWithinJail (jail context) (pwd context) path in
  resolve "/" rp = rp ->
  resolve "/" (dirname rp) <> rp ->
  getNode fs (dirname rp) = RNode j (DirNode p ch st) ->
  exists fs2,
    read context path now1 now2
      (updated (appended fs (FileNode rp content (allTimes ts))) j F)
    = (Val (Ok content), fs2).
Proof.
  intros rp Hnormal Hkey Hparent.
  pose proof Hparent as [_ Hlt%lookup_lt_Some]%getNode_RNode.
  eexists. eapply read_run.
  - fold rp. erewrite getNode_updated; [|by apply getNode_appended_self].
    destruct (decide (j = length (nodes fs))); [lia | done].
  - cbn [nodePath]. erewrite getNode_updated; [done|].
    by apply getNode_appended_other.
Qed.

Lemma absPath_snoc_ne ps x :
  Forall (fun p => isPart p = true) (ps ++ [x]) -> absPath ps <> absPath (ps ++ [x]).
Proof.
  intros H E. apply (f_equal split) in E.
  rewrite (split_absPath (ps ++ [x])) in E by (done || by destruct ps).
  destruct ps as [|q ps].
  - change (split (absPath [])) with ["";""] in E. injection E as <-.
    by apply Forall_cons in H as [? _].
  - rewrite split_absPath in E by (by apply Forall_app in H as [? _] || done).
    apply (f_equal length) in E. rewrite !length_cons, length_app in E. simpl in E. lia.
Qed.

Lemma noDot_names parts :
  Forall (fun p => isPart p = true) parts -> noDot (absPath parts) = true ->
  Forall (fun p => isName p = true) parts.
Proof.
  intros H Hdot. destruct parts as [|q qs]; [done|].
  unfold noDot in Hdot. rewrite split_absPath in Hdot by done.
  rewrite forallb_forall in Hdot. rewrite Forall_forall in H.
  apply Forall_forall. intros p Hp. unfold isName.
  rewrite (H p Hp). apply Hdot. right. by apply list_elem_of_In.
Qed.

Lemma parentClosed_spec fs i n :
  parentClosed fs = true -> nodes fs !! i = Some (Some n) ->
  isNode (getNode fs (dirname (nodePath n))) = true.
Proof.
  unfold parentClosed. rewrite forallb_forall. intros H Hn.
  apply (H (Some n)). by eapply list_elem_of_In, list_elem_of_lookup_2.
Qed.

(** [read] keeps a tree well formed, whatever it returns. *)
Lemma read_wellFormed fs context path now1 now2 :
  WellFormed fs -> WellFormed (exec (read context path now1 now2) fs).
Proof.
  intros Hfs. unfold exec, read. rewrite bind_get.
  destruct (getNode fs _) as [| |i [p c st|]]; try done.
  rewrite bind_unfold, updateNode_run, bind_get.
  assert (Hfs1 : WellFormed (updated fs i (withStats (setAtime now1)))).
  { apply updated_wellFormed; [done|]. by intros []. }
  destruct (getNode (updated fs i _) _) as [| |j n]; try done.
  rewrite bind_unfold, updateNode_run. cbn.
  apply updated_wellFormed; [done|]. by intros [].
Qed.

(** A file put by [addNode] under its parent keeps a tree well formed. *)
Lemma added_file_wellFormed fs rp content ts j p ch st :
  WellFormed fs ->
  index fs !! rp = None ->
  getNode fs (dirname rp) = RNode j (DirNode p ch st) ->
  WellFormed (updated (appended fs (FileNode rp content (allTimes ts))) j (fun _ =>
                DirNode p (sortStrings (ch ++ [rp])) (setMtime ts st))).
Proof.
  intros Hfs Hnew Hparent. apply updated_wellFormed.
  - apply appended_wellFormed; [done..|]. cbn [nodePath]. by rewrite Hparent.
  - intros n Hn. cbn [appended nodes] in Hn.
    apply getNode_RNode in Hparent as [_ Hj].
    rewrite lookup_app_l in Hn by by eapply lookup_lt_Some.
    rewrite Hj in Hn. by injection Hn as <-.
Qed.

(** The round trip, and the tree it leaves. *)
Lemma write_then_read_wellFormed (fs : Fs) (context : StoreContext) (js : list string)
    (path content : string) (options : WriteOptions) (now now1 now2 : Z) :
  let rp := resolveWithinJail (jail context) (pwd context) path in
  WellFormed fs ->
  validParts js = true -> jail context = absPath js ->
  noDot rp = true ->
  default true (wr_recursive options) = true ->
  isDirRef (getNode fs rp) = false ->
  hasPathAvailable fs (dirname rp) = true ->
  isNode (getParent fs rp) || withinJail (jail context) (dirname rp) = true ->
  exists fs1,
    write context path content options now fs = (Val None, fs1) /\
    WellFormed fs1 /\
    outcome (read context path now1 now2) fs1 = Val (Ok content).
Proof.
  intros rp Hfs Hjs Hjail Hdot Hrec Hnodir Hav Hin.
  pose proof (wf_consistent fs Hfs) as Hcons.
  destruct (resolveWithinJail_normal js (pwd context) path Hjs) as (parts & Hparts & Erp).
  rewrite <- Hjail in Erp. fold rp in Erp.
  assert (Hnormal : resolve "/" rp = rp) by (rewrite Erp; by apply resolve_root_absPath).
  assert (Hnames : Forall (fun p => isName p = true) parts).
  { apply noDot_names; [done|]. by rewrite <- Erp. }
  destruct parts as [|x ps _] using rev_ind.
  { exfalso. pose proof (wf_rooted fs Hfs) as Hroot. change (absPath []) with "/" in Erp.
    rewrite Erp in Hnodir. congruence. }
  assert (Hdir : dirname rp = absPath ps) by (rewrite Erp; by apply dirname_absPath).
  assert (Hps : Forall (fun p => isName p = true) ps) by by apply Forall_app in Hnames as [? _].
  assert (Hkey : resolve "/" (dirname rp) <> rp).
  { rewrite Hdir, Erp, resolve_root_absPath by by apply Forall_isName_isPart.
    by apply absPath_snoc_ne. }
  rewrite Hdir in Hav.
  pose proof (available_not_file fs ps Hps Hav) as Hnotfile.
  assert (Hgp : forall fs', getParent fs' rp = getNode fs' (absPath ps)).
  { intros fs'. unfold getParent. by rewrite Hnormal, Hdir. }
  rewrite Hgp, Hdir in Hin.
  assert (Hread : forall fs0 j pp chp sp ts,
    getNode fs0 (absPath ps) = RNode j (DirNode pp chp sp) ->
    outcome (read context path now1 now2)
      (updated (appended fs0 (FileNode rp content (allTimes ts))) j (fun _ =>
         DirNode pp (sortStrings (chp ++ [rp])) (setMtime ts sp)))
    = Val (Ok content)).
  { intros fs0 j pp chp sp ts Hparent.
    destruct (read_after_add fs0 context path content ts j pp chp sp
                (fun _ => DirNode pp (sortStrings (chp ++ [rp])) (setMtime ts sp))
                now1 now2) as [fs2 Hrun]; try done.
    { fold rp. by rewrite Hdir. }
    fold rp in Hrun. unfold outcome. by rewrite Hrun. }
  assert (Hadd : forall fs0 j pp chp sp ts,
    getNode fs0 (absPath ps) = RNode j (DirNode pp chp sp) ->
    addNode (FileNode rp content (allTimes ts)) ts false fs0
    = (Val tt, updated (appended fs0 (FileNode rp content (allTimes ts))) j (fun _ =>
         DirNode pp (sortStrings (chp ++ [rp])) (setMtime ts sp)))).
  { intros fs0 j pp chp sp ts Hparent. apply addNode_run. cbn [nodePath]. rewrite Hdir.
    apply getNode_appended_other; [|done]. cbn [nodePath]. by rewrite <- Hdir. }
  destruct (getNode fs rp) as [| |i [p c st|p ch st]] eqn:Enode; [| |clear Hnodir|done].
  - (* the path names nothing *)
    assert (Hnew : index fs !! rp = None).
    { rewrite <- Hnormal. by apply consistent_null. }
    destruct (getNode fs (absPath ps)) as [| |j [pp cp sp|pp chp sp]] eqn:Eparent;
      [| |done|].
    + (* the parent is missing: [mkdir] makes it *)
      cbn [isNode orb] in Hin.
      destruct (mkdir_recursive_run fs context ps (default now (wr_timestamp options)) now)
        as (fs3 & Hmk & Hfs3 & Hd3 & Hframe); try done.
      apply isDirRef_inv in Hd3 as (j & pp & chp & sp & Hd3).
      eexists. split; [|split; [|by apply (Hread fs3)]].
      * unfold write. fold rp. rewrite bind_get, Enode, Hgp, Eparent, Hrec.
        rewrite bind_unfold, Hdir, Hmk. rewrite bind_get, Hgp, Hd3.
        cbn [isDirRef invariant]. rewrite bind_ret, bind_unfold.
        by erewrite Hadd.
      * apply added_file_wellFormed; [done| |by rewrite Hdir].
        apply Hframe; [done|]. rewrite Erp.
        intros Hc. apply (chain_not_below ps x); [by apply Forall_isName_isPart|].
        by right.
    + by destruct (consistent_not_undefined fs Hcons (absPath ps)).
    + (* the parent is there *)
      eexists. split; [|split; [|by apply (Hread fs)]].
      * unfold write. fold rp. rewrite bind_get, Enode, Hgp, Eparent.
        rewrite bind_unfold. by erewrite Hadd.
      * apply added_file_wellFormed; [done..|by rewrite Hdir].
  - by destruct (consistent_not_undefined fs Hcons rp).
  - (* the path names a file: it is overwritten *)
    pose proof (consistent_node_path fs Hcons _ _ _ Enode) as Hp. cbn [nodePath] in Hp.
    rewrite Hnormal in Hp. subst p.
    pose proof Enode as [_ Hslot]%getNode_RNode.
    pose proof (wf_parents fs Hfs i _ Hslot) as Hparent.
    cbn [nodePath] in Hparent. rewrite Hdir in Hparent.
    destruct (getNode fs (absPath ps)) as [| |j [pp cp sp|pp chp sp]] eqn:Eparent; try done.
    assert (Hij : i <> j).
    { intros ->. apply getNode_RNode in Eparent as [_ Hj]. congruence. }
    eexists. split; [|split].
    + eapply write_overwrite_run; [exact Enode | rewrite Hgp; exact Eparent].
    + apply updated_wellFormed; [apply updated_wellFormed; [done|]|]; by intros [].
    + unfold outcome. erewrite read_run; [done| |].
      * fold rp. erewrite getNode_updated; [|erewrite getNode_updated; [done|exact Enode]].
        destruct (decide (j = i)); [congruence|]. by destruct (decide (i = i)).
      * rewrite Hdir. erewrite getNode_updated; [done|].
        erewrite getNode_updated; [done|exact Eparent].
Qed.

(** C6, as the code has it. In a well-formed tree (the index is the table
    of the nodes, the array has no hole, the root is a directory, every
    parent is there) and a context with a clean jail, take a path whose
    resolved form has no ["."] segment, names no directory and has no file
    above it, and whose parent is there or lies within the jail. Then
    [write], unless told not to create the missing directories, returns
    [null], and a [read] of the path then returns the content written. *)
Theorem write_then_read (fs : Fs) (context : StoreContext) (js : list string)
    (path content : string) (options : WriteOptions) (now now1 now2 : Z) :
  let rp := resolveWithinJail (jail context) (pwd context) path in
  wellFormed fs = true ->
  validParts js = true -> jail context = absPath js ->
  noDot rp = true ->
  default true (wr_recursive options) = true ->
  isDirRef (getNode fs rp) = false ->
  hasPathAvailable fs (dirname rp) = true ->
  isNode (getParent fs rp) || withinJail (jail context) (dirname rp) = true ->
  exists fs1 fs2,
    write context path content options now fs = (Val None, fs1) /\
    read context path now1 now2 fs1 = (Val (Ok content), fs2).
Proof.
  intros rp Hfs%wellFormed_spec Hjs Hjail Hdot Hrec Hnodir Hav Hin.
  destruct (write_then_read_wellFormed fs context js path content options now now1 now2)
    as (fs1 & Hwrite & _ & Hread); try done.
  exists fs1, (exec (read context path now1 now2) fs1). split; [done|].
  unfold outcome, exec in *. by destruct (read context path now1 now2 fs1) as [r fs2]; simplify_eq/=.
Qed.

(** The trees [write] and [read] leave are well formed again, so the round
    trip keeps the hypothesis it makes on the tree; the empty tree has it
    ([fresh_wellFormed]). *)
Lemma wellFormed_invariant (fs : Fs) (context : StoreContext) (js : list string)
    (path content : string) (options : WriteOptions) (now now1 now2 : Z) :
  let rp := resolveWithinJail (jail context) (pwd context) path in
  wellFormed fs = true ->
  validParts js = true -> jail context = absPath js ->
  noDot rp = true ->
  default true (wr_recursive options) = true ->
  isDirRef (getNode fs rp) = false ->
  hasPathAvailable fs (dirname rp) = true ->
  isNode (getParent fs rp) || withinJail (jail context) (dirname rp) = true ->
  wellFormed (exec (write context path content options now) fs) = true /\
  wellFormed (exec (read context path now1 now2)
               (exec (write context path content options now) fs)) = true.
Proof.
  intros rp Hfs%wellFormed_spec Hjs Hjail Hdot Hrec Hnodir Hav Hin.
  destruct (write_then_read_wellFormed fs context js path content options now now1 now2)
    as (fs1 & Hwrite & Hfs1 & _); try done.
  unfold exec at 1 3. rewrite Hwrite. cbn [snd].
  split; apply wellFormed_spec; [done | by apply read_wellFormed].
Qed.

(** C6 fails as stated: in the tree with the file ["/f"], the path ["/f/g"]
    names no directory, and [write] returns [PATH_UNAVAILABLE]. *)
Lemma write_under_a_file_counterexample :
  ~ (forall (fs : Fs) (context : StoreContext) (path content : string) (now now1 now2 : Z),
        wellFormed fs = true ->
        isDirRef (getNode fs (resolveWithinJail (jail context) (pwd context) path)) = false ->
        exists fs1 fs2,
          write context path content noWriteOptions now fs = (Val None, fs1) /\
          read context path now1 now2 fs1 = (Val (Ok content), fs2)).
Proof.
  intros H.
  destruct (H Scenario.oneFile rootContext "/f/g" "y" 2%Z 3%Z 4%Z eq_refl eq_refl)
    as (fs1 & fs2 & Hwrite & _).
  vm_compute in Hwrite. discriminate Hwrite.
Qed.

(** What the hypotheses of [write_then_read] keep out. A ["."] segment stays
    in the resolved path and [Path.join] drops it from the paths [mkdir]
    makes: the parent of the file is not found. After a removal, the
    [rebuildIndex] of [mkdir] throws at the hole. *)
Lemma write_throws_outside :
  outcome (write rootContext "/a/./b" "x" noWriteOptions 1) Scenario.fresh = Throw INVARIANT /\
  outcome (write rootContext "/g/h" "x" noWriteOptions 5) Scenario.removed = Throw INVARIANT /\
  wellFormed Scenario.removed = false.
Proof. repeat split; reflexivity. Qed.

Lemma write_then_read_witness :
  exists fs1 fs2,
    write rootContext "/a/b/c" "x" noWriteOptions 1 Scenario.fresh = (Val None, fs1) /\
    read rootContext "/a/b/c" 2 3 fs1 = (Val (Ok "x"), fs2).
Proof.
  apply (write_then_read Scenario.fresh rootContext [] "/a/b/c" "x" noWriteOptions 1%Z 2%Z 3%Z);
    reflexivity.
Defined.

End RoundTrip.

(** ** Laws of the path algebra *)

Module PathLaws.
Import PathVocab.
Import Path PathSpec PathFacts PathNormal PathChain PathNames.
#[local] Arguments String.append !s1 s2 : simpl nomatch.

(** X1. [resolve] returns a clean absolute path, whatever its arguments: a ["/"]
    followed by non-empty segments joined by single slashes. Such a path
    is a fixed point: resolving it again, from any base, returns it. *)
Theorem resolve_fixed base base' p :
  (exists parts, Forall (fun q => isPart q = true) parts /\ resolve base p = absPath parts) /\
  resolve base' (resolve base p) = resolve base p.
Proof.
  destruct (resolve_normal base p) as (parts & Hparts & ->).
  split; [by exists parts|].
  unfold resolve at 1. rewrite absPath_absolute. by apply cleanPath_absPath.
Qed.

(** The segments [join] keeps are components. *)
Lemma joinSegment_isPart p :
  slashFree p = true -> joinSegment p = true -> isPart p = true.
Proof.
  intros Hs Hj. unfold isPart, nonEmpty. rewrite Hs, andb_true_r.
  unfold joinSegment in Hj. by destruct (String.eqb p "").
Qed.

Lemma kept_isPart seg :
  Forall (fun p => isPart p = true) (filter (fun p => joinSegment p = true) (split seg)).
Proof.
  apply Forall_forall. intros p [Hj Hp]%list_elem_of_filter.
  apply joinSegment_isPart; [|done].
  pose proof (split_slashFree seg) as H. rewrite Forall_forall in H. by apply H.
Qed.

Lemma kept_joinSegment seg :
  Forall (fun p => joinSegment p = true) (filter (fun p => joinSegment p = true) (split seg)).
Proof. apply Forall_forall. by intros p [Hj Hp]%list_elem_of_filter. Qed.

Lemma filter_all {A} (f : A -> bool) l :
  Forall (fun p => f p = true) l -> filter (fun p => f p = true) l = l.
Proof.
  induction 1 as [|x l Hx _ IH]; [done|].
  rewrite filter_cons. destruct (decide (f x = true)); [by rewrite IH | done].
Qed.

Lemma startsWith_slash s : startsWith (String "/" s) "/" = true.
Proof. unfold startsWith. simpl. by destruct s. Qed.

Lemma startsWith_part p rest :
  isPart p = true -> startsWith (joinParts (p :: rest)) "/" = false.
Proof.
  intros [Hne Hs]%andb_prop. destruct p as [|c p]; [done|].
  apply slashFree_cons in Hs as [Hc _].
  assert (exists t, joinParts (String c p :: rest) = String c t) as [t ->].
  { destruct rest; [by eexists|]. rewrite joinParts_cons. by eexists. }
  unfold startsWith.
  change (String.prefix "/" (String c t))
    with (if ascii_dec "/" c then String.prefix "" t else false).
  destruct (ascii_dec "/" c) as [<-|]; [done|].
  done.
Qed.

(** The segments that [join] keeps of its own result are the segments it
    kept of its arguments. *)
Lemma kept_of_join x xs :
  filter (fun p => joinSegment p = true) (split (join (x :: xs)))
  = concat (map (fun seg => filter (fun p => joinSegment p = true) (split seg)) (x :: xs)).
Proof.
  unfold join.
  set (P := concat (map _ (x :: xs))).
  assert (HP : Forall (fun p => isPart p = true) P).
  { apply Forall_concat, Forall_forall. intros l (seg & -> & _)%list_elem_of_fmap.
    apply kept_isPart. }
  assert (HJ : Forall (fun p => joinSegment p = true) P).
  { apply Forall_concat, Forall_forall. intros l (seg & -> & _)%list_elem_of_fmap.
    apply kept_joinSegment. }
  destruct (startsWith x "/").
  - change ("/" +:+ joinParts P) with (absPath P).
    destruct P as [|p P']; [done|].
    rewrite split_absPath by done. rewrite filter_cons.
    destruct (decide _) as [E|_]; [done|]. by apply filter_all.
  - destruct P as [|p P']; [done|].
    rewrite split_joinParts; [by apply filter_all | by apply Forall_isPart_slashFree | done].
Qed.

Lemma startsWith_join x xs : startsWith (join (x :: xs)) "/" = startsWith x "/".
Proof.
  unfold join. set (P := concat (map _ (x :: xs))).
  assert (HP : Forall (fun p => isPart p = true) P).
  { apply Forall_concat, Forall_forall. intros l (seg & -> & _)%list_elem_of_fmap.
    apply kept_isPart. }
  destruct (startsWith x "/") eqn:E.
  - apply startsWith_slash.
  - destruct P as [|p P']; [done|]. apply startsWith_part. by inversion HP.
Qed.

(** X2. [join] of a first argument that is itself a [join] is the [join] of
    all the segments: joining is associative on the left, and joining a
    joined path alone returns it. *)
Theorem join_assoc x xs ys :
  join (join (x :: xs) :: ys) = join (x :: xs ++ ys) /\
  join [join (x :: xs)] = join (x :: xs).
Proof.
  assert (H : forall zs, join (join (x :: xs) :: zs) = join (x :: xs ++ zs)).
  { intros zs. unfold join at 1. rewrite startsWith_join.
    cbn [map concat]. rewrite kept_of_join.
    unfold join. cbn [map concat]. by rewrite map_app, concat_app, <- !(assoc_L (++)). }
  split; [apply H|]. rewrite H. by rewrite app_nil_r.
Qed.

(** *** [relative] *)

Lemma parts_absPath fs :
  Forall (fun p => isPart p = true) fs ->
  filter (fun p => nonEmpty p = true) (split (cleanPath (absPath fs))) = fs.
Proof.
  intros Hfs. rewrite cleanPath_absPath by done.
  destruct fs as [|f fs']; [done|].
  rewrite split_absPath by done. rewrite filter_cons.
  destruct (decide _) as [E|_]; [done|]. apply filter_all.
  eapply Forall_impl; [exact Hfs|]. by intros p [? _]%andb_prop.
Qed.

Lemma dropCommon_same l : dropCommon l l = ([], []).
Proof. induction l as [|a l IH]; [done|]. cbn. by rewrite String.eqb_refl. Qed.

Lemma dropCommon_prefix c l : dropCommon c (c ++ l) = ([], l).
Proof.
  induction c as [|a c IH]; [by destruct l|]. cbn. by rewrite String.eqb_refl.
Qed.

Lemma dropCommon_spec l1 l2 fr tr :
  dropCommon l1 l2 = (fr, tr) ->
  exists c, l1 = c ++ fr /\ l2 = c ++ tr /\ (fr = [] -> tr = [] -> l1 = l2).
Proof.
  revert l2. induction l1 as [|a l1 IH]; intros l2 H.
  - exists []. destruct l2; simplify_eq/=; by repeat split.
  - destruct l2 as [|b l2]; [exists []; simplify_eq/=; by repeat split|].
    cbn in H. destruct (String.eqb a b) eqn:E.
    + apply String.eqb_eq in E as ->. destruct (IH _ H) as (c & -> & -> & Hc).
      exists (b :: c). repeat split. intros ? ?. f_equal. by apply Hc.
    + exists []. simplify_eq/=. by repeat split.
Qed.

Lemma repeatUp_dots n : repeatUp (S n) = dots (S n) +:+ "/".
Proof.
  induction n as [|n IH]; [done|].
  change (repeatUp (S (S n))) with ("../" +:+ repeatUp (S n)). rewrite IH.
  unfold dots. cbn [replicate]. rewrite (joinParts_cons ".." ".."). 
  rewrite sapp_assoc. done.
Qed.

Lemma collapse_parts segs t :
  Forall (fun p => isPart p = true) segs -> segs <> [] ->
  collapseSlashes (joinParts segs +:+ t) = joinParts segs +:+ collapseSlashes t.
Proof.
  intros Hsegs Hne. destruct segs as [|p [|q rest]]; [done| |].
  - apply collapse_part_app, isPart_slashFree. by inversion Hsegs.
  - inversion Hsegs as [|? ? Hp Hrest]; subst.
    rewrite joinParts_cons, sapp_assoc.
    rewrite collapse_part_app by by apply isPart_slashFree.
    change (String "/" (joinParts (q :: rest)) +:+ t)
      with (String "/" (joinParts (q :: rest) +:+ t)).
    rewrite collapse_joinParts_app by done. by rewrite sapp_assoc.
Qed.

Lemma strip_parts segs :
  Forall (fun p => isPart p = true) segs -> segs <> [] ->
  stripTrailingSlash (joinParts segs) = joinParts segs.
Proof.
  intros Hsegs Hne. destruct segs as [|p [|q rest]]; [done| |].
  - apply strip_part, isPart_slashFree. by inversion Hsegs.
  - inversion Hsegs as [|? ? Hp Hrest]; subst.
    rewrite joinParts_cons, strip_app by done. by rewrite strip_joinParts.
Qed.

Lemma joinParts_ne segs :
  Forall (fun p => isPart p = true) segs -> segs <> [] -> joinParts segs <> "".
Proof.
  intros Hsegs Hne. destruct segs as [|p rest]; [done|].
  apply joinParts_nonempty. inversion Hsegs as [|? ? [? _]%andb_prop _]. done.
Qed.

Lemma cleanPath_parts segs :
  Forall (fun p => isPart p = true) segs -> segs <> [] ->
  cleanPath (joinParts segs) = joinParts segs /\
  cleanPath (joinParts segs +:+ "/") = joinParts segs.
Proof.
  intros Hsegs Hne. pose proof (joinParts_ne segs Hsegs Hne) as Hnn.
  assert (Hc : collapseSlashes (joinParts segs) = joinParts segs).
  { pose proof (collapse_parts segs "" Hsegs Hne) as H. by rewrite !sapp_nil_r in H. }
  unfold cleanPath. split.
  - rewrite Hc, strip_parts by done. by apply String.eqb_neq in Hnn as ->.
  - rewrite collapse_parts by done. cbn [collapseSlashes is_slash].
    rewrite strip_app by done. cbn [stripTrailingSlash]. 
    change (if is_slash "/" then "" else "/") with "". rewrite sapp_nil_r.
    by apply String.eqb_neq in Hnn as ->.
Qed.

Lemma dots_isPart n : Forall (fun p => isPart p = true) (replicate n "..").
Proof. apply Forall_replicate. done. Qed.

(** The text [relative] cleans, cleaned. *)
Lemma relative_text n tr :
  Forall (fun p => isPart p = true) tr -> (0 < n + length tr)%nat ->
  cleanPath (repeatUp n +:+ joinParts tr) = joinParts (replicate n ".." ++ tr).
Proof.
  intros Htr Hpos. destruct n as [|n].
  - destruct tr as [|t tr']; [cbn in Hpos; lia|].
    change (repeatUp 0 +:+ joinParts (t :: tr')) with (joinParts (t :: tr')).
    by apply cleanPath_parts.
  - rewrite repeatUp_dots. unfold dots. destruct tr as [|t tr'].
    + rewrite sapp_nil_r, app_nil_r. by apply cleanPath_parts; [apply dots_isPart|].
    + rewrite sapp_assoc.
      change ("/" +:+ joinParts (t :: tr')) with (String "/" (joinParts (t :: tr'))).
      rewrite <- joinParts_app by done.
      apply cleanPath_parts; [|done]. apply Forall_app. split; [apply dots_isPart | done].
Qed.

Lemma isPlain_isPart p : isPlain p = true -> isPart p = true.
Proof. intros [H _]%andb_prop. by apply isName_isPart. Qed.

Lemma foldl_push tr : forall st,
  Forall (fun p => isPlain p = true) tr -> foldl resolveStep st tr = st ++ tr.
Proof.
  induction tr as [|t tr IH]; intros st Htr; [by rewrite app_nil_r|].
  inversion Htr as [|? ? Ht Hrest]; subst. cbn [foldl]. rewrite IH by done.
  assert (resolveStep st t = st ++ [t]) as ->; [|by rewrite <- app_assoc].
  apply andb_prop in Ht as [[[Hne _]%andb_prop Hdot]%andb_prop Hdd].
  unfold resolveStep. apply negb_true_iff in Hdd as ->.
  rewrite Hdot. unfold nonEmpty in Hne. by rewrite Hne.
Qed.

(** The relative path of a child from its parent is its last component. *)
Lemma relative_child ps x :
  Forall (fun p => isPart p = true) (ps ++ [x]) ->
  relative (absPath ps) (absPath (ps ++ [x])) = x.
Proof.
  intros H. pose proof H as [Hps Hx]%Forall_app.
  unfold relative. rewrite !parts_absPath by done. rewrite dropCommon_prefix.
  change (repeatUp (length []) +:+ joinParts [x]) with (joinParts [x]).
  by apply cleanPath_parts.
Qed.

(** A plain name resolves to the child of the base. *)
Lemma resolve_child ps x :
  Forall (fun p => isPart p = true) ps -> isPlain x = true ->
  resolve (absPath ps) x = absPath (ps ++ [x]).
Proof.
  intros Hps Hx. pose proof (isPlain_isPart _ Hx) as Hpart.
  unfold resolve.
  assert (isAbsolute x = false) as ->.
  { change x with (joinParts [x]). by apply startsWith_part. }
  pose proof (parts_absPath ps Hps) as Hbase.
  rewrite cleanPath_absPath in Hbase by done. rewrite Hbase.
  rewrite split_part by by apply isPart_slashFree.
  rewrite (foldl_push [x]) by by repeat constructor.
  apply cleanPath_absPath. apply Forall_app. by repeat constructor.
Qed.

Lemma absPath_not_root p ps : nonEmpty p = true -> String.eqb (absPath (p :: ps)) "/" = false.
Proof.
  intros Hp. apply String.eqb_neq. unfold absPath. intros [= E].
  by apply (joinParts_nonempty p ps).
Qed.

(** X3. The round trip of [relative] and [resolve]: for two clean absolute
    paths that differ, the second with plain components, resolving the
    relative path from the first against the first gives the second. The
    relative path of a path to itself is ["/"], for every string: the
    [?? "."] of the source never applies. *)
Theorem relative_then_resolve (fs ts : list string) :
  Forall (fun p => isPart p = true) fs ->
  Forall (fun p => isPlain p = true) ts ->
  (fs <> ts -> resolve (absPath fs) (relative (absPath fs) (absPath ts)) = absPath ts) /\
  (forall p, relative p p = "/").
Proof.
  intros Hfs Hts. split.
  - intros Hne.
    assert (Hts' : Forall (fun p => isPart p = true) ts).
    { eapply Forall_impl; [exact Hts|]. apply isPlain_isPart. }
    unfold relative. rewrite !parts_absPath by done.
    destruct (dropCommon fs ts) as [fr tr] eqn:E.
    destruct (dropCommon_spec _ _ _ _ E) as (c & -> & -> & Hsame).
    apply Forall_app in Hts as [Hc Htr]. apply Forall_app in Hts' as [_ Htr'].
    rewrite relative_text; [|done|].
    2:{ destruct fr, tr; cbn; try lia. by destruct Hne; apply Hsame. }
    assert (Hsegs : Forall (fun p => isPart p = true) (replicate (length fr) ".." ++ tr)).
    { apply Forall_app. split; [apply dots_isPart | done]. }
    assert (Hnil : replicate (length fr) ".." ++ tr <> []).
    { destruct fr, tr; try done; by destruct Hne; apply Hsame. }
    unfold resolve.
    assert (isAbsolute (joinParts (replicate (length fr) ".." ++ tr)) = false) as ->.
    { destruct (replicate (length fr) ".." ++ tr) as [|p rest]; [done|].
      apply startsWith_part. by inversion Hsegs. }
    pose proof (parts_absPath _ Hfs) as Hbase. rewrite cleanPath_absPath in Hbase by done.
    rewrite Hbase, split_joinParts; [|by apply Forall_isPart_slashFree|done].
    rewrite foldl_app, resolveStep_dots.
    rewrite length_app, Nat.add_sub, take_app_length.
    rewrite foldl_push by done.
    apply cleanPath_absPath. apply Forall_app. split; [|done].
    eapply Forall_impl; [exact Hc|]. apply isPlain_isPart.
  - intros p. unfold relative. by rewrite dropCommon_same.
Qed.

Lemma relative_then_resolve_witness :
  resolve "/a/b" (relative "/a/b" "/a/c/d") = "/a/c/d" /\ relative "/a/b" "/a/b" = "/".
Proof.
  destruct (relative_then_resolve ["a"; "b"] ["a"; "c"; "d"]) as [H1 H2];
    [repeat constructor | repeat constructor |].
  split; [apply H1; discriminate | apply H2].
Defined.

End PathLaws.

Module PathNameLaws.
Import Path PathSpec PathFacts PathNormal PathChain PathNames PathVocab PathLaws.
#[local] Arguments String.append !s1 s2 : simpl nomatch.

Lemma filename_some path : exists name, filename path = Some name /\ slashFree name = true.
Proof.
  unfold filename. pose proof (split_nonempty path) as Hne.
  pose proof (split_slashFree path) as Hs.
  destruct (split path) as [|s l] using rev_ind; [done|].
  rewrite last_snoc. eexists. split; [done|].
  apply Forall_app in Hs as [_ Hs]. by inversion Hs.
Qed.

Lemma filename_absPath qs q :
  Forall (fun p => isPart p = true) (qs ++ [q]) ->
  filename (absPath (qs ++ [q])) = Some q.
Proof.
  intros H. unfold filename. rewrite split_absPath by (done || by destruct qs).
  by rewrite app_comm_cons, last_snoc.
Qed.

(** X4. [dirname] and [filename] take apart what [join] puts together, and
    [join] puts together what they take apart. *)
Theorem dirname_filename_join (qs : list string) (q : string) :
  Forall (fun p => isName p = true) (qs ++ [q]) ->
  dirname (join [absPath qs; q]) = absPath qs /\
  filename (join [absPath qs; q]) = Some q /\
  join [dirname (absPath (qs ++ [q])); q] = absPath (qs ++ [q]).
Proof.
  intros H. pose proof (Forall_isName_isPart _ H) as Hp.
  rewrite join_absPath by done. rewrite dirname_absPath by done.
  rewrite filename_absPath by done. by rewrite join_absPath.
Qed.

Lemma dirname_filename_join_witness :
  dirname (join ["/a/b"; "c"]) = "/a/b" /\
  filename (join ["/a/b"; "c"]) = Some "c" /\
  join [dirname "/a/b/c"; "c"] = "/a/b/c".
Proof. apply (dirname_filename_join ["a"; "b"] "c"). repeat constructor. Defined.

(** *** [ext] *)

Lemma lastIndexFrom_none c s : forall i,
  hasChar c s = false -> lastIndexFrom c i s = (-1)%Z.
Proof.
  induction s as [|d r IH]; intros i H; [done|].
  cbn in H. apply orb_false_iff in H as [Hd Hr].
  cbn [lastIndexFrom]. rewrite (IH _ Hr), Hd. done.
Qed.

Lemma lastIndexFrom_last c a b : forall i,
  (0 <= i)%Z -> hasChar c b = false ->
  lastIndexFrom c i (a +:+ String c b) = (i + Z.of_nat (String.length a))%Z.
Proof.
  induction a as [|d a IH]; intros i Hi Hb.
  - change ("" +:+ String c b) with (String c b). cbn [lastIndexFrom].
    rewrite (lastIndexFrom_none _ _ _ Hb), Ascii.eqb_refl. cbn. lia.
  - change (String d a +:+ String c b) with (String d (a +:+ String c b)).
    cbn [lastIndexFrom]. rewrite IH by (lia || done).
    destruct (Z.leb_spec 0 (i + 1 + Z.of_nat (String.length a))); [|lia].
    cbn [String.length]. lia.
Qed.

Lemma substring_length a s : substring (String.length a) (a +:+ s) = s.
Proof. induction a as [|d a IH]; [by destruct s|]. exact IH. Qed.

(** A string without the character, or its split at the last one. *)
Lemma last_char_split c s :
  hasChar c s = false \/
  exists a b, s = a +:+ String c b /\ hasChar c b = false.
Proof.
  induction s as [|d r IH]; [by left|].
  destruct IH as [Hr|(a & b & -> & Hb)].
  - cbn [hasChar]. rewrite Hr, orb_false_r.
    destruct (Ascii.eqb d c) eqn:E; [|by left].
    apply Ascii.eqb_eq in E as ->. right. by exists "", r.
  - right. by exists (String d a), b.
Qed.

(** X5. [ext] returns the suffix of the last segment that starts at its last
    dot, and nothing when the last segment has no dot. *)
Theorem ext_spec (path : string) :
  match ext path with
  | Some e =>
      exists stem rest,
        filename path = Some (stem +:+ e) /\ e = String "." rest /\ hasChar "." rest = false
  | None => exists name, filename path = Some name /\ hasChar "." name = false
  end.
Proof.
  destruct (filename_some path) as (name & Hname & _).
  unfold ext. rewrite Hname. cbn [mbind option_bind].
  destruct (last_char_split "." name) as [Hno|(a & b & -> & Hb)].
  - unfold lastIndexOf. rewrite (lastIndexFrom_none _ _ _ Hno). cbn. by exists name.
  - unfold lastIndexOf. rewrite lastIndexFrom_last by (lia || done).
    destruct (Z.leb_spec 0 (0 + Z.of_nat (String.length a))); [|lia].
    rewrite Z.add_0_l, Nat2Z.id, substring_length. by exists a, b.
Qed.

End PathNameLaws.

(** ** The outcomes of the methods of the engine *)

Module EngineContract.
Import EngineTerms.
Import MemoryFs EngineSpec MonadFacts EngineFacts Consistency Path.

(** X6. [utimes] then [stats]: a field given to [utimes] is the one [stats]
    reports, a field left out keeps its value, and nothing else changes. *)
Theorem utimes_then_stats (fs : Fs) (context : StoreContext) (path : string)
    (times : StoreNodeTime) (now : Z) (i : nat) (n : FsNode) :
  getNode fs (resolveWithinJail (jail context) (pwd context) path) = RNode i n ->
  exists fs' s,
    utimes context path times fs = (Val None, fs') /\
    stats context path now fs' = (Val (Ok s), fs') /\
    st_mtime s = default (default now (mtime (nodeStats n))) (mtime times) /\
    st_atime s = default (default now (atime (nodeStats n))) (atime times) /\
    st_ctime s = default (default now (ctime (nodeStats n))) (ctime times) /\
    st_btime s = default (default now (btime (nodeStats n))) (btime times) /\
    isFile s = isFileNode n /\ isDirectory s = isDirNode n /\
    index fs' = index fs /\
    (forall k, k <> i -> nodes fs' !! k = nodes fs !! k).
Proof.
  intros Hnode.
  set (n' := withStats (fun st => mergeTimes st times) n).
  exists (updated fs i (withStats (fun st => mergeTimes st times))).
  exists {| st_atime := default now (atime (nodeStats n'));
            st_btime := default now (btime (nodeStats n'));
            st_ctime := default now (ctime (nodeStats n'));
            st_mtime := default now (mtime (nodeStats n'));
            isFile := isFileNode n'; isDirectory := isDirNode n' |}.
  split; [|split].
  - unfold utimes. rewrite bind_get, Hnode. by rewrite bind_unfold, updateNode_run.
  - unfold stats. rewrite bind_get. erewrite getNode_updated by exact Hnode.
    by destruct (decide (i = i)).
  - subst n'. cbn [st_mtime st_atime st_ctime st_btime isFile isDirectory].
    assert (Hk : forall k, k <> i ->
              nodes (updated fs i (withStats (fun st => mergeTimes st times))) !! k
              = nodes fs !! k).
    { intros k Hk. cbn. by rewrite list_lookup_alter_ne. }
    destruct n as [p c st|p ch st]; cbn;
      destruct (mtime times), (atime times), (ctime times), (btime times); done.
Qed.

Lemma utimes_then_stats_witness :
  exists fs' s,
    utimes rootContext "/f" (mkTime (Some 7%Z) None None None) Scenario.oneFile
    = (Val None, fs') /\
    stats rootContext "/f" 9 fs' = (Val (Ok s), fs') /\
    st_mtime s = 7%Z /\ st_atime s = 1%Z /\ st_ctime s = 1%Z /\ st_btime s = 1%Z /\
    isFile s = true /\ isDirectory s = false /\
    index fs' = index Scenario.oneFile /\
    (forall k, k <> 1%nat -> nodes fs' !! k = nodes Scenario.oneFile !! k).
Proof.
  apply (utimes_then_stats Scenario.oneFile rootContext "/f"
           (mkTime (Some 7%Z) None None None) 9%Z 1%nat (FileNode "/f" "x" (allTimes 1))).
  reflexivity.
Defined.

(** X7. On a path that names no node, the reading operations and [utimes]
    return their error and [rm] and [rmdir] return [null]; the tree stays as
    it is. *)
Theorem missing_path_outcomes (fs : Fs) (context : StoreContext) (path : string) :
  isNode (getNode fs (resolveWithinJail (jail context) (pwd context) path)) = false ->
  (forall now1 now2,
     read context path now1 now2 fs = (Val (Err (mkErr FILE_NOT_FOUND)), fs)) /\
  (forall now, stats context path now fs = (Val (Err (mkErr PATH_NOT_FOUND)), fs)) /\
  readdir context path fs = (Val (Err (mkErr PATH_NOT_FOUND)), fs) /\
  (forall times, utimes context path times fs = (Val (Some (mkErr PATH_NOT_FOUND)), fs)) /\
  (forall fuel options now1 now2,
     rm (S fuel) context path options now1 now2 fs = (Val None, fs)) /\
  (forall fuel options now1 now2,
     rmdir fuel context path options now1 now2 fs = (Val None, fs)).
Proof.
  intros H. unfold read, stats, readdir, utimes, rmdir. cbn [rm].
  repeat split; intros; rewrite bind_get;
    by destruct (getNode fs _) as [| |? ?].
Qed.

Lemma missing_path_outcomes_witness :
  (forall now1 now2,
     read rootContext "/nope" now1 now2 Scenario.oneFile
     = (Val (Err (mkErr FILE_NOT_FOUND)), Scenario.oneFile)) /\
  (forall now,
     stats rootContext "/nope" now Scenario.oneFile
     = (Val (Err (mkErr PATH_NOT_FOUND)), Scenario.oneFile)) /\
  readdir rootContext "/nope" Scenario.oneFile
  = (Val (Err (mkErr PATH_NOT_FOUND)), Scenario.oneFile) /\
  (forall times,
     utimes rootContext "/nope" times Scenario.oneFile
     = (Val (Some (mkErr PATH_NOT_FOUND)), Scenario.oneFile)) /\
  (forall fuel options now1 now2,
     rm (S fuel) rootContext "/nope" options now1 now2 Scenario.oneFile
     = (Val None, Scenario.oneFile)) /\
  (forall fuel options now1 now2,
     rmdir fuel rootContext "/nope" options now1 now2 Scenario.oneFile
     = (Val None, Scenario.oneFile)).
Proof. apply (missing_path_outcomes Scenario.oneFile rootContext "/nope"). reflexivity. Defined.

(** X8. On a node of the wrong kind: a directory is no file to [read], [write]
    or [rm], a file is no directory to [readdir], [mkdir] or [rmdir]; a
    directory that is there is what [mkdir] wants. The tree stays as it
    is. *)
Theorem wrong_kind_outcomes (fs : Fs) (context : StoreContext) (path : string) :
  let rp := resolveWithinJail (jail context) (pwd context) path in
  (isDirRef (getNode fs rp) = true ->
     (forall now1 now2,
        read context path now1 now2 fs = (Val (Err (mkErr FILE_NOT_FOUND)), fs)) /\
     (forall content options now,
        write context path content options now fs = (Val (Some (mkErr PATH_NOT_FOUND)), fs)) /\
     (forall options now, mkdir context path options now fs = (Val None, fs)) /\
     (forall fuel options now1 now2,
        default false (rm_recursive options) = false ->
        rm (S fuel) context path options now1 now2 fs = (Val (Some (mkErr DIR_EXISTS)), fs))) /\
  (isFileRef (getNode fs rp) = true ->
     readdir context path fs = (Val (Err (mkErr NOT_A_DIR)), fs) /\
     (forall options now,
        mkdir context path options now fs = (Val (Some (mkErr FILE_EXISTS)), fs)) /\
     (forall fuel options now1 now2,
        rmdir fuel context path options now1 now2 fs
        = (Val (Some (mkErr PATH_NOT_FOUND)), fs))).
Proof.
  intros rp. unfold read, write, mkdir, readdir, rmdir. cbn [rm]. fold rp.
  split; intros H; repeat split; intros; rewrite bind_get;
    destruct (getNode fs rp) as [| |? [? ? ?|? ? ?]]; try done.
  match goal with H : default false _ = false |- _ => by rewrite H end.
Qed.

Lemma wrong_kind_outcomes_witness :
  write rootContext "/d" "y" noWriteOptions 2 Scenario.oneDir
  = (Val (Some (mkErr PATH_NOT_FOUND)), Scenario.oneDir) /\
  rm 1 rootContext "/d" nonRecursive 2 3 Scenario.oneDir
  = (Val (Some (mkErr DIR_EXISTS)), Scenario.oneDir) /\
  readdir rootContext "/d/f" Scenario.oneDir = (Val (Err (mkErr NOT_A_DIR)), Scenario.oneDir) /\
  mkdir rootContext "/d/f" noMkdirOptions 2 Scenario.oneDir
  = (Val (Some (mkErr FILE_EXISTS)), Scenario.oneDir).
Proof.
  destruct (wrong_kind_outcomes Scenario.oneDir rootContext "/d") as [Hdir _].
  destruct (wrong_kind_outcomes Scenario.oneDir rootContext "/d/f") as [_ Hfile].
  destruct (Hdir eq_refl) as (_ & Hwrite & _ & Hrm).
  destruct (Hfile eq_refl) as (Hreaddir & Hmkdir & _).
  split; [apply Hwrite|]. split; [by apply Hrm|]. split; [apply Hreaddir | apply Hmkdir].
Defined.

(** *** [rm] of a file *)

Lemma deleteNode_run fs p i :
  index fs !! p = Some i -> deleteNode p fs = (Val tt, deleted fs i).
Proof. intros H. unfold deleteNode. by rewrite bind_get, H. Qed.

Lemma rebuildIndex_reindexed fs :
  rebuildIndex fs
  = ((if (length (nodes fs) - length (live fs) =? 0)%nat then Val tt else Throw INVARIANT),
     reindexed fs).
Proof.
  unfold rebuildIndex. rewrite bind_get, bind_put. unfold invariant, reindexed, live.
  by destruct (_ =? 0)%nat.
Qed.

Lemma live_length_le (l : list (option FsNode)) : (length (omap id l) <= length l)%nat.
Proof. induction l as [|[n|] l IH]; cbn; lia. Qed.

Lemma live_length_hole (l : list (option FsNode)) i :
  l !! i = Some None -> (length (omap id l) < length l)%nat.
Proof.
  revert i. induction l as [|x l IH]; intros i H; [done|].
  destruct i as [|i]; simplify_eq/=.
  - pose proof (live_length_le l). lia.
  - specialize (IH _ H). destruct x; cbn; lia.
Qed.

Lemma rebuildIndex_hole fs i :
  nodes fs !! i = Some None -> rebuildIndex fs = (Throw INVARIANT, reindexed fs).
Proof.
  intros H. rewrite rebuildIndex_reindexed.
  apply live_length_hole in H. unfold live.
  destruct (Nat.eqb_spec (length (nodes fs) - length (omap id (nodes fs))) 0); [lia|done].
Qed.

Lemma indexOf_None l p : p ∉ nodePath <$> l -> indexOf l !! p = None.
Proof.
  intros H. destruct (indexOf l !! p) as [i|] eqn:E; [|done].
  apply indexOf_sound in E as (n & Hn & <-). destruct H.
  apply list_elem_of_fmap. exists n. split; [done|]. by eapply list_elem_of_lookup_2.
Qed.

Lemma live_paths_deleted (l : list FsNode) i n :
  l !! i = Some n -> NoDup (nodePath <$> l) ->
  nodePath n ∉ nodePath <$> omap id (<[i := None]> (Some <$> l)).
Proof.
  revert i. induction l as [|m l IH]; intros i Hi Hnd; [done|].
  apply NoDup_cons in Hnd as [Hm Hnd]. destruct i as [|i]; simplify_eq/=.
  - assert (omap id (Some <$> l) = l) as ->; [|done].
    clear. induction l as [|x l IH]; [done|]. cbn. by rewrite IH.
  - apply not_elem_of_cons. split; [|by eapply IH].
    intros E. apply Hm. rewrite <- E. apply list_elem_of_fmap.
    exists n. split; [done|]. by eapply list_elem_of_lookup_2.
Qed.

Lemma live_paths_alter (l : list (option FsNode)) j f :
  (forall n, nodePath (f n) = nodePath n) ->
  nodePath <$> omap id (alter (fmap f) j l) = nodePath <$> omap id l.
Proof.
  intros Hf. revert j. induction l as [|x l IH]; intros j; [done|].
  destruct j as [|j]; cbn.
  - destruct x as [n|]; cbn; [by rewrite Hf | done].
  - destruct x as [n|]; cbn; by rewrite IH.
Qed.

Lemma deleted_lookup_ne fs i j : i <> j -> nodes (deleted fs i) !! j = nodes fs !! j.
Proof. intros H. cbn. by rewrite list_lookup_insert_ne. Qed.

Lemma deleted_lookup_eq fs i :
  (i < length (nodes fs))%nat -> nodes (deleted fs i) !! i = Some None.
Proof. intros H. cbn. by rewrite list_lookup_insert_eq. Qed.

Lemma touchParent_run fs path ts :
  touchParent path ts fs
  = match getParent fs path with
    | RNode j (DirNode _ _ _) => (Val tt, updated fs j (withStats (setMtime ts)))
    | _ => (Throw INVARIANT, fs)
    end.
Proof.
  unfold touchParent. rewrite bind_get.
  by destruct (getParent fs path) as [| |j [|]].
Qed.

(** The parent [rm] touches after the deletion of slot [i], which held a
    file, is a directory when it was one before. *)
Lemma getParent_deleted fs path i p c st :
  nodes fs !! i = Some (Some (FileNode p c st)) ->
  match getParent fs path with
  | RNode j (DirNode pp ch pst) =>
      i <> j /\ getParent (deleted fs i) path = RNode j (DirNode pp ch pst)
  | _ => isDirRef (getParent (deleted fs i) path) = false
  end.
Proof.
  intros Hslot. pose proof (lookup_lt_Some _ _ _ Hslot) as Hlt.
  destruct (getParent fs path) as [| |j [pp pc pst|pp ch pst]] eqn:Eparent.
  4:{ pose proof Eparent as [Hpi Hpn]%getNode_RNode.
      assert (Hij : i <> j) by (intros ->; congruence).
      split; [done|]. apply getNode_RNode. split; [done|]. by rewrite deleted_lookup_ne. }
  all: destruct (getParent (deleted fs i) path) as [| |k [|qq qch qst]] eqn:E; try done.
  all: apply getNode_RNode in E as [Ek En].
  all: destruct (decide (i = k)) as [->|Hik]; [by rewrite deleted_lookup_eq in En|].
  all: rewrite deleted_lookup_ne in En by done.
  all: assert (getParent fs path = RNode k (DirNode qq qch qst)) by (by apply getNode_RNode).
  all: congruence.
Qed.

(** X9. [rm] of a file, in a consistent tree. The node is deleted first; the
    parent whose [mtime] is then touched is the parent of the raw [path]
    argument, and a missing one throws; the index rebuild then finds the
    hole and throws. [rm] returns only when the rebuild is disabled; either
    way the path names no node afterwards. *)
Theorem rm_file (fs : Fs) (context : StoreContext) (path : string) (options : RmOptions)
    (fuel : nat) (now1 now2 : Z) (i : nat) (p c : string) (st : StoreNodeTime) :
  let rp := resolveWithinJail (jail context) (pwd context) path in
  consistent fs = true ->
  getNode fs rp = RNode i (FileNode p c st) ->
  outcome (rm (S fuel) context path options now1 now2) fs
  = (if isDirRef (getParent fs path) && negb (default true (rm_rebuildIndex options))
     then Val None else Throw INVARIANT) /\
  isNode (getNode (exec (rm (S fuel) context path options now1 now2) fs) rp) = false.
Proof.
  intros rp Hcons%consistent_spec Hnode.
  pose proof (consistent_node_path fs Hcons _ _ _ Hnode) as Hp. cbn [nodePath] in Hp.
  pose proof Hnode as [Hidx Hslot]%getNode_RNode. rewrite <- Hp in Hidx.
  pose proof (lookup_lt_Some _ _ _ Hslot) as Hlt.
  assert (Hhole : forall fs', index fs' = index fs -> nodes fs' !! i = Some None ->
                    isNode (getNode fs' rp) = false).
  { intros fs' Hi Hn. unfold getNode. by rewrite <- Hp, Hi, Hidx, Hn. }
  set (ts := default now2 (rm_timestamp options)).
  assert (Hrun : rm (S fuel) context path options now1 now2 fs
                 = (touchParent path ts;;
                    (if default true (rm_rebuildIndex options) then rebuildIndex else mret tt);;
                    mret None) (deleted fs i)).
  { cbn [rm]. fold rp. rewrite bind_get, Hnode.
    by rewrite bind_unfold, (deleteNode_run _ _ _ Hidx). }
  unfold outcome, exec. rewrite Hrun. clear Hrun.
  rewrite bind_unfold, touchParent_run.
  pose proof (getParent_deleted fs path i p c st Hslot) as Hparent.
  destruct (getParent fs path) as [| |j [pp pc pst|pp ch pst]] eqn:Eparent; cbn [isDirRef andb].
  4:{ destruct Hparent as [Hij ->].
      set (U := updated (deleted fs i) j _).
      assert (HU : nodes U !! i = Some None).
      { subst U. cbn [updated nodes]. rewrite list_lookup_alter_ne by done.
        by apply deleted_lookup_eq. }
      destruct (default true (rm_rebuildIndex options)); cbn [negb].
      - rewrite bind_unfold, (rebuildIndex_hole _ _ HU). cbn [fst snd]. split; [done|].
        unfold getNode. rewrite <- Hp. cbn [reindexed index].
        rewrite indexOf_None; [done|].
        unfold sortNodes. rewrite (sortBy_Permutation _ (live U)).
        subst U. unfold live. cbn [updated nodes].
        rewrite live_paths_alter by by intros [].
        cbn [deleted nodes]. rewrite (consistent_nodes_live fs Hcons).
        change p with (nodePath (FileNode p c st)).
        apply live_paths_deleted; [|by apply consistent_paths_NoDup].
        by apply (consistent_live_lookup fs Hcons).
      - cbn [fst snd]. split; [done|]. by apply Hhole. }
  all: destruct (getParent (deleted fs i) path) as [| |k [|]]; try done.
  all: cbn [fst snd]; split; [done|]; apply Hhole; [done|by apply deleted_lookup_eq].
Qed.

Lemma rm_file_witness :
  outcome (rm 1 rootContext "/f" noRebuild 2 3) Scenario.oneFile = Val None /\
  isNode (getNode (exec (rm 1 rootContext "/f" noRebuild 2 3) Scenario.oneFile) "/f") = false.
Proof.
  apply (rm_file Scenario.oneFile rootContext "/f" noRebuild 0%nat 2%Z 3%Z
           1%nat "/f" "x" (allTimes 1)); reflexivity.
Defined.

End EngineContract.

(** ** What every method of the engine keeps *)

Module Preservation.
Import MemoryFs EngineSpec EngineTerms MonadFacts EngineFacts Consistency Path.
Import EngineContract.

Section Preserved.
Context {okPath okTarget : string -> Prop} {I : Fs -> Prop}
  (HI : Closed okPath okTarget I).

Lemma exec_bind {A B} (m : M A) (k : A -> M B) fs :
  exec (m ≫= k) fs
  = match outcome m fs with
    | Val a => exec (k a) (exec m fs)
    | Throw _ => exec m fs
    end.
Proof.
  unfold exec, outcome. rewrite bind_unfold. by destruct (m fs) as [[a|e] fs'].
Qed.

Lemma preserved_bind {A B} (m : M A) (k : A -> M B) :
  preserved I m -> (forall a, preserved I (k a)) -> preserved I (m ≫= k).
Proof.
  intros Hm Hk fs Hfs. rewrite exec_bind.
  destruct (outcome m fs); [apply Hk|]; by apply Hm.
Qed.

Lemma preserved_get {A} (k : Fs -> M A) :
  (forall fs, I fs -> I (exec (k fs) fs)) -> preserved I (get ≫= k).
Proof. intros Hk fs Hfs. unfold exec. rewrite bind_get. by apply Hk. Qed.

Lemma preserved_ret {A} (a : A) : preserved I (mret a).
Proof. by intros fs Hfs. Qed.

Lemma preserved_throw {A} e : preserved I (throw e : M A).
Proof. by intros fs Hfs. Qed.

Lemma preserved_forEach {A} (l : list A) (body : A -> M unit) :
  (forall x, x ∈ l -> preserved I (body x)) -> preserved I (forEach l body).
Proof.
  induction l as [|x l IH]; intros Hbody; [apply preserved_ret|].
  cbn [forEach]. apply preserved_bind; [apply Hbody; left|].
  intros _. apply IH. intros y Hy. apply Hbody. by right.
Qed.

Lemma preserved_stats i g : preserved I (updateNode i (withStats g)).
Proof. intros fs Hfs. by apply (closed_stats _ _ _ HI). Qed.

Lemma preserved_rebuildIndex : preserved I rebuildIndex.
Proof.
  intros fs Hfs. unfold exec. rewrite rebuildIndex_reindexed. by apply (closed_reindex _ _ _ HI).
Qed.

Lemma addNode_keeps node ts rebuild fs :
  okPath (nodePath node) -> nodeChildren node = [] ->
  isNode (getNode fs (nodePath node)) = false \/ okTarget (nodePath node) ->
  I fs -> I (exec (addNode node ts rebuild) fs).
Proof.
  intros Hok Hch Hnew Hfs. unfold exec, addNode.
  rewrite bind_modify, bind_get. fold (appended fs node).
  destruct (getNode (appended fs node) _) as [| |j [|p ch st]];
    try by apply (closed_append _ _ _ HI).
  rewrite bind_unfold, updateNode_run.
  fold (adopt (nodePath node) ts).
  assert (I (updated (appended fs node) j (adopt (nodePath node) ts)))
    by by apply (closed_adopt _ _ _ HI).
  destruct rebuild; [|done]. by apply preserved_rebuildIndex.
Qed.

Lemma preserved_read context path now1 now2 : preserved I (read context path now1 now2).
Proof.
  unfold read. apply preserved_get. intros fs Hfs.
  destruct (getNode fs _) as [| |i [p c st|]]; try done.
  apply preserved_bind; [apply preserved_stats | intros _ | done].
  apply preserved_get. intros fs' Hfs'.
  destruct (getNode fs' _); try done.
  apply preserved_bind; [apply preserved_stats | intros _; apply preserved_ret | done].
Qed.

Lemma preserved_stats_op context path now : preserved I (stats context path now).
Proof.
  unfold stats. apply preserved_get. intros fs Hfs. by destruct (getNode fs _).
Qed.

Lemma preserved_readdir context path : preserved I (readdir context path).
Proof.
  unfold readdir. apply preserved_get. intros fs Hfs.
  by destruct (getNode fs _) as [| |i [|]].
Qed.

Lemma preserved_utimes context path times : preserved I (utimes context path times).
Proof.
  unfold utimes. apply preserved_get. intros fs Hfs.
  destruct (getNode fs _); try done.
  apply preserved_bind; [apply preserved_stats | intros _; apply preserved_ret | done].
Qed.

Lemma preserved_mkdir context path options now :
  okContext okPath context -> preserved I (mkdir context path options now).
Proof.
  intros Hctx. unfold mkdir. apply preserved_get. intros fs Hfs.
  set (rp := resolveWithinJail (jail context) (pwd context) path).
  destruct (getNode fs rp) as [| |i [|]] eqn:Enode; [| |done..].
  all: destruct (negb (default true (mk_recursive options))).
  1,3: destruct (getNode fs (dirname rp)) as [| |j [|]]; try done.
  1,2: rewrite exec_bind.
  1,2: assert (I (exec (addNode (DirNode rp [] (allTimes (default now (mk_timestamp options))))
                          (default now (mk_timestamp options)) false) fs))
         by (apply addNode_keeps; [apply Hctx|done|left; cbn [nodePath]; by rewrite Enode|done]).
  1,2: by destruct (outcome _ fs).
  all: destruct (negb (hasPathAvailable fs rp)); [done|].
  all: (apply preserved_bind; [|intros _; apply preserved_bind;
                                  [apply preserved_rebuildIndex
                                  |intros _; apply preserved_ret]|done]).
  all: apply preserved_forEach; intros p Hp; apply preserved_get; intros fs' Hfs'.
  all: destruct (getNode fs' p) eqn:Ep; try done.
  all: apply addNode_keeps; [|done|left; cbn [nodePath]; by rewrite Ep|done].
  all: by apply (closed_paths _ _ _ HI) in Hp.
Qed.

Lemma preserved_write context path content options now :
  okContext okPath context ->
  okTarget (resolveWithinJail (jail context) (pwd context) path) ->
  preserved I (write context path content options now).
Proof.
  intros Hctx Htarget. unfold write. apply preserved_get. intros fs Hfs.
  set (rp := resolveWithinJail (jail context) (pwd context) path) in *.
  set (ts := default now (wr_timestamp options)).
  assert (Hadd : preserved I
            (addNode (FileNode rp content (allTimes ts)) ts false;;
             mret (None : option StoreErr))).
  { intros fs' Hfs'. rewrite exec_bind.
    assert (I (exec (addNode (FileNode rp content (allTimes ts)) ts false) fs'))
      by (apply addNode_keeps; [apply Hctx|done|by right|done]).
    by destruct (outcome _ fs'). }
  destruct (getNode fs rp) as [| |i [p c st|p ch st]] eqn:Enode; [| | |done].
  1,2: destruct (getParent fs rp) as [| |j [|]]; try done; try by apply Hadd.
  1,2: destruct (default true (wr_recursive options)); [|done].
  1,2: apply preserved_bind; [by apply preserved_mkdir| |done].
  1,2: intros [err|]; [apply preserved_ret|].
  1,2: apply preserved_get; intros fs' Hfs'.
  1,2: apply preserved_bind; [|intros _; apply Hadd|done].
  1,2: intros fs'' Hfs''; by destruct (isDirRef _).
  rewrite exec_bind.
  assert (Hover : I (updated fs i (overwrite content ts)))
    by by apply (closed_content _ _ _ HI fs rp i p c st).
  change (outcome (updateNode i _) fs) with (Val tt : Res unit).
  change (exec (updateNode i _) fs) with (updated fs i (overwrite content ts)).
  revert Hover. generalize (updated fs i (overwrite content ts)).
  apply preserved_get. intros fs' Hfs'.
  destruct (getParent fs' rp) as [| |j [|]]; try done.
  apply preserved_bind; [apply preserved_stats | intros _; apply preserved_ret | done].
Qed.

(** With the deletion of a slot, [rm] and [rmdir] too. *)
Context (Hdelete : forall fs i, I fs -> I (deleted fs i)).

Lemma preserved_deleteNode p : preserved I (deleteNode p).
Proof.
  unfold deleteNode. apply preserved_get. intros fs Hfs.
  destruct (index fs !! p) as [i|]; [|done]. by apply Hdelete.
Qed.

Lemma preserved_touchParent path ts : preserved I (touchParent path ts).
Proof.
  unfold touchParent. apply preserved_get. intros fs Hfs.
  destruct (getParent fs path) as [| |j [|]]; try done. by apply preserved_stats.
Qed.

Lemma preserved_rm fuel : forall context path options now1 now2,
  preserved I (rm fuel context path options now1 now2).
Proof.
  induction fuel as [|fuel IH]; intros context path options now1 now2;
    [by intros fs Hfs|].
  cbn [rm]. apply preserved_get. intros fs Hfs.
  assert (Hend : preserved I
            (touchParent path (default now2 (rm_timestamp options));;
             (if default true (rm_rebuildIndex options) then rebuildIndex else mret tt);;
             mret (None : option StoreErr))).
  { apply preserved_bind; [apply preserved_touchParent|intros _].
    apply preserved_bind; [|intros _; apply preserved_ret].
    destruct (default true _); [apply preserved_rebuildIndex | apply preserved_ret]. }
  destruct (getNode fs _) as [| |i [p c st|p ch st]]; try done.
  - apply preserved_bind; [apply preserved_deleteNode | intros _; apply Hend | done].
  - destruct (default false (rm_recursive options)); [|done].
    apply preserved_bind; [|intros _|done].
    + apply preserved_forEach. intros n _.
      apply preserved_bind; [apply IH | intros _; apply preserved_ret].
    + apply preserved_bind; [apply preserved_deleteNode | intros _; apply Hend].
Qed.

Lemma preserved_rmdir fuel context path options now1 now2 :
  preserved I (rmdir fuel context path options now1 now2).
Proof.
  unfold rmdir. apply preserved_get. intros fs Hfs.
  destruct (getNode fs _) as [| |i [p c st|p ch st]]; try done.
  destruct (length ch =? 0)%nat; by apply preserved_rm.
Qed.


End Preserved.
End Preservation.

(** ** [rmdir] of a directory *)

Module Removal.
Import MemoryFs EngineSpec EngineTerms MonadFacts EngineFacts Consistency Path
  EngineContract Preservation.

Lemma sameSlots_touchParent fs0 path ts : preserved (sameSlots fs0) (touchParent path ts).
Proof.
  intros fs [Hi Hl]. unfold exec. rewrite touchParent_run.
  destruct (getParent fs path) as [| |j [|]]; try done.
  split; [done|]. cbn [snd updated nodes]. by rewrite length_alter.
Qed.

Lemma sameSlots_deleteNode fs0 p : preserved (sameSlots fs0) (deleteNode p).
Proof.
  unfold deleteNode. apply preserved_get. intros fs [Hi Hl].
  destruct (index fs !! p) as [i|]; [|done].
  split; [done|]. cbn. by rewrite length_insert.
Qed.

(** [rm] without the index rebuild keeps the index and the number of
    slots. *)
Lemma sameSlots_rm fs0 fuel : forall context path options now1 now2,
  default true (rm_rebuildIndex options) = false ->
  preserved (sameSlots fs0) (rm fuel context path options now1 now2).
Proof.
  induction fuel as [|fuel IH]; intros context path options now1 now2 Hrb;
    [by intros fs Hfs|].
  cbn [rm]. rewrite Hrb. apply preserved_get. intros fs Hfs.
  destruct (getNode fs _) as [| |i [p c st|p ch st]]; try done.
  - apply preserved_bind; [apply sameSlots_deleteNode | intros _ | done].
    apply preserved_bind; [apply sameSlots_touchParent | intros _].
    apply preserved_bind; [apply preserved_ret | intros _; apply preserved_ret].
  - destruct (default false (rm_recursive options)); [|done].
    apply preserved_bind; [|intros _ | done].
    { apply preserved_forEach. intros n _.
      apply preserved_bind; [by apply IH | intros _; apply preserved_ret]. }
    apply preserved_bind; [apply sameSlots_deleteNode | intros _].
    apply preserved_bind; [apply sameSlots_touchParent | intros _].
    apply preserved_bind; [apply preserved_ret | intros _; apply preserved_ret].
Qed.

(** X26. [rmdir] of a directory never returns [null]. On an empty directory
    it calls [rm] without options, which refuses a directory: it returns
    [DIR_EXISTS] and the tree stays as it is. On a directory with
    children, in a consistent tree, it calls the recursive [rm] with the
    index rebuild, which throws at the hole the directory left, if not
    before. *)
Theorem rmdir_of_a_directory (fs : Fs) (context : StoreContext) (path : string)
    (options : RmOptions) (now1 now2 : Z) (i : nat) (p : string) (ch : list string)
    (st : StoreNodeTime) :
  getNode fs (resolveWithinJail (jail context) (pwd context) path) = RNode i (DirNode p ch st) ->
  (ch = [] ->
   forall fuel,
     rmdir (S fuel) context path options now1 now2 fs = (Val (Some (mkErr DIR_EXISTS)), fs)) /\
  (ch <> [] -> consistent fs = true ->
   forall fuel, exists e, outcome (rmdir fuel context path options now1 now2) fs = Throw e).
Proof.
  intros Hnode. split.
  - intros -> fuel. unfold rmdir. rewrite bind_get, Hnode. cbn [length Nat.eqb rm noRmOptions].
    by rewrite bind_get, Hnode.
  - intros Hch Hcons%consistent_spec fuel.
    unfold outcome, rmdir. rewrite bind_get, Hnode.
    destruct ch as [|c ch]; [done|]. cbn [length Nat.eqb].
    destruct fuel as [|fuel]; [by eexists|].
    cbn [rm rm_recursive rm_timestamp rm_rebuildIndex default from_option id].
    rewrite bind_get, Hnode.
    set (inner := forEach _ _).
    assert (Hinner : sameSlots fs (exec inner fs)).
    { apply preserved_forEach; [|done]. intros n _.
      apply preserved_bind; [by apply sameSlots_rm | intros _; apply preserved_ret]. }
    rewrite bind_unfold. unfold exec in Hinner.
    destruct (inner fs) as [[[]|e] fs1]; [|by eexists]. cbn [snd] in Hinner.
    destruct Hinner as [Hidx Hlen].
    pose proof (consistent_node_path fs Hcons _ _ _ Hnode) as Hp. cbn [nodePath] in Hp.
    pose proof Hnode as [Hi Hslot]%getNode_RNode. rewrite <- Hp in Hi.
    pose proof (lookup_lt_Some _ _ _ Hslot) as Hlt.
    rewrite bind_unfold, (deleteNode_run fs1 p i) by by rewrite Hidx.
    rewrite bind_unfold, touchParent_run.
    destruct (getParent (deleted fs1 i) path) as [| |j [|pp pch pst]]; try by eexists.
    rewrite bind_unfold.
    rewrite (rebuildIndex_hole _ i); [by eexists|].
    cbn [updated deleted nodes].
    destruct (decide (j = i)) as [->|Hne].
    + rewrite list_lookup_alter_eq, list_lookup_insert_eq by lia. done.
    + rewrite list_lookup_alter_ne, list_lookup_insert_eq by (done || lia). done.
Qed.

Lemma rmdir_of_a_directory_witness :
  rmdir 1 rootContext "/a/b/c" nonRecursive 2 3 Scenario.nested
  = (Val (Some (mkErr DIR_EXISTS)), Scenario.nested) /\
  exists e, outcome (rmdir 3 rootContext "/a" recursiveRm 2 3) Scenario.nested = Throw e.
Proof.
  split.
  - apply (rmdir_of_a_directory Scenario.nested rootContext "/a/b/c" nonRecursive 2%Z 3%Z
             3%nat "/a/b/c" [] (allTimes 1)); reflexivity.
  - apply (rmdir_of_a_directory Scenario.nested rootContext "/a" recursiveRm 2%Z 3%Z
             1%nat "/a" ["/a/b"] (setMtime 1 (allTimes 1)));
      [reflexivity | discriminate | reflexivity].
Defined.

End Removal.

(** ** The order of the children *)

Module SortFacts.
Import EngineTerms.

Lemma ltb_lt a b : String.ltb a b = true <-> OrdersEx.String_as_OT.lt a b.
Proof.
  unfold String.ltb, OrdersEx.String_as_OT.lt.
  change (OrdersEx.String_as_OT.compare a b) with (String.compare a b).
  by destruct (String.compare a b).
Qed.

Lemma ltb_asym a b : String.ltb a b = true -> String.ltb b a = false.
Proof.
  intros Hab%ltb_lt. apply not_true_is_false. intros Hba%ltb_lt.
  destruct OrdersEx.String_as_OT.lt_strorder as [Hirr Htr].
  by apply (Hirr a), (Htr a b a).
Qed.

Lemma ltb_trans a b c : String.ltb a b = true -> String.ltb b c = true -> String.ltb a c = true.
Proof.
  intros Hab%ltb_lt Hbc%ltb_lt. apply ltb_lt.
  destruct OrdersEx.String_as_OT.lt_strorder as [Hirr Htr]. by apply (Htr a b c).
Qed.

(** [x] before [y], and [y] not after [z]: [x] is not after [z]. *)
Lemma strLe_lt_le x y z : String.ltb x y = true -> strLe y z -> strLe x z.
Proof.
  intros Hxy Hyz. unfold strLe in *. apply not_true_is_false. intros Hzx.
  by rewrite (ltb_trans _ _ _ Hzx Hxy) in Hyz.
Qed.

Lemma insertSorted_sorted x l :
  StronglySorted strLe l -> StronglySorted strLe (insertSorted String.ltb x l).
Proof.
  induction 1 as [|y l Hl IH Hy]; [by repeat constructor|].
  cbn [insertSorted]. destruct (String.ltb x y) eqn:E.
  - constructor; [by constructor|]. constructor; [by apply ltb_asym|].
    eapply Forall_impl; [exact Hy|]. intros z Hz. by eapply strLe_lt_le.
  - constructor; [done|].
    rewrite (Consistency.insertSorted_Permutation String.ltb x l). by constructor.
Qed.

Lemma sortStrings_sorted l : StronglySorted strLe (sortStrings l).
Proof.
  unfold sortStrings, sortBy. induction l as [|x l IH]; [constructor|].
  cbn [foldr]. by apply insertSorted_sorted.
Qed.

End SortFacts.

Module Invariants.
Import MemoryFs EngineSpec EngineTerms MonadFacts EngineFacts
  Consistency Path EngineContract Preservation SortFacts.

(** *** What a slot holds after an assignment *)

Lemma updated_lookup fs i f k m :
  nodes (updated fs i f) !! k = Some (Some m) ->
  exists n, nodes fs !! k = Some (Some n) /\ m = if decide (i = k) then f n else n.
Proof.
  cbn [updated nodes]. destruct (decide (i = k)) as [->|Hne].
  - rewrite list_lookup_alter_eq. destruct (nodes fs !! k) as [[n|]|]; [|done..].
    intros [= <-]. by exists n.
  - rewrite list_lookup_alter_ne by done. intros H. by exists m.
Qed.

Lemma appended_lookup fs node k m :
  nodes (appended fs node) !! k = Some (Some m) ->
  nodes fs !! k = Some (Some m) \/ (k = length (nodes fs) /\ m = node).
Proof.
  cbn [appended nodes]. intros H. apply lookup_app_Some in H as [H|[Hle H]]; [by left|].
  right. destruct (k - length (nodes fs))%nat as [|d] eqn:E; [|done].
  simplify_eq/=. split; [lia|done].
Qed.

Lemma live_elem fs m : m ∈ live fs <-> exists k, nodes fs !! k = Some (Some m).
Proof.
  unfold live. rewrite list_elem_of_omap. split.
  - intros (x & Hx & Hm). cbn in Hm. subst x. by apply list_elem_of_lookup_1.
  - intros (k & Hk). exists (Some m). split; [|done]. by eapply list_elem_of_lookup_2.
Qed.

Lemma reindexed_lookup fs k m :
  nodes (reindexed fs) !! k = Some (Some m) -> exists k', nodes fs !! k' = Some (Some m).
Proof.
  cbn [reindexed nodes]. intros H. apply live_elem.
  apply lookup_app_Some in H as [H|[_ H]].
  - rewrite list_lookup_fmap in H. destruct (sortNodes (live fs) !! k) as [n|] eqn:E; [|done].
    simplify_eq/=. apply list_elem_of_lookup_2 in E.
    unfold sortNodes in E. by rewrite sortBy_Permutation in E.
  - apply lookup_replicate in H as [? _]. done.
Qed.

Lemma deleted_lookup fs i k m :
  nodes (deleted fs i) !! k = Some (Some m) -> nodes fs !! k = Some (Some m).
Proof.
  cbn [deleted nodes]. destruct (decide (i = k)) as [->|Hne].
  - intros H. pose proof (lookup_lt_Some _ _ _ H) as Hlt. rewrite length_insert in Hlt.
    by rewrite list_lookup_insert_eq in H.
  - by rewrite list_lookup_insert_ne.
Qed.

(** *** The children of a directory stay sorted *)

Lemma childrenSorted_update fs i f :
  (forall n, isDirNode (f n) = isDirNode n /\ nodeChildren (f n) = nodeChildren n) ->
  childrenSorted fs -> childrenSorted (updated fs i f).
Proof.
  intros Hf Hfs k p ch st (n & Hn & E)%updated_lookup.
  destruct (decide (i = k)) as [->|_]; [|subst n; by eapply Hfs].
  destruct (Hf n) as (Hdir & Hch). rewrite <- E in Hdir, Hch.
  destruct n as [|p' ch' st']; [done|]. cbn in Hch. subst ch'. by eapply Hfs.
Qed.

Lemma childrenSorted_closed : Closed (fun _ => True) (fun _ => True) childrenSorted.
Proof.
  split.
  - done.
  - intros fs i g Hfs. apply childrenSorted_update; [|done]. by intros [].
  - intros fs q i p c st content ts _ _ Hfs. apply childrenSorted_update; [|done]. by intros [].
  - intros fs node _ Hch _ Hfs k p ch st [H|[_ <-]]%appended_lookup; [by eapply Hfs|].
    cbn in Hch. subst ch. constructor.
  - intros fs node j ts _ Hch _ Hfs k p ch st (n & Hn & E)%updated_lookup.
    assert (Hn' : forall p' ch' st', n = DirNode p' ch' st' -> StronglySorted strLe ch').
    { intros p' ch' st' ->. apply appended_lookup in Hn as [H|[_ E']]; [by eapply Hfs|].
      subst node. cbn in Hch. subst ch'. constructor. }
    destruct (decide (j = k)) as [->|_]; [|subst n; by eapply Hn'].
    destruct n as [|p' ch' st']; [done|]. cbn in E. injection E as -> -> ->.
    apply sortStrings_sorted.
  - intros fs Hfs k p ch st (k' & H)%reindexed_lookup. by eapply Hfs.
Qed.

Lemma childrenSorted_call c fs : childrenSorted fs -> childrenSorted (call c fs).
Proof.
  pose proof childrenSorted_closed as HI.
  assert (Hdel : forall fs i, childrenSorted fs -> childrenSorted (deleted fs i)).
  { intros fs' i Hfs k p ch st H%deleted_lookup. by eapply Hfs. }
  assert (Hctx : forall context, okContext (fun _ => True) context) by done.
  destruct c; cbn [call].
  - by apply (preserved_read HI).
  - by apply (preserved_write HI).
  - by apply (preserved_mkdir HI).
  - by apply (preserved_rm HI Hdel).
  - by apply (preserved_rmdir HI Hdel).
  - by apply (preserved_utimes HI).
  - by apply preserved_stats_op.
  - by apply preserved_readdir.
Qed.

(** X10. In every tree the engine reaches from [MemoryFs.empty], by whatever
    calls of its methods, returning or throwing, the children of every
    directory are in ascending order of [<] on strings, which is the order
    [readdir] lists them in. *)
Theorem children_always_sorted (calls : list Call) (root : string) (time : Z) :
  childrenSorted (after calls (empty root time)).
Proof.
  assert (H0 : childrenSorted (empty root time)).
  { intros [|i] p ch st H; simplify_eq/=. constructor. }
  revert H0. generalize (empty root time). unfold after.
  induction calls as [|c calls IH]; intros fs Hfs; [done|].
  cbn [foldl]. by apply IH, childrenSorted_call.
Qed.

End Invariants.

(** ** Nodes that stay *)

Module PathAbsolute.
Import Path PathSpec PathFacts PathNormal PathChain PathLaws EngineTerms.
#[local] Arguments String.append !s1 s2 : simpl nomatch.

Lemma strip_slash_head t : t <> "" -> stripTrailingSlash (String "/" t) <> "".
Proof. by destruct t. Qed.

(** The last step of [resolveWithinJail] is [cleanPath], on a text that
    starts with a slash. *)
Lemma finish_cleanPath s :
  (if String.eqb (collapseSlashes (String "/" s)) "/" then collapseSlashes (String "/" s)
   else stripTrailingSlash (collapseSlashes (String "/" s)))
  = cleanPath (String "/" s).
Proof.
  unfold cleanPath. destruct (collapse_slash_head s) as [t E]. rewrite E.
  destruct t as [|c t]; [done|].
  change (String.eqb (String "/" (String c t)) "/") with (String.eqb (String c t) "").
  cbn [String.eqb].
  pose proof (strip_slash_head (String c t)) as Hne.
  destruct (stripTrailingSlash (String "/" (String c t))); [by destruct Hne|done].
Qed.

(** In an absolute jail, [resolveWithinJail] returns the absolute path of a
    list of components. *)
Lemma resolveWithinJail_absolute J base p :
  isAbsolute J = true ->
  exists parts, Forall (fun q => isPart q = true) parts /\
                resolveWithinJail J base p = absPath parts.
Proof.
  intros [j ->]%isAbsolute_inv.
  destruct (resolve_normal base p) as (parts & Hparts & E).
  unfold resolveWithinJail. rewrite E.
  destruct (negb (withinJail (String "/" j) (absPath parts))).
  - change (String "/" j +:+ "/" +:+ absPath parts)
      with (String "/" (j +:+ "/" +:+ absPath parts)).
    rewrite finish_cleanPath, cleanPath_absolute.
    eexists. split; [apply baseParts_isPart|done].
  - exists parts. split; [done|]. by apply finish_absPath.
Qed.

Lemma resolveWithinJail_is_normal J base p :
  isAbsolute J = true -> normal (resolveWithinJail J base p).
Proof.
  intros H. destruct (resolveWithinJail_absolute J base p H) as (parts & Hparts & ->).
  by apply resolve_root_absPath.
Qed.

Lemma join_absolute_normal x xs : startsWith x "/" = true -> normal (join (x :: xs)).
Proof.
  intros H. unfold join. rewrite H. set (P := concat _).
  change ("/" +:+ joinParts P) with (absPath P). apply resolve_root_absPath.
  apply Forall_concat, Forall_forall. intros l (seg & -> & _)%list_elem_of_fmap.
  apply kept_isPart.
Qed.

Lemma getPathsFrom_normal parts : forall cur p,
  startsWith cur "/" = true -> p ∈ MemoryFs.getPathsFrom cur parts -> normal p.
Proof.
  induction parts as [|part parts IH]; intros cur p Hcur Hp; [by apply elem_of_nil in Hp|].
  cbn [MemoryFs.getPathsFrom] in Hp. apply elem_of_cons in Hp as [->|Hp].
  - by apply join_absolute_normal.
  - eapply IH; [|exact Hp]. by rewrite startsWith_join.
Qed.

Lemma getPaths_normal q p : p ∈ MemoryFs.getPaths q -> normal p.
Proof. by apply getPathsFrom_normal. Qed.

End PathAbsolute.

Module NodesStay.
Import MemoryFs EngineSpec EngineTerms MonadFacts
  EngineFacts Consistency Path EngineContract Preservation Invariants PathAbsolute.

Lemma indexed_bound fs p i : indexed fs -> index fs !! p = Some i -> (i < length (nodes fs))%nat.
Proof. intros Hfs (n & Hn & _)%Hfs. by eapply lookup_lt_Some. Qed.

Lemma indexed_update fs i f :
  (forall n, nodePath (f n) = nodePath n) -> indexed fs -> indexed (updated fs i f).
Proof.
  intros Hf Hfs p k (n & Hn & Hp)%Hfs. cbn [updated nodes].
  destruct (decide (i = k)) as [->|Hne].
  - exists (f n). rewrite list_lookup_alter_eq, Hn. split; [done|]. by rewrite Hf.
  - exists n. by rewrite list_lookup_alter_ne.
Qed.

Lemma indexed_append fs node : indexed fs -> indexed (appended fs node).
Proof.
  intros Hfs p k. cbn [appended index nodes].
  destruct (decide (p = nodePath node)) as [->|Hne].
  - rewrite lookup_insert_eq. intros [= <-]. exists node. split; [|done].
    by rewrite lookup_app_r, Nat.sub_diag.
  - rewrite lookup_insert_ne by done. intros H.
    destruct (Hfs _ _ H) as (n & Hn & Hp). exists n. split; [|done].
    rewrite lookup_app_l; [done|]. by eapply lookup_lt_Some.
Qed.

Lemma indexed_reindex fs : indexed (reindexed fs).
Proof.
  intros p k H. cbn [reindexed index nodes] in *.
  apply indexOf_sound in H as (n & Hn & Hp). exists n. split; [|done].
  rewrite lookup_app_l; [by rewrite list_lookup_fmap, Hn|].
  rewrite length_fmap. by eapply lookup_lt_Some.
Qed.

Lemma node_update fs i f q :
  isNode (getNode fs q) = true -> isNode (getNode (updated fs i f) q) = true.
Proof.
  intros (j & n & H)%isNode_inv. by erewrite getNode_updated.
Qed.

Lemma node_append fs node q :
  indexed fs -> isNode (getNode fs q) = true -> isNode (getNode (appended fs node) q) = true.
Proof.
  intros Hfs (j & n & H)%isNode_inv.
  destruct (decide (resolve "/" q = nodePath node)) as [E|Hne].
  - by rewrite getNode_appended_self.
  - by erewrite getNode_appended_other.
Qed.

Lemma indexOf_is_Some l p : p ∈ nodePath <$> l -> is_Some (indexOf l !! p).
Proof.
  induction l as [|x l IH] using rev_ind; [by intros ?%elem_of_nil|].
  rewrite indexOf_snoc, fmap_app. intros [H|H]%elem_of_app.
  - destruct (decide (p = nodePath x)) as [->|Hne].
    + by rewrite lookup_insert_eq.
    + rewrite lookup_insert_ne by done. by apply IH.
  - apply list_elem_of_singleton in H as ->. by rewrite lookup_insert_eq.
Qed.

Lemma node_reindex fs q :
  indexed fs -> isNode (getNode fs q) = true -> isNode (getNode (reindexed fs) q) = true.
Proof.
  intros Hfs (j & n & [Hi Hn]%getNode_RNode)%isNode_inv.
  destruct (Hfs _ _ Hi) as (n' & Hn' & Hp). rewrite Hn in Hn'. simplify_eq.
  assert (Hin : resolve "/" q ∈ nodePath <$> sortNodes (live fs)).
  { rewrite <- Hp. apply list_elem_of_fmap. exists n'. split; [done|].
    unfold sortNodes. rewrite sortBy_Permutation. apply live_elem. by exists j. }
  apply indexOf_is_Some in Hin as [k Hk].
  destruct (indexed_reindex fs _ _ Hk) as (m & Hm & _).
  unfold getNode. cbn [reindexed index nodes] in *. by rewrite Hk, Hm.
Qed.

(** A node that is there stays there. *)
Lemma stays_closed k :
  Closed normal (fun _ => True) (fun fs => indexed fs /\ isNode (getNode fs k) = true).
Proof.
  split.
  - intros q p. apply getPaths_normal.
  - intros fs i g [Hfs Hk]. split; [|by apply node_update].
    apply indexed_update; [|done]. by intros [].
  - intros fs q i p c st content ts _ _ [Hfs Hk]. split; [|by apply node_update].
    apply indexed_update; [|done]. by intros [].
  - intros fs node _ _ _ [Hfs Hk]. split; [by apply indexed_append | by apply node_append].
  - intros fs node j ts _ _ _ [Hfs Hk]. split.
    + apply indexed_update; [by intros [] | by apply indexed_append].
    + by apply node_update, node_append.
  - intros fs [Hfs Hk]. split; [apply indexed_reindex | by apply node_reindex].
Qed.

Lemma listed_update fs i f :
  (forall n, nodePath (f n) = nodePath n /\ isDirNode (f n) = isDirNode n /\
             nodeChildren (f n) = nodeChildren n) ->
  indexed fs /\ listed fs -> indexed (updated fs i f) /\ listed (updated fs i f).
Proof.
  intros Hf [Hfs Hl]. split.
  { apply indexed_update; [|done]. intros n. by destruct (Hf n). }
  intros k p ch st x (n & Hn & E)%updated_lookup Hx.
  assert (exists p' st', nodes fs !! k = Some (Some (DirNode p' ch st'))) as (p' & st' & Hk).
  { destruct (decide (i = k)) as [->|_]; [|subst n; by eauto].
    destruct (Hf n) as (_ & Hdir & Hch). rewrite <- E in Hdir, Hch.
    destruct n as [|p' ch' st']; [done|]. cbn in Hch. subst ch'. by eauto. }
  destruct (Hl _ _ _ _ _ Hk Hx) as [Hnx Hex]. split; [done|]. by apply node_update.
Qed.

(** The children a directory lists are there. *)
Lemma listed_closed : Closed normal (fun _ => True) (fun fs => indexed fs /\ listed fs).
Proof.
  split.
  - intros q p. apply getPaths_normal.
  - intros fs i g H. apply listed_update; [|done]. by intros [].
  - intros fs q i p c st content ts _ _ H. apply listed_update; [|done]. by intros [].
  - intros fs node _ Hch _ [Hfs Hl]. split; [by apply indexed_append|].
    intros k p ch st x [H|[_ <-]]%appended_lookup Hx.
    + destruct (Hl _ _ _ _ _ H Hx) as [Hnx Hex]. split; [done|]. by apply node_append.
    + cbn in Hch. subst ch. by apply elem_of_nil in Hx.
  - intros fs node j ts Hok Hch _ [Hfs Hl]. split.
    { apply indexed_update; [by intros [] | by apply indexed_append]. }
    assert (Hold : forall k p ch st x,
              nodes (appended fs node) !! k = Some (Some (DirNode p ch st)) -> x ∈ ch ->
              normal x /\ isNode (getNode (appended fs node) x) = true).
    { intros k p ch st x [H|[_ <-]]%appended_lookup Hx.
      - destruct (Hl _ _ _ _ _ H Hx) as [Hnx Hex]. split; [done|]. by apply node_append.
      - cbn in Hch. subst ch. by apply elem_of_nil in Hx. }
    intros k p ch st x (n & Hn & E)%updated_lookup Hx.
    destruct (decide (j = k)) as [->|_].
    + destruct n as [|p' ch' st']; [done|]. cbn in E. injection E as -> -> ->.
      unfold sortStrings in Hx. rewrite sortBy_Permutation in Hx.
      apply elem_of_app in Hx as [Hx|Hx].
      * destruct (Hold _ _ _ _ _ Hn Hx) as [Hnx Hex]. split; [done|]. by apply node_update.
      * apply list_elem_of_singleton in Hx as ->. split; [done|].
        apply node_update. by rewrite getNode_appended_self.
    + subst n. destruct (Hold _ _ _ _ _ Hn Hx) as [Hnx Hex].
      split; [done|]. by apply node_update.
  - intros fs [Hfs Hl]. split; [apply indexed_reindex|].
    intros k p ch st x (k' & H)%reindexed_lookup Hx.
    destruct (Hl _ _ _ _ _ H Hx) as [Hnx Hex]. split; [done|]. by apply node_reindex.
Qed.

Lemma gentle_call {I : Fs -> Prop} (HI : Closed normal (fun _ => True) I) c fs :
  gentle c -> I fs -> I (call c fs).
Proof.
  intros [Hkeep Habs] Hfs.
  assert (Hctx : okContext normal (callContext c)).
  { intros path. by apply resolveWithinJail_is_normal. }
  destruct c; cbn [call]; try done; cbn [callContext] in Hctx.
  - by apply (preserved_read HI).
  - by apply (preserved_write HI).
  - by apply (preserved_mkdir HI).
  - by apply (preserved_utimes HI).
  - by apply preserved_stats_op.
  - by apply preserved_readdir.
Qed.

Lemma gentle_calls {I : Fs -> Prop} (HI : Closed normal (fun _ => True) I) calls : forall fs,
  Forall gentle calls -> I fs -> I (after calls fs).
Proof.
  unfold after. induction calls as [|c calls IH]; intros fs Hcalls Hfs; [done|].
  apply Forall_cons in Hcalls as [Hc Hcalls]. cbn [foldl].
  by apply IH, (gentle_call HI).
Qed.

Lemma empty_indexed root time : indexed (empty root time).
Proof.
  intros p i. cbn [empty index nodes]. intros [<- <-]%lookup_singleton_Some.
  by eexists.
Qed.

(** X11. In every tree the engine reaches from [MemoryFs.empty] by calls other
    than [rm] and [rmdir], in contexts with an absolute jail, every path
    listed among the children of a directory names a node: [stats] of it,
    from the root context, succeeds. *)
Theorem listed_children_exist (calls : list Call) (root : string) (time : Z) :
  Forall gentle calls ->
  let fs := after calls (empty root time) in
  forall i p ch st x,
    nodes fs !! i = Some (Some (DirNode p ch st)) -> x ∈ ch ->
    isNode (getNode fs x) = true /\ exists_at fs x = true.
Proof.
  intros Hcalls fs.
  assert (H : indexed fs /\ listed fs).
  { apply (gentle_calls listed_closed); [done|]. split; [apply empty_indexed|].
    intros [|i] p ch st x H Hx; simplify_eq/=. by apply elem_of_nil in Hx. }
  destruct H as [_ Hl]. intros i p ch st x Hi Hx.
  destruct (Hl _ _ _ _ _ Hi Hx) as [Hnx Hex]. split; [done|].
  unfold exists_at, outcome, stats. rewrite bind_get. cbn [jail pwd rootContext].
  destruct (PathNormal.resolve_normal "/" x) as (parts & Hparts & E).
  rewrite Hnx in E. rewrite E in Hex |- *.
  rewrite RoundTrip.resolveWithinJail_inside; [|done|].
  2:{ rewrite PathFacts.withinJail_absolute by apply PathFacts.absPath_absolute.
      apply PathLaws.startsWith_slash. }
  by destruct (getNode fs (PathSpec.absPath parts)).
Qed.

Lemma listed_children_exist_witness :
  let fs := after [CallWrite rootContext "/d/f" "x" noWriteOptions 1;
                   CallUtimes rootContext "/d" (allTimes 2)] (empty "/" 0) in
  isNode (getNode fs "/d/f") = true /\ exists_at fs "/d/f" = true.
Proof.
  apply (listed_children_exist
           [CallWrite rootContext "/d/f" "x" noWriteOptions 1;
            CallUtimes rootContext "/d" (allTimes 2)] "/" 0%Z
           ltac:(repeat constructor) 1%nat "/d" ["/d/f"] (allTimes 2));
    [reflexivity | apply list_elem_of_here].
Defined.

Lemma indexSound_indexed fs : indexSound fs = true -> indexed fs.
Proof.
  intros Hi p i Hp. unfold indexSound in Hi. rewrite forallb_forall in Hi.
  specialize (Hi (p, i)). cbv beta iota in Hi.
  assert (Hin : In (p, i) (map_to_list (index fs))).
  { by apply list_elem_of_In, elem_of_map_to_list. }
  specialize (Hi Hin). destruct (nodes fs !! i) as [[n|]|]; try done.
  exists n. split; [done|]. by apply String.eqb_eq.
Qed.

(** X12. A call other than [rm] and [rmdir], in a context with an absolute
    jail, removes no node: where the index is sound, a path that names a
    node names one afterwards, whether the call returns or throws. *)
Theorem nodes_stay (calls : list Call) (fs : Fs) (k : string) :
  Forall gentle calls -> indexSound fs = true ->
  isNode (getNode fs k) = true -> isNode (getNode (after calls fs) k) = true.
Proof.
  intros Hcalls Hfs%indexSound_indexed Hk.
  by apply (gentle_calls (stays_closed k) calls fs Hcalls).
Qed.

Lemma nodes_stay_witness :
  isNode (getNode (after [CallMkdir rootContext "/a/b" noMkdirOptions 2;
                          CallWrite rootContext "/a/f" "y" noWriteOptions 3;
                          CallRead rootContext "/nope" 4 5] Scenario.oneFile) "/f") = true.
Proof.
  apply (nodes_stay _ Scenario.oneFile "/f"); [repeat constructor | reflexivity..].
Defined.

End NodesStay.

(** ** [mkdir] and [write] on the rest of the tree *)

Module Frames.
Import MemoryFs EngineSpec EngineTerms
  MonadFacts EngineFacts Consistency Path PathSpec PathFacts PathNormal PathChain
  EngineContract Preservation Invariants PathAbsolute NodesStay RoundTrip PathNames
  PathLaws PathNameLaws.

Lemma live_length fs : Consistent fs -> length (live fs) = length (nodes fs).
Proof.
  intros H. pose proof (f_equal length (consistent_nodes_live fs H)) as E.
  by rewrite length_fmap in E.
Qed.

Lemma reindexed_rebuilt fs : Consistent fs -> reindexed fs = rebuilt fs.
Proof.
  intros H. unfold reindexed, rebuilt. rewrite (live_length fs H), Nat.sub_diag.
  cbn [replicate]. by rewrite app_nil_r.
Qed.

Lemma consistent_indexed fs : Consistent fs -> indexed fs.
Proof. intros H p i Hi. by apply (index_sound fs H). Qed.

Lemma contentAt_inv fs k c :
  contentAt fs k = Some c -> exists i p st, getNode fs k = RNode i (FileNode p c st).
Proof.
  unfold contentAt. destruct (getNode fs k) as [| |i [p c' st|]]; try done.
  intros [= ->]. by exists i, p, st.
Qed.

Lemma contentAt_intro fs k c i p st :
  getNode fs k = RNode i (FileNode p c st) -> contentAt fs k = Some c.
Proof. unfold contentAt. by intros ->. Qed.

Lemma contentAt_update fs i f k c :
  (forall p c' st, exists st', f (FileNode p c' st) = FileNode p c' st') ->
  contentAt fs k = Some c -> contentAt (updated fs i f) k = Some c.
Proof.
  intros Hf (j & p & st & H)%contentAt_inv.
  pose proof (getNode_updated fs i f k j _ H) as H'. unfold contentAt.
  destruct (decide (i = j)); [|by rewrite H'].
  destruct (Hf p c st) as [st' E]. rewrite E in H'. by rewrite H'.
Qed.

(** Where no file is overwritten and a node is added at a path that names
    none, a file keeps its content. *)
Lemma files_closed k c :
  Closed normal (fun _ => False) (fun fs => Consistent fs /\ contentAt fs k = Some c).
Proof.
  split.
  - intros q p. apply getPaths_normal.
  - intros fs i g [Hfs Hk]. split.
    + apply updated_consistent; [done|]. by intros [].
    + apply contentAt_update; [|done]. intros p c' st. by eexists.
  - by intros fs q i p c' st content ts _ [].
  - intros fs node Hok _ [Hnew|[]] [Hfs Hk].
    assert (Hidx : index fs !! nodePath node = None).
    { rewrite <- Hok. apply (consistent_null fs Hfs).
      destruct (getNode fs (nodePath node)) as [| |? ?] eqn:E; try done.
      by destruct (consistent_not_undefined fs Hfs (nodePath node)). }
    split; [by apply appended_consistent|].
    apply contentAt_inv in Hk as (j & p & st & H). apply (contentAt_intro _ _ _ j p st).
    apply getNode_appended_other; [|done].
    apply getNode_RNode in H as [H _]. congruence.
  - intros fs node j ts Hok _ [Hnew|[]] [Hfs Hk].
    assert (Hidx : index fs !! nodePath node = None).
    { rewrite <- Hok. apply (consistent_null fs Hfs).
      destruct (getNode fs (nodePath node)) as [| |? ?] eqn:E; try done.
      by destruct (consistent_not_undefined fs Hfs (nodePath node)). }
    split.
    + apply updated_consistent; [by apply appended_consistent|]. by intros [].
    + apply contentAt_update; [intros p c' st; by eexists|].
      apply contentAt_inv in Hk as (i & p & st & H). apply (contentAt_intro _ _ _ i p st).
      apply getNode_appended_other; [|done].
      apply getNode_RNode in H as [H _]. congruence.
  - intros fs [Hfs Hk]. rewrite reindexed_rebuilt by done.
    split; [by apply rebuilt_consistent|].
    apply contentAt_inv in Hk as (i & p & st & H).
    destruct (rebuilt_getNode fs Hfs _ _ _ H) as [i' H']. by apply (contentAt_intro _ _ _ i' p st).
Qed.

(** [mkdir] changes the content of no file and removes no node. *)
Lemma mkdir_frame fs context path options now :
  isAbsolute (jail context) = true -> Consistent fs ->
  (forall k c, contentAt fs k = Some c ->
               contentAt (exec (mkdir context path options now) fs) k = Some c) /\
  (forall k, isNode (getNode fs k) = true ->
             isNode (getNode (exec (mkdir context path options now) fs) k) = true).
Proof.
  intros Habs Hfs.
  assert (Hctx : okContext normal context).
  { intros q. by apply resolveWithinJail_is_normal. }
  split.
  - intros k c Hk. by apply (preserved_mkdir (files_closed k c)).
  - intros k Hk. apply (preserved_mkdir (stays_closed k)); [done|].
    split; [by apply consistent_indexed | done].
Qed.

(** [mkdir] reads its options through their defaults. *)
Lemma mkdir_options context path options now fs :
  default true (mk_recursive options) = true ->
  mkdir context path options now fs
  = mkdir context path
      {| mk_recursive := Some true; mk_timestamp := Some (default now (mk_timestamp options)) |}
      now fs.
Proof.
  intros H. unfold mkdir. cbn [mk_recursive mk_timestamp default from_option id].
  by rewrite H.
Qed.

(** [mkdir] reads its path through [resolveWithinJail], which leaves the
    path it returned as it is. *)
Lemma mkdir_resolved context path options now fs rp :
  rp = resolveWithinJail (jail context) (pwd context) path ->
  resolveWithinJail (jail context) (pwd context) rp = rp ->
  mkdir context path options now fs = mkdir context rp options now fs.
Proof. intros -> E. unfold mkdir. by rewrite E. Qed.

Lemma jailed_within js base p :
  Forall (fun q => isPart q = true) js ->
  withinJail (absPath js) (resolveWithinJail (absPath js) base p) = true.
Proof.
  intros Hjs.
  pose proof (jailed_startsWith js (resolve base p) Hjs (resolve_absolute base p)) as H.
  cbn zeta in H. fold (resolveWithinJail (absPath js) base p) in H.
  unfold withinJail. by destruct (isRelative _).
Qed.

(** X13. [mkdir] with the default options, in a well-formed tree and a clean
    jail, of a path whose resolved form has no ["."] segment, names no file
    and has no file above it: it returns [null], the path names a
    directory afterwards, the tree is well formed, every node is still
    there, every file has the content it had, and a second [mkdir] changes
    nothing. *)
Theorem mkdir_makes_directory (fs : Fs) (context : StoreContext) (js : list string)
    (path : string) (options : MkdirOptions) (now : Z) :
  let rp := resolveWithinJail (jail context) (pwd context) path in
  wellFormed fs = true ->
  validParts js = true -> jail context = absPath js ->
  noDot rp = true ->
  default true (mk_recursive options) = true ->
  hasPathAvailable fs rp = true ->
  exists fs',
    mkdir context path options now fs = (Val None, fs') /\
    wellFormed fs' = true /\
    isDirRef (getNode fs' rp) = true /\
    (forall k, isNode (getNode fs k) = true -> isNode (getNode fs' k) = true) /\
    (forall k c, contentAt fs k = Some c -> contentAt fs' k = Some c) /\
    (forall options' now', mkdir context path options' now' fs' = (Val None, fs')).
Proof.
  intros rp Hfs%wellFormed_spec Hjs Hjail Hdot Hrec Hav.
  pose proof (wf_consistent fs Hfs) as Hcons.
  destruct (resolveWithinJail_normal js (pwd context) path Hjs) as (parts & Hparts & Erp).
  rewrite <- Hjail in Erp. fold rp in Erp.
  assert (Hnames : Forall (fun p => isName p = true) parts).
  { apply noDot_names; [done|]. by rewrite <- Erp. }
  assert (Hwithin : withinJail (jail context) rp = true).
  { subst rp. rewrite Hjail. by apply jailed_within, validParts_Forall. }
  assert (Habs : isAbsolute (jail context) = true) by (rewrite Hjail; apply absPath_absolute).
  destruct (mkdir_frame fs context path options now Habs Hcons) as [Hfiles Hstay].
  assert (Hagain : forall fs', isDirRef (getNode fs' rp) = true ->
            forall options' now', mkdir context path options' now' fs' = (Val None, fs')).
  { intros fs' Hd options' now'. unfold mkdir. fold rp. rewrite bind_get.
    by destruct (getNode fs' rp) as [| |? [|]]. }
  pose proof (available_not_file fs parts Hnames) as Hnofile.
  rewrite <- Erp in Hnofile. specialize (Hnofile Hav).
  destruct (getNode fs rp) as [| |i [|p ch st]] eqn:Enode; [| |done|].
  - (* the path names nothing *)
    rewrite Erp in Enode, Hav, Hwithin.
    destruct (mkdir_recursive_run fs context parts (default now (mk_timestamp options)) now)
      as (fs' & Hrun & Hfs' & Hdir & _); try done.
    assert (Hmk : mkdir context path options now fs = (Val None, fs')).
    { rewrite mkdir_options by done.
      rewrite (mkdir_resolved context path _ now fs (absPath parts)); [done|by rewrite <- Erp|].
      apply resolveWithinJail_inside; [by apply Forall_isName_isPart | done]. }
    exists fs'. unfold exec in Hfiles, Hstay. rewrite Hmk in Hfiles, Hstay.
    rewrite <- Erp in Hdir.
    split; [done|]. split; [by apply wellFormed_spec|]. split; [done|]. split; [done|].
    split; [done|]. by apply Hagain.
  - by destruct (consistent_not_undefined fs Hcons rp).
  - (* the directory is there *)
    exists fs. assert (Hd : isDirRef (getNode fs rp) = true) by by rewrite Enode.
    split; [by apply Hagain|]. split; [by apply wellFormed_spec|]. split; [done|].
    split; [done|]. split; [done|]. by apply Hagain.
Qed.

Lemma mkdir_makes_directory_witness :
  exists fs',
    mkdir rootContext "a/b" noMkdirOptions 2 Scenario.oneFile = (Val None, fs') /\
    wellFormed fs' = true /\
    isDirRef (getNode fs' "/a/b") = true /\
    (forall k, isNode (getNode Scenario.oneFile k) = true -> isNode (getNode fs' k) = true) /\
    (forall k c, contentAt Scenario.oneFile k = Some c -> contentAt fs' k = Some c) /\
    (forall options' now', mkdir rootContext "a/b" options' now' fs' = (Val None, fs')).
Proof.
  apply (mkdir_makes_directory Scenario.oneFile rootContext [] "a/b" noMkdirOptions 2%Z);
    reflexivity.
Defined.

(** The tree [write] leaves, in the cases of the round trip: the file is
    overwritten, or it is added under its parent, which was there or which
    [mkdir] made. *)
Lemma write_shape (fs : Fs) (context : StoreContext) (js : list string)
    (path content : string) (options : WriteOptions) (now : Z) :
  let rp := resolveWithinJail (jail context) (pwd context) path in
  let ts := default now (wr_timestamp options) in
  WellFormed fs ->
  validParts js = true -> jail context = absPath js ->
  noDot rp = true ->
  default true (wr_recursive options) = true ->
  isDirRef (getNode fs rp) = false ->
  hasPathAvailable fs (dirname rp) = true ->
  isNode (getParent fs rp) || withinJail (jail context) (dirname rp) = true ->
  exists fs1,
    write context path content options now fs = (Val None, fs1) /\
    ((exists i p c st j,
        getNode fs rp = RNode i (FileNode p c st) /\
        fs1 = updated (updated fs i (overwrite content ts)) j (withStats (setMtime ts))) \/
     (isNode (getNode fs rp) = false /\
      exists fs0 j pp chp sp,
        (fs0 = fs \/
         isNode (getNode fs (dirname rp)) = false /\
         fs0 = exec (mkdir context (dirname rp)
                       {| mk_recursive := Some true; mk_timestamp := Some ts |} now) fs) /\
        Consistent fs0 /\
        getNode fs0 (dirname rp) = RNode j (DirNode pp chp sp) /\
        fs1 = updated (appended fs0 (FileNode rp content (allTimes ts))) j (fun _ =>
                DirNode pp (sortStrings (chp ++ [rp])) (setMtime ts sp)))).
Proof.
  intros rp ts Hfs Hjs Hjail Hdot Hrec Hnodir Hav Hin.
  pose proof (wf_consistent fs Hfs) as Hcons.
  destruct (resolveWithinJail_normal js (pwd context) path Hjs) as (parts & Hparts & Erp).
  rewrite <- Hjail in Erp. fold rp in Erp.
  assert (Hnormal : resolve "/" rp = rp) by (rewrite Erp; by apply resolve_root_absPath).
  assert (Hnames : Forall (fun p => isName p = true) parts).
  { apply noDot_names; [done|]. by rewrite <- Erp. }
  destruct parts as [|x ps _] using rev_ind.
  { exfalso. pose proof (wf_rooted fs Hfs) as Hroot. change (absPath []) with "/" in Erp.
    rewrite Erp in Hnodir. congruence. }
  assert (Hdir : dirname rp = absPath ps) by (rewrite Erp; by apply dirname_absPath).
  assert (Hps : Forall (fun p => isName p = true) ps) by by apply Forall_app in Hnames as [? _].
  rewrite Hdir in Hav.
  pose proof (available_not_file fs ps Hps Hav) as Hnotfile.
  assert (Hgp : forall fs', getParent fs' rp = getNode fs' (absPath ps)).
  { intros fs'. unfold getParent. by rewrite Hnormal, Hdir. }
  rewrite Hgp, Hdir in Hin.
  assert (Hadd : forall fs0 j pp chp sp,
    getNode fs0 (absPath ps) = RNode j (DirNode pp chp sp) ->
    addNode (FileNode rp content (allTimes ts)) ts false fs0
    = (Val tt, updated (appended fs0 (FileNode rp content (allTimes ts))) j (fun _ =>
         DirNode pp (sortStrings (chp ++ [rp])) (setMtime ts sp)))).
  { intros fs0 j pp chp sp Hparent. apply addNode_run. cbn [nodePath]. rewrite Hdir.
    apply getNode_appended_other; [|done]. cbn [nodePath].
    rewrite resolve_root_absPath by by apply Forall_isName_isPart.
    rewrite Erp. by apply absPath_snoc_ne. }
  destruct (getNode fs rp) as [| |i [p c st|p ch st]] eqn:Enode; [| |clear Hnodir|done].
  - (* the path names nothing *)
    destruct (getNode fs (absPath ps)) as [| |j [pp cp sp|pp chp sp]] eqn:Eparent;
      [| |done|].
    + (* the parent is missing: [mkdir] makes it *)
      cbn [isNode orb] in Hin.
      destruct (mkdir_recursive_run fs context ps ts now)
        as (fs3 & Hmk & Hfs3 & Hd3 & Hframe); try done.
      apply isDirRef_inv in Hd3 as (j & pp & chp & sp & Hd3).
      eexists. split.
      * unfold write. fold rp. fold ts. rewrite bind_get, Enode, Hgp, Eparent, Hrec.
        rewrite bind_unfold, Hdir, Hmk. rewrite bind_get, Hgp, Hd3.
        cbn [isDirRef invariant]. rewrite bind_ret, bind_unfold.
        by erewrite Hadd.
      * right. split; [done|]. exists fs3, j, pp, chp, sp.
        split; [right; split; [by rewrite Hdir, Eparent|]|].
        { unfold exec. by rewrite Hdir, Hmk. }
        split; [apply Hfs3|]. by rewrite Hdir.
    + by destruct (consistent_not_undefined fs Hcons (absPath ps)).
    + (* the parent is there *)
      eexists. split.
      * unfold write. fold rp. fold ts. rewrite bind_get, Enode, Hgp, Eparent.
        rewrite bind_unfold. by erewrite Hadd.
      * right. split; [done|]. exists fs, j, pp, chp, sp.
        split; [by left|]. split; [done|]. by rewrite Hdir.
  - by destruct (consistent_not_undefined fs Hcons rp).
  - (* the path names a file: it is overwritten *)
    pose proof Enode as [_ Hslot]%getNode_RNode.
    pose proof (consistent_node_path fs Hcons _ _ _ Enode) as Hp. cbn [nodePath] in Hp.
    rewrite Hnormal in Hp. subst p.
    pose proof (wf_parents fs Hfs i _ Hslot) as Hparent.
    cbn [nodePath] in Hparent. rewrite Hdir in Hparent.
    destruct (getNode fs (absPath ps)) as [| |j [pp cp sp|pp chp sp]] eqn:Eparent; try done.
    eexists. split.
    + eapply write_overwrite_run; [exact Enode | rewrite Hgp; exact Eparent].
    + left. by exists i, rp, c, st, j.
Qed.




(** X15. A file that [write] creates is listed in its directory, under its
    last segment, with the entries that were listed before. *)
Theorem written_file_is_listed (fs : Fs) (context : StoreContext) (js : list string)
    (path content dir : string) (options : WriteOptions) (now : Z) :
  let rp := resolveWithinJail (jail context) (pwd context) path in
  let fs1 := exec (write context path content options now) fs in
  wellFormed fs = true ->
  validParts js = true -> jail context = absPath js ->
  noDot rp = true ->
  default true (wr_recursive options) = true ->
  isNode (getNode fs rp) = false ->
  hasPathAvailable fs (dirname rp) = true ->
  isNode (getParent fs rp) || withinJail (jail context) (dirname rp) = true ->
  resolveWithinJail (jail context) (pwd context) dir = dirname rp ->
  exists names x,
    outcome (readdir context dir) fs1 = Val (Ok names) /\
    filename rp = Some x /\ x ∈ names /\
    (forall names0, outcome (readdir context dir) fs = Val (Ok names0) -> names0 ⊆ names).
Proof.
  intros rp fs1 Hfs%wellFormed_spec Hjs Hjail Hdot Hrec Hnew Hav Hin Hdir.
  pose proof (wf_consistent fs Hfs) as Hcons.
  destruct (resolveWithinJail_normal js (pwd context) path Hjs) as (parts & Hparts & Erp).
  rewrite <- Hjail in Erp. fold rp in Erp.
  destruct parts as [|x ps _] using rev_ind.
  { exfalso. pose proof (wf_rooted fs Hfs) as Hroot. change (absPath []) with "/" in Erp.
    rewrite Erp in Hnew. by destruct (getNode fs "/") as [| |? [|]]. }
  assert (Hd : dirname rp = absPath ps) by (rewrite Erp; by apply dirname_absPath).
  assert (Hkey : resolve "/" (dirname rp) <> rp).
  { rewrite Hd, Erp, resolve_root_absPath by by apply Forall_app in Hparts as [? _].
    by apply absPath_snoc_ne. }
  destruct (write_shape fs context js path content options now)
    as (fs1' & Hrun & Hshape); try done.
  { fold rp. by destruct (getNode fs rp) as [| |? [|]]. }
  assert (fs1 = fs1') as -> by (subst fs1; unfold exec; by rewrite Hrun).
  fold rp in Hshape.
  destruct Hshape as [(i & p & c0 & st & j & Hnode & _)
                     |(_ & fs0 & j & pp & chp & sp & H0 & Hcons0 & Hparent & ->)].
  { by rewrite Hnode in Hnew. }
  exists (map (fun child => relative (dirname rp) child) (sortStrings (chp ++ [rp]))), x.
  split; [|split; [|split]].
  - unfold outcome, readdir. rewrite bind_get, Hdir.
    erewrite getNode_updated; [|by apply getNode_appended_other].
    by destruct (decide (j = j)).
  - rewrite Erp. by apply filename_absPath.
  - apply list_elem_of_fmap. exists rp. split.
    + rewrite Hd, Erp. symmetry. by apply relative_child.
    + unfold sortStrings. rewrite sortBy_Permutation. apply elem_of_app. right. by left.
  - intros names0. unfold outcome, readdir. rewrite bind_get, Hdir.
    destruct H0 as [->|[Hmissing ->]].
    + rewrite Hparent. intros [= <-] y (child & -> & Hy)%list_elem_of_fmap.
      apply list_elem_of_fmap. exists child. split; [done|].
      unfold sortStrings. rewrite sortBy_Permutation. apply elem_of_app. by left.
    + by destruct (getNode fs (dirname rp)) as [| |? [|]].
Qed.

Lemma written_file_is_listed_witness :
  exists names x,
    outcome (readdir rootContext "/")
      (exec (write rootContext "/g" "y" noWriteOptions 2) Scenario.oneFile)
    = Val (Ok names) /\
    filename "/g" = Some x /\ x ∈ names /\
    (forall names0, outcome (readdir rootContext "/") Scenario.oneFile = Val (Ok names0) ->
                    names0 ⊆ names).
Proof.
  apply (written_file_is_listed Scenario.oneFile rootContext [] "/g" "y" "/" noWriteOptions 2%Z);
    reflexivity.
Defined.

End Frames.

(** ** Serialization and the web store *)

Module JsonRoundTrip.
Import MemoryFs EngineSpec EngineTerms.

Section Codec.
Variable toISOString : Z -> string.
Variable dateParse : string -> Z.

Lemma decodeTime_present t :
  readsBack toISOString dateParse t = true ->
  decodeTime dateParse (Some (JStr (toISOString t))) = Some (Some t).
Proof.
  intros [Hne E%Z.eqb_eq]%andb_prop. cbn [decodeTime]. by rewrite Hne, E.
Qed.

Lemma decodeStats_statsToJson s :
  forallb (readsBack toISOString dateParse) (statsTimes s) = true ->
  decodeStats dateParse (statsToJson toISOString s) = Some s.
Proof.
  destruct s as [[m|] [a|] [c|] [b|]]; unfold statsTimes;
    cbn [omap list_omap id mtime atime ctime btime forallb].
  all: rewrite ?andb_true_iff; intros H; destruct_and?.
  all: unfold statsToJson, decodeStats, timeField.
  all: cbn [mtime atime ctime btime app].
  all: cbn [field String.eqb Ascii.eqb Bool.eqb].
  all: rewrite ?decodeTime_present by done.
  all: reflexivity.
Qed.

Lemma mapM_decodeString ch : mapM decodeString (JStr <$> ch) = Some ch.
Proof. induction ch as [|c ch IH]; [done|]. cbn. by rewrite IH. Qed.

Lemma decodeNode_nodeToJson n :
  forallb (readsBack toISOString dateParse) (statsTimes (nodeStats n)) = true ->
  decodeNode dateParse (nodeToJson toISOString (Some n)) = Some (Some n).
Proof.
  intros H. destruct n as [p c s|p ch s]; unfold nodeToJson, decodeNode.
  all: cbn [field String.eqb Ascii.eqb Bool.eqb mbind option_bind decodeString].
  all: rewrite decodeStats_statsToJson by done.
  all: cbn [field String.eqb Ascii.eqb Bool.eqb mbind option_bind decodeString].
  - reflexivity.
  - by rewrite mapM_decodeString.
Qed.

Lemma mapM_decodeNode ns :
  forallb (fun slot => match slot with Some _ => true | None => false end) ns = true ->
  forallb (readsBack toISOString dateParse)
    (flat_map (fun slot => match slot with
                           | Some n => statsTimes (nodeStats n)
                           | None => []
                           end) ns) = true ->
  mapM (decodeNode dateParse) (nodeToJson toISOString <$> ns) = Some ns.
Proof.
  induction ns as [|[n|] ns IH]; [done| |done].
  cbn [forallb flat_map]. rewrite forallb_app. intros H [Hn Hns]%andb_prop.
  cbn [fmap list_fmap mapM]. rewrite decodeNode_nodeToJson by done.
  cbn [mbind option_bind]. rewrite IH by done. reflexivity.
Qed.

Lemma checkNodes_nodeToJson ns :
  forallb (fun slot => match slot with Some _ => true | None => false end) ns = true ->
  checkNodes (nodeToJson toISOString <$> ns) = Val tt.
Proof.
  induction ns as [|[n|] ns IH]; [done| |done].
  intros H. cbn [fmap list_fmap]. destruct n as [p c s|p ch s]; by apply IH.
Qed.

Lemma mapM_decodeIndexEntry (l : list (string * nat)) :
  mapM decodeIndexEntry ((fun '(k, i) => (k, JNum (Z.of_nat i))) <$> l) = Some l.
Proof.
  induction l as [|[k i] l IH]; [done|].
  cbn [fmap list_fmap mapM]. rewrite IH. unfold decodeIndexEntry. cbn [fst snd].
  destruct (Z.leb_spec 0 (Z.of_nat i)); [|lia].
  cbn [mbind option_bind mret option_ret]. by rewrite Nat2Z.id.
Qed.

Lemma index_of_list (m : gmap string nat) : list_to_map (reverse (map_to_list m)) = m.
Proof.
  rewrite <- (list_to_map_to_list m) at 2.
  apply list_to_map_proper; [|apply reverse_Permutation].
  rewrite fmap_reverse, reverse_Permutation. apply NoDup_fst_map_to_list.
Qed.

Lemma toJson_parses (fs : Fs) :
  noHoles fs = true ->
  forallb (readsBack toISOString dateParse) (timesOf fs) = true ->
  parse dateParse (toJson toISOString fs) = Val (Ok fs).
Proof.
  intros H Hdates. unfold toJson, parse, fsToJson.
  cbn [field String.eqb Ascii.eqb Bool.eqb].
  rewrite checkNodes_nodeToJson by done.
  unfold decodeFs. cbn [field String.eqb Ascii.eqb Bool.eqb].
  rewrite mapM_decodeNode by done. cbn [mbind option_bind].
  rewrite mapM_decodeIndexEntry. cbn [mbind option_bind].
  rewrite index_of_list. by destruct fs.
Qed.

Lemma checkNodes_hole ns :
  forallb (fun slot => match slot with Some _ => true | None => false end) ns = false ->
  checkNodes (nodeToJson toISOString <$> ns) = Throw INVARIANT.
Proof.
  induction ns as [|[n|] ns IH]; [done| |done].
  intros H. cbn [fmap list_fmap]. destruct n as [p c s|p ch s]; by apply IH.
Qed.

(** X16. A tree without a hole is what [parse] reads back from its [toJson],
    when the runtime reads back the dates of the tree from the text it
    writes for them. A tree with a hole is never read back: [parse] throws
    at the [null] the hole is written as. *)
Theorem parse_toJson (fs : Fs) :
  (noHoles fs = true ->
   forallb (readsBack toISOString dateParse) (timesOf fs) = true ->
   parse dateParse (toJson toISOString fs) = Val (Ok fs)) /\
  (noHoles fs = false -> parse dateParse (toJson toISOString fs) = Throw INVARIANT).
Proof.
  split; [apply toJson_parses|].
  intros H. unfold toJson, parse, fsToJson.
  cbn [field String.eqb Ascii.eqb Bool.eqb].
  by rewrite checkNodes_hole.
Qed.

End Codec.

Lemma parse_toJson_witness :
  parse Samples.epochTime (toJson Samples.epochText Scenario.fresh) = Val (Ok Scenario.fresh) /\
  parse Samples.epochTime (toJson Samples.epochText Scenario.removed) = Throw INVARIANT.
Proof.
  split.
  - apply (parse_toJson Samples.epochText Samples.epochTime Scenario.fresh); reflexivity.
  - apply (parse_toJson Samples.epochText Samples.epochTime Scenario.removed); reflexivity.
Defined.

End JsonRoundTrip.

Module WebFacts.
Import MemoryFs EngineSpec EngineTerms WebSpec MonadFacts EngineErrors JsonRoundTrip.

Section Web.
Variable toISOString : Z -> string.
Variable dateParse : string -> Z.





(** X18. [webStore] starts from the tree whose serialization the slot named
    ["prefix"] holds, whatever the options are; it writes the slot named
    by [options.prefix]. *)
Theorem webStore_restores (storage : gmap string Text) (options : WebStoreOptions)
    (now : Z) (fs : Fs) :
  storage !! "prefix" = Some (toJson toISOString fs) ->
  noHoles fs = true ->
  forallb (readsBack toISOString dateParse) (timesOf fs) = true ->
  exists w,
    webStore dateParse storage options now = Val w /\
    web_memory w = fs /\
    web_key w = default "" (web_prefix options) /\
    jail (web_context w) = default "/" (web_jail options).
Proof.
  intros Hslot Hholes Hdates. unfold webStore. rewrite Hslot.
  change (toJson toISOString fs) with (Doc (fsToJson toISOString fs)).
  cbv iota. fold (toJson toISOString fs).
  rewrite (toJson_parses toISOString dateParse fs Hholes Hdates).
  by eexists.
Qed.

End Web.


Lemma webStore_restores_witness :
  exists w,
    webStore Samples.epochTime {[ "prefix" := toJson Samples.epochText Scenario.fresh ]}
      {| web_pwd := None; web_uri := None; web_jail := None; web_prefix := Some "notes" |} 5
    = Val w /\
    web_memory w = Scenario.fresh /\ web_key w = "notes" /\ jail (web_context w) = "/".
Proof.
  apply (webStore_restores Samples.epochText Samples.epochTime
           {[ "prefix" := toJson Samples.epochText Scenario.fresh ]}
           {| web_pwd := None; web_uri := None; web_jail := None; web_prefix := Some "notes" |}
           5%Z Scenario.fresh); reflexivity.
Defined.

End WebFacts.

(** ** The host adapter inside its jail *)

Module FileStoreLaws.
Import FileStore FileStoreSpec Path PathSpec PathFacts PathNormal PathChain SortFacts
  EngineTerms Consistency.

(** *** The order of a listing *)

Lemma insertSorted_sorted_on {A} (lt : A -> A -> bool) (le : A -> A -> Prop) (P : A -> Prop) :
  (forall a b, P a -> P b -> lt a b = true -> le a b) ->
  (forall a b, P a -> P b -> lt a b = false -> le b a) ->
  (forall a b c, P a -> P b -> P c -> le a b -> le b c -> le a c) ->
  forall x l, P x -> Forall P l -> StronglySorted le l ->
  StronglySorted le (insertSorted lt x l).
Proof.
  intros Hlt Hge Htrans x l Hx Hl Hs. induction Hs as [|y l Hs IH Hy]; [by repeat constructor|].
  apply Forall_cons in Hl as [Py Pl]. cbn [insertSorted]. destruct (lt x y) eqn:E.
  - constructor; [by constructor|]. constructor; [by apply Hlt|].
    apply Forall_forall. intros z Hz. rewrite Forall_forall in Hy, Pl.
    apply (Htrans x y z); auto.
  - constructor; [by apply IH|].
    rewrite (insertSorted_Permutation lt x l). constructor; [by apply Hge|done].
Qed.

Lemma sortBy_sorted_on {A} (lt : A -> A -> bool) (le : A -> A -> Prop) (P : A -> Prop) :
  (forall a b, P a -> P b -> lt a b = true -> le a b) ->
  (forall a b, P a -> P b -> lt a b = false -> le b a) ->
  (forall a b c, P a -> P b -> P c -> le a b -> le b c -> le a c) ->
  forall l, Forall P l -> StronglySorted le (sortBy lt l).
Proof.
  intros Hlt Hge Htrans l Hl. unfold sortBy. induction Hl as [|x l Hx Hl IH]; [constructor|].
  cbn [foldr]. apply (insertSorted_sorted_on lt le P); try done.
  fold (sortBy lt l). by rewrite sortBy_Permutation.
Qed.

Lemma strLe_trans a b c : strLe a b -> strLe b c -> strLe a c.
Proof.
  unfold strLe. intros Hab Hbc. apply not_true_is_false. intros Hca.
  destruct (String.ltb a b) eqn:E.
  - by rewrite (ltb_trans _ _ _ Hca E) in Hbc.
  - assert (a = b) as ->; [|congruence].
    unfold String.ltb in *. pose proof (String.compare_antisym a b) as Hanti.
    destruct (String.compare a b) eqn:Ec; try done.
    + by apply String.compare_eq_iff.
    + by destruct (String.compare b a).
Qed.

(** X19. The listing of the host adapter is its input in numeric order when
    every name is a number [parseInt] returns exactly, and in the order of
    [<] on strings when no name is a number. *)
Theorem sortChildren_sorted (names : list string) :
  sortChildren names ≡ₚ names /\
  (Forall (fun n => isNumberic n = true) names ->
   Forall (fun n => exact n = true) names ->
   StronglySorted (fun a b => (parseInt a <= parseInt b)%N) (sortChildren names)) /\
  (Forall (fun n => isNumberic n = false) names ->
   StronglySorted strLe (sortChildren names)).
Proof.
  split; [apply sortBy_Permutation|]. split.
  - intros Hnum _. unfold sortChildren.
    apply (sortBy_sorted_on _ _ (fun n => isNumberic n = true)); [| | |done].
    + intros a b Ha Hb. unfold childBefore. rewrite Ha, Hb. cbn [andb].
      intros H%N.ltb_lt. lia.
    + intros a b Ha Hb. unfold childBefore. rewrite Ha, Hb. cbn [andb].
      intros H%N.ltb_ge. lia.
    + intros a b c _ _ _. lia.
  - intros Hnot. unfold sortChildren.
    apply (sortBy_sorted_on _ _ (fun n => isNumberic n = false)); [| | |done].
    + intros a b Ha Hb. unfold childBefore. rewrite Ha. cbn [andb]. apply ltb_asym.
    + intros a b Ha Hb. unfold childBefore. rewrite Ha. cbn [andb]. done.
    + intros a b c _ _ _. apply strLe_trans.
Qed.

Section Host.
Variable home : string.
Variable HostState : Type.
Variable host : HostState -> HostCall -> HostResult * HostState.

Lemma resolve_in_jail context js path :
  validParts js = true -> jail context = absPath js ->
  startsWith (FileStore.resolve home context path) (jail context) = true.
Proof.
  intros Hjs%validParts_Forall Hjail. unfold FileStore.resolve. rewrite Hjail.
  set (base := if startsWith (pwd context) "~" then _ else _).
  set (p := if startsWith path "~" then _ else _).
  pose proof (jailed_startsWith js (Path.resolve base p) Hjs (resolve_absolute base p)) as H.
  exact H.
Qed.

(** The calls of [api.write]: nothing when the store is read-only;
    otherwise [mkdir] of the parent first, unless [recurive] is off, and
    [writeFile] only when that [mkdir] did not fail. *)
Lemma api_write_calls readonly context path content recurive h :
  callsOf (api_write home (logging host) readonly context path content recurive) h
  = if readonly then []
    else if default true recurive then
      FS_mkdir (FileStore.resolve home context (dirname path)) true ::
      match (host h (FS_mkdir (FileStore.resolve home context (dirname path)) true)).1 with
      | Resolved _ => [FS_writeFile (FileStore.resolve home context path) content]
      | Rejected _ => []
      end
    else [FS_writeFile (FileStore.resolve home context path) content].
Proof.
  unfold callsOf, api_write. destruct readonly; [done|].
  destruct (default true recurive).
  - unfold FileStore.mkdir, writeFile, toNullable, tryCatch, logging. cbn [default].
    destruct (host h (FS_mkdir _ true)) as [[v|c] h1]; [|done]. cbn [fst].
    by destruct (host h1 (FS_writeFile _ content)) as [[v'|c'] h2].
  - unfold writeFile, toNullable, tryCatch, logging.
    by destruct (host h (FS_writeFile _ content)) as [[v'|c'] h2].
Qed.

(** X20. In a clean jail, every call that [read], [readdir], [mkdir], [write],
    [stats] and [utimes] make to the host is on a path that starts with the
    jail; a read-only store makes no call to write. *)
Theorem file_store_calls_in_jail (context : StoreContext) (js : list string)
    (path : string) (h : HostState) :
  validParts js = true -> jail context = absPath js ->
  let inJail := Forall (fun c => startsWith (callPath c) (jail context) = true) in
  inJail (callsOf (FileStore.read home (logging host) context path) h) /\
  (forall relative recursive,
     inJail (callsOf (api_readdir home (logging host) context path relative recursive) h)) /\
  (forall readonly recursive,
     inJail (callsOf (api_mkdir home (logging host) readonly context path recursive) h)) /\
  (forall readonly content recurive,
     inJail (callsOf (api_write home (logging host) readonly context path content recurive) h)) /\
  inJail (callsOf (FileStore.stats home (logging host) context path) h) /\
  (forall readonly times now,
     inJail (callsOf (api_utimes home (logging host) readonly context path times now) h)) /\
  (forall content recurive,
     callsOf (api_write home (logging host) true context path content recurive) h = []).
Proof.
  intros Hjs Hjail inJail.
  pose proof (fun q => resolve_in_jail context js q Hjs Hjail) as Hin.
  destruct (FileStoreFacts.jailed_calls home HostState host context path h)
    as (Hread & Hreaddir & Hmkdir & _ & Hstats & Hutimes).
  assert (Hone : forall c, startsWith (callPath c) (jail context) = true ->
            Forall (fun c => startsWith (callPath c) (jail context) = true) [c]).
  { intros c Hc. by repeat constructor. }
  subst inJail. cbv beta.
  split; [rewrite Hread; apply Hone, Hin|].
  split.
  { intros relative recursive. specialize (Hreaddir recursive).
    unfold callsOf, api_readdir in *.
    destruct (FileStore.readdir home (logging host) context path recursive (h, []))
      as [[[|names|names|s]|e] [h1 log]]; cbn [fst snd] in *; try destruct relative;
      cbn [fst snd]; rewrite Hreaddir; apply Hone, Hin. }
  split.
  { intros [] recursive; unfold callsOf, api_mkdir; [by constructor|].
    specialize (Hmkdir recursive). unfold callsOf in Hmkdir. rewrite Hmkdir.
    apply Hone, Hin. }
  split.
  { intros readonly content recurive. rewrite api_write_calls.
    destruct readonly; [by constructor|].
    destruct (default true recurive); [|apply Hone, Hin].
    constructor; [apply Hin|].
    destruct (host h _).1; [apply Hone, Hin | constructor]. }
  split; [rewrite Hstats; apply Hone, Hin|].
  split.
  { intros [] times now; unfold callsOf, api_utimes; [by constructor|].
    specialize (Hutimes times now). unfold callsOf in Hutimes. rewrite Hutimes.
    apply Hone, Hin. }
  intros content recurive. by rewrite api_write_calls.
Qed.


End Host.

Lemma sortChildren_sorted_witness :
  StronglySorted (fun a b => (parseInt a <= parseInt b)%N) (sortChildren ["10"; "9"; "1"]) /\
  StronglySorted strLe (sortChildren ["b"; "a"; "c"]).
Proof.
  destruct (sortChildren_sorted ["10"; "9"; "1"]) as (_ & Hnum & _).
  destruct (sortChildren_sorted ["b"; "a"; "c"]) as (_ & _ & Hstr).
  split; [apply Hnum | apply Hstr]; repeat constructor.
Defined.

Lemma file_store_calls_in_jail_witness :
  Forall (fun c => startsWith (callPath c) "/jail" = true)
    (callsOf (api_write "/home/u" (logging listingHost) false jailed "/etc/passwd" "x" None) tt) /\
  Forall (fun c => startsWith (callPath c) "/jail" = true)
    (callsOf (api_readdir "/home/u" (logging listingHost) jailed "~/../.." false None) tt) /\
  callsOf (api_write "/home/u" (logging listingHost) true jailed "/etc/passwd" "x" None) tt = [].
Proof.
  destruct (file_store_calls_in_jail "/home/u" unit listingHost jailed ["jail"] "/etc/passwd" tt
              eq_refl eq_refl) as (_ & _ & _ & Hwrite & _ & _ & Hro).
  destruct (file_store_calls_in_jail "/home/u" unit listingHost jailed ["jail"] "~/../.." tt
              eq_refl eq_refl) as (_ & Hreaddir & _).
  split; [apply Hwrite|]. split; [apply Hreaddir | apply Hro].
Defined.


End FileStoreLaws.

(** ** The JSON helpers *)

Module JsonLibFacts.
Import JsonLib.






End JsonLibFacts.

(** ** Child stores and [memoryStore] *)

Module StoreFacadeFacts.
Import StoreFacade MemoryFs Path PathSpec PathFacts PathNormal PathChain PathVocab PathLaws
  PathAbsolute EngineTerms JsonRoundTrip.

(** X24. A child store: in a clean jail and a working directory inside it, the
    child at a plain name has the working directory one level down, the
    same jail, and the name as its [basename]; whatever the path, the
    working directory of a child starts with the jail. *)
Theorem child_store (context : StoreContext) (js ds : list string) (x : string) :
  validParts js = true -> jail context = absPath js ->
  Forall (fun p => isPart p = true) ds -> pwd context = absPath (js ++ ds) ->
  isPlain x = true ->
  pwd (child context x) = absPath (js ++ ds ++ [x]) /\
  jail (child context x) = jail context /\
  basename (child context x) = x /\
  (forall path, startsWith (pwd (child context path)) (jail context) = true).
Proof.
  intros Hjs%validParts_Forall Hjail Hds Hpwd Hx.
  pose proof (isPlain_isPart _ Hx) as Hpart.
  assert (Hall : Forall (fun p => isPart p = true) ((js ++ ds) ++ [x])).
  { apply Forall_app. split; [by apply Forall_app|by repeat constructor]. }
  assert (Hchild : pwd (child context x) = absPath (js ++ ds ++ [x])).
  { cbn [child pwd]. rewrite Hjail, Hpwd. unfold resolveWithinJail.
    rewrite resolve_child by (by apply Forall_app || done).
    rewrite withinJail_absolute by apply absPath_absolute.
    rewrite <- app_assoc, startsWith_absPath_app. cbn [negb].
    apply finish_absPath. by rewrite app_assoc. }
  split; [done|]. split; [done|]. split.
  - unfold basename. rewrite Hchild, app_assoc.
    assert (String.eqb (absPath ((js ++ ds) ++ [x])) "/" = false) as ->.
    { destruct ((js ++ ds) ++ [x]) as [|p rest] eqn:E; [by destruct (js ++ ds)|].
      apply absPath_not_root. by inversion Hall as [|? ? [? _]%andb_prop _]. }
    rewrite dirname_absPath by done. by apply relative_child.
  - intros path. cbn [child pwd]. rewrite Hjail.
    apply (jailed_startsWith js (resolve (pwd context) path) Hjs (resolve_absolute _ _)).
Qed.

Lemma child_store_witness :
  let context := {| uri := "memory:///"; jail := "/j"; pwd := "/j/d" |} in
  pwd (child context "x") = "/j/d/x" /\
  jail (child context "x") = "/j" /\
  basename (child context "x") = "x" /\
  (forall path, startsWith (pwd (child context path)) "/j" = true).
Proof.
  apply (child_store {| uri := "memory:///"; jail := "/j"; pwd := "/j/d" |} ["j"] ["d"] "x");
    [reflexivity | reflexivity | repeat constructor | reflexivity | reflexivity].
Defined.

(** X25. [memoryStore]: the jail is the root and the working directory a clean
    absolute path; the engine is the tree a [content] serializes, and the
    empty tree when there is no content or the content is no JSON text. *)
Theorem memoryStore_restores (toISOString : Z -> string) (dateParse : string -> Z)
    (options : MemoryStoreOptions) (now : Z) (fs : Fs) :
  noHoles fs = true ->
  forallb (readsBack toISOString dateParse) (timesOf fs) = true ->
  let pwd := resolveWithinJail "/" "/" (default "/" (mem_pwd options)) in
  let context := mkContext (default ("memory://" +:+ pwd) (mem_uri options)) "/" pwd in
  (exists parts, Forall (fun p => isPart p = true) parts /\ pwd = absPath parts) /\
  (mem_content options = Some (toJson toISOString fs) ->
   memoryStore dateParse options now = Val (context, fs)) /\
  (mem_content options = None ->
   memoryStore dateParse options now = Val (context, MemoryFs.empty pwd now)) /\
  (forall text, mem_content options = Some (Malformed text) ->
   memoryStore dateParse options now = Val (context, MemoryFs.empty pwd now)).
Proof.
  intros Hholes Hdates pwd context. split; [by apply resolveWithinJail_absolute|].
  unfold memoryStore. fold pwd. fold context. split; [|split].
  - intros ->. change (toJson toISOString fs) with (Doc (fsToJson toISOString fs)).
    cbv iota. fold (toJson toISOString fs).
    by rewrite (toJson_parses toISOString dateParse fs Hholes Hdates).
  - by intros ->.
  - intros text ->. by destruct text.
Qed.

Lemma memoryStore_restores_witness :
  memoryStore Samples.epochTime
    {| mem_pwd := Some "a/../b"; mem_uri := None;
       mem_content := Some (toJson Samples.epochText Scenario.fresh) |} 5
  = Val (mkContext "memory:///b" "/" "/b", Scenario.fresh).
Proof.
  destruct (memoryStore_restores Samples.epochText Samples.epochTime
              {| mem_pwd := Some "a/../b"; mem_uri := None;
                 mem_content := Some (toJson Samples.epochText Scenario.fresh) |}
              5%Z Scenario.fresh eq_refl eq_refl) as (_ & Hcontent & _).
  by apply Hcontent.
Defined.

End StoreFacadeFacts.
